(** * OnlineHub: the catalog, the duplicate guard, the URL classifier and
    the playback fallback engine of [script.js], embedded in Rocq.

    The script holds two generations of its classes; the development
    follows the second, enhanced one (from line 1535 on): [CONFIG],
    [PerformanceUtils], [DuplicatePreventionService],
    [VideoAvailabilityChecker], [VideoAnalytics], [UniversalVideoParser],
    [VideoMetadataService], [EnhancedVideoManager], [EnhancedVideoPlayer],
    [AirtableService] and [SearchService].

    Conventions.
    - A JavaScript string is the list of its UTF-16 code units ([list N]).
      [toLowerCase] and [toUpperCase] are modelled on the ASCII letters and
      leave every other code unit unchanged.
    - A JavaScript number that the code only uses as an integer is a [Z];
      the two scores the code computes with divisions and halves are exact
      rationals ([Q]).  Every quotient the duplicate guard compares with
      its threshold is a ratio of two string lengths, for which the exact
      comparison and the double-precision one agree.
    - The clock ([Date.now()], [new Date()]) is an explicit argument, in
      milliseconds; the network is an oracle from requests to outcomes.
    - DOM rendering is left out; what the page shows of the player is kept
      as fields of the player state. *)

From Stdlib Require Import ZArith NArith QArith Qminmax Lqa Ascii String List Lia.
From stdpp Require Import base decidable option list sorting gmap strings pretty.

Local Open Scope Z_scope.
Local Open Scope list_scope.

(* ================================================================== *)
(** * JavaScript strings *)
(* ================================================================== *)

Abbreviation jsstring := (list N).

Definition js (s : string) : jsstring :=
  (fun a => N_of_ascii a) <$> list_ascii_of_string s.

(** [String.prototype.toLowerCase], per code unit. *)
Definition lower_unit (c : N) : N :=
  if ((65 <=? c) && (c <=? 90))%N then (c + 32)%N else c.

Definition upper_unit (c : N) : N :=
  if ((97 <=? c) && (c <=? 122))%N then (c - 32)%N else c.

Definition toLowerCase (s : jsstring) : jsstring := lower_unit <$> s.
Definition toUpperCase (s : jsstring) : jsstring := upper_unit <$> s.

(** [s.startsWith(p)] *)
Fixpoint startsWith (s p : jsstring) : bool :=
  match p, s with
  | [], _ => true
  | _ :: _, [] => false
  | a :: p', b :: s' => if decide (a = b) then startsWith s' p' else false
  end.

(** [s.includes(p)] *)
Fixpoint includes (s p : jsstring) : bool :=
  startsWith s p ||
  match s with
  | [] => false
  | _ :: s' => includes s' p
  end.

(** [Array.prototype.join(sep)] on an array of strings. *)
Fixpoint join (sep : jsstring) (parts : list jsstring) : jsstring :=
  match parts with
  | [] => []
  | [p] => p
  | p :: rest => p ++ sep ++ join sep rest
  end.

(** [s.split(c)] for a one-unit separator: never empty. *)
Fixpoint split_unit (c : N) (s : jsstring) : list jsstring :=
  match s with
  | [] => [[]]
  | x :: s' =>
      if decide (x = c) then [] :: split_unit c s'
      else match split_unit c s' with
           | [] => [[x]]
           | p :: ps => (x :: p) :: ps
           end
  end.

(** [`${n}`] for a non-negative integer. *)
Definition decimal (n : nat) : jsstring := js (pretty (N.of_nat n)).

(** JavaScript truthiness of a string. *)
Definition truthy (s : jsstring) : bool :=
  match s with [] => false | _ => true end.

(** [a || b] on strings. *)
Definition or_else (a b : jsstring) : jsstring := if truthy a then a else b.

(** [Array.prototype.sort(compare)]: a stable sort; [x] stays in front of
    [y] unless [compare x y] is positive.  A [NaN] that a comparator
    returns counts as 0, as the standard has it.  Where that makes the
    comparator inconsistent (a duration or a date that does not parse,
    among others that do), the standard leaves the order to the engine:
    the order below is one of those it allows, and an engine may give
    another. *)
Fixpoint sort_insert {A} (compare : A -> A -> Q) (x : A) (l : list A)
  : list A :=
  match l with
  | [] => [x]
  | y :: l' =>
      if Qle_bool (compare x y) 0 then x :: y :: l'
      else y :: sort_insert compare x l'
  end.

Definition js_sort {A} (compare : A -> A -> Q) (l : list A) : list A :=
  foldr (sort_insert compare) [] l.

(** [a - b] on numbers that may be [NaN], as a comparator's result. *)
Definition minus_or_nan (a b : option Z) : Q :=
  match a, b with
  | Some x, Some y => inject_Z (x - y)
  | _, _ => 0%Q
  end.

(** What a function call produces: a value, or an exception. *)
Inductive Outcome (A : Type) :=
  | Returned (a : A)
  | Thrown (message : jsstring).
Arguments Returned {A} a.
Arguments Thrown {A} message.

(* ================================================================== *)
(** * CONFIG *)
(* ================================================================== *)

Module CONFIG.
Module SEARCH.
Definition MIN_SEARCH_LENGTH : nat := 2.
Definition MAX_SUGGESTIONS : nat := 10.
Inductive Field := title | description | type | tags | category | author.
Definition SEARCH_FIELDS : list Field :=
  [title; description; type; tags; category; author].
Definition FUZZY_SEARCH : bool := true.
End SEARCH.
End CONFIG.

(* ================================================================== *)
(** * Host functions

    Builtins of the JavaScript host whose results the script only
    compares or orders: they are taken as given. [None] stands for [NaN]
    (an invalid date, a string that starts with no digit). *)
(* ================================================================== *)

Record Host := {
  Date_parse : jsstring -> option Z;          (* new Date(s).getTime() *)
  localeCompare : jsstring -> jsstring -> Z;  (* a.localeCompare(b) *)
  parseInt : jsstring -> option Z;            (* parseInt(s) *)
  toISOString : Z -> jsstring;                (* new Date(t).toISOString() *)
}.

(* ================================================================== *)
(** * Catalog entries *)
(* ================================================================== *)

Module Video.
(** The object [AirtableService.getAllVideos] builds for a record.
    [None] is a property that is absent ([undefined]) or [null]. *)
Record t := mk {
  id : jsstring;
  videoId : jsstring;
  title : jsstring;
  description : jsstring;
  type : jsstring;
  duration : jsstring;
  url : option jsstring;
  embedUrls : option (list jsstring);
  thumbnail : option jsstring;
  createdAt : jsstring;
  status : option jsstring;
  viewCount : Z;
  tags : list jsstring;
  category : jsstring;
  author : jsstring;
  originalUrl : option jsstring;
}.

(** [String(video[field] || '')] for a search field.  An array is truthy
    and prints as its elements joined by commas. *)
Definition field_text (v : t) (f : CONFIG.SEARCH.Field) : jsstring :=
  match f with
  | CONFIG.SEARCH.title => title v
  | CONFIG.SEARCH.description => description v
  | CONFIG.SEARCH.type => type v
  | CONFIG.SEARCH.tags => join (js ",") (tags v)
  | CONFIG.SEARCH.category => category v
  | CONFIG.SEARCH.author => author v
  end.
End Video.

(* ================================================================== *)
(** * AirtableService: reading the record store *)
(* ================================================================== *)

Module AirtableService.
(** [record.fields] of a stored record; every field may be missing. *)
Record Fields := {
  f_videoId : option jsstring;
  f_title : option jsstring;
  f_description : option jsstring;
  f_type : option jsstring;
  f_duration : option jsstring;
  f_url : option jsstring;
  f_embedUrls : option (list jsstring);
  f_thumbnail : option jsstring;
  f_createdAt : option jsstring;
  f_status : option jsstring;
  f_viewCount : option Z;
  f_tags : option (list jsstring);
  f_category : option jsstring;
  f_author : option jsstring;
}.

Record Record_ := { r_id : jsstring; r_fields : Fields }.

(** [x || d] where [x] is a possibly missing string. *)
Definition str_or (x : option jsstring) (d : jsstring) : jsstring :=
  match x with
  | Some s => or_else s d
  | None => d
  end.

(** The object literal of [getAllVideos]; [nowISO] is
    [new Date().toISOString()]. *)
Definition video_of_record (nowISO : jsstring) (record : Record_) : Video.t :=
  let fields := r_fields record in
  {| Video.id := r_id record;
     Video.videoId := str_or (f_videoId fields) (r_id record);
     Video.title := str_or (f_title fields) [];
     Video.description := str_or (f_description fields) [];
     Video.type := str_or (f_type fields) (js "other");
     Video.duration := str_or (f_duration fields) (js "--:--");
     Video.url := Some (str_or (f_url fields) []);
     Video.embedUrls :=
       Some (match f_embedUrls fields with
             | Some l => l
             | None => [str_or (f_url fields) []]
             end);
     Video.thumbnail :=
       match f_thumbnail fields with
       | Some s => if truthy s then Some s else None
       | None => None
       end;
     Video.createdAt := str_or (f_createdAt fields) nowISO;
     Video.status := Some (str_or (f_status fields) (js "active"));
     Video.viewCount := default 0 (f_viewCount fields);
     Video.tags := default [] (f_tags fields);
     Video.category := str_or (f_category fields) (js "general");
     Video.author := str_or (f_author fields) [];
     Video.originalUrl := None |}.

(** [video.status !== 'inactive'] *)
Definition not_inactive (video : Video.t) : bool :=
  negb (bool_decide (Video.status video = Some (js "inactive"))).

(** What [handleRequest] hands back: it throws once its retries are
    spent, or it returns the parsed reply, whose [records] may be
    missing or not an array. *)
Inductive Reply :=
  | RequestFailed
  | Data (records : option (list Record_)).

(** The service keeps one cache entry, under the key ['all-videos']. *)
Record t := { cache : option (list Video.t) }.

Definition new : t := {| cache := None |}.

(** [data.records.map(...).filter(video => video.status !== 'inactive')] *)
Definition ingest (nowISO : jsstring) (records : list Record_)
  : list Video.t :=
  List.filter not_inactive (video_of_record nowISO <$> records).

Definition getAllVideos (self : t) (nowISO : jsstring) (reply : Reply)
  : Outcome (list Video.t) * t :=
  match cache self with
  | Some videos => (Returned videos, self)
  | None =>
      match reply with
      | Data (Some records) =>
          let videos := ingest nowISO records in
          (Returned videos, {| cache := Some videos |})
      | _ => (Thrown (js "Failed to load videos from cloud storage"), self)
      end
  end.

(** [clearCache], and the timer that drops the entry after
    [CONFIG.SEARCH.CACHE_DURATION]. *)
Definition clearCache (self : t) : t := {| cache := None |}.

(** ** Requests

    [fetch k] is what the [k]-th call of [fetch] does for one request:
    the server answers with a status, a status text and a body that
    [response.json()] parses or not, or the call is rejected.  An error
    carries its [name] and its [message]. *)
Record Error := { e_name : jsstring; e_message : jsstring }.

Inductive Fetched (A : Type) :=
  | Answered (status : nat) (statusText : jsstring) (json : Error + A)
  | NotAnswered (error : Error).
Arguments Answered {A} status statusText json.
Arguments NotAnswered {A} error.

(** [retryCount] and [retryDelay], as the constructor sets them. *)
Definition retryCount : nat := 3.
Definition retryDelay : Z := 1000.

(** [response.ok] *)
Definition ok (status : nat) : bool :=
  ((200 <=? status) && (status <=? 299))%nat.

(** What a call of [handleRequest] did: its result, the number of calls
    of [fetch], and the delays it waited for, in order. *)
Record Handled (A : Type) := {
  h_result : Error + A;
  h_fetches : nat;
  h_delays : list Z;
}.
Arguments h_result {A} _.
Arguments h_fetches {A} _.
Arguments h_delays {A} _.

Definition settled {A} (result : Error + A) : Handled A :=
  {| h_result := result; h_fetches := 1; h_delays := [] |}.

(** [await this.delay(ms); return this.handleRequest(...)] *)
Definition after_delay {A} (ms : Z) (rest : Handled A) : Handled A :=
  {| h_result := h_result rest; h_fetches := S (h_fetches rest);
     h_delays := ms :: h_delays rest |}.

(** [new Error(`HTTP ${response.status}: ${response.statusText}`)] *)
Definition http_error (status : nat) (statusText : jsstring) : Error :=
  {| e_name := js "Error";
     e_message := js "HTTP " ++ decimal status ++ js ": " ++ statusText |}.

(** [handleRequest(url, options, retries)], from its [k]-th call of
    [fetch] on.  An exception of the [try] block, the one it throws for a
    status that is not ok included, is handled by its own [catch]
    clause; the result of the recursive call is returned as it is. *)
Fixpoint handleRequest {A} (fetch : nat -> Fetched A) (k retries : nat)
  : Handled A :=
  let catch (error : Error) : Handled A :=
    match retries with
    | S retries' =>
        if bool_decide (e_name error = js "AbortError")
        then settled (inl error)
        else after_delay retryDelay (handleRequest fetch (S k) retries')
    | O => settled (inl error)
    end in
  match fetch k with
  | Answered status statusText json =>
      if ok status then
        match json with
        | inr data => settled (inr data)
        | inl error => catch error
        end
      else
        match retries with
        | S retries' =>
            if (status =? 429)%nat then
              after_delay (retryDelay * 2)
                          (handleRequest fetch (S k) retries')
            else if (500 <=? status)%nat then
              after_delay retryDelay (handleRequest fetch (S k) retries')
            else catch (http_error status statusText)
        | O => catch (http_error status statusText)
        end
  | NotAnswered error => catch error
  end.

(** What [getAllVideos] sees of the request: the parsed reply, or the
    exception. *)
Definition reply_of (handled : Handled (option (list Record_))) : Reply :=
  match h_result handled with
  | inr records => Data records
  | inl _ => RequestFailed
  end.

(** [getAllVideos] with its request, retries included. *)
Definition requestAllVideos (self : t) (nowISO : jsstring)
    (fetch : nat -> Fetched (option (list Record_)))
  : Outcome (list Video.t) * t :=
  getAllVideos self nowISO (reply_of (handleRequest fetch 0 retryCount)).
(** ** Creating a record *)

(** The object that [addCustomVideo] hands to [addVideo].  Its
    [duration] is a string, or the number of minutes that the metadata
    service computed; it has no [tags] and no [category]. *)
Record NewVideo := {
  n_id : jsstring;
  n_title : jsstring;
  n_description : jsstring;
  n_type : jsstring;
  n_duration : jsstring + Z;
  n_url : option jsstring;
  n_embedUrls : list jsstring;
  n_thumbnail : jsstring;
  n_originalUrl : option jsstring;
  n_author : jsstring;
  n_viewCount : Z;
  n_uploadDate : jsstring;
}.

(** [record.fields] of the record that [addVideo] posts. *)
Record Posted := {
  p_videoId : jsstring;
  p_title : jsstring;
  p_description : jsstring;
  p_type : jsstring;
  p_duration : jsstring + Z;
  p_url : option jsstring;
  p_thumbnail : jsstring;
  p_createdAt : jsstring;
  p_status : jsstring;
  p_viewCount : Z;
  p_tags : list jsstring;
  p_category : jsstring;
  p_author : jsstring;
  p_uploadDate : jsstring;
}.

(** A record of the reply to a creation.  The properties that
    [addVideo] copies without a default ([id], [videoId], [title],
    [description], [type], [duration], [url], [createdAt]) are strings
    here, as the entries of the catalog carry them; the others may be
    missing. *)
Record Created := {
  c_id : jsstring;
  c_videoId : jsstring;
  c_title : jsstring;
  c_description : jsstring;
  c_type : jsstring;
  c_duration : jsstring;
  c_url : jsstring;
  c_embedUrls : option (list jsstring);
  c_thumbnail : option jsstring;
  c_createdAt : jsstring;
  c_status : option jsstring;
  c_viewCount : option Z;
  c_tags : option (list jsstring);
  c_category : option jsstring;
  c_author : option jsstring;
}.

(** The object literal [record] of [addVideo]; [nowISO] is
    [new Date().toISOString()]. *)
Definition record_of (nowISO : jsstring) (video : NewVideo) : Posted :=
  {| p_videoId := n_id video;
     p_title := n_title video;
     p_description := n_description video;
     p_type := n_type video;
     p_duration :=
       match n_duration video with
       | inl text => inl (or_else text (js "--:--"))
       | inr minutes => if minutes =? 0 then inl (js "--:--") else inr minutes
       end;
     p_url := n_url video;
     p_thumbnail := or_else (n_thumbnail video) [];
     p_createdAt := nowISO;
     p_status := js "active";
     p_viewCount := n_viewCount video;
     p_tags := [];
     p_category := js "general";
     p_author := or_else (n_author video) [];
     p_uploadDate := or_else (n_uploadDate video) [] |}.

(** The object literal that [addVideo] returns: the created record as
    the store sent it, its [status] included. *)
Definition video_of_created (createdRecord : Created) : Video.t :=
  {| Video.id := c_id createdRecord;
     Video.videoId := c_videoId createdRecord;
     Video.title := c_title createdRecord;
     Video.description := c_description createdRecord;
     Video.type := c_type createdRecord;
     Video.duration := c_duration createdRecord;
     Video.url := Some (c_url createdRecord);
     Video.embedUrls :=
       Some (match c_embedUrls createdRecord with
             | Some l => l
             | None => [c_url createdRecord]
             end);
     Video.thumbnail := c_thumbnail createdRecord;
     Video.createdAt := c_createdAt createdRecord;
     Video.status := c_status createdRecord;
     Video.viewCount := default 0 (c_viewCount createdRecord);
     Video.tags := default [] (c_tags createdRecord);
     Video.category := str_or (c_category createdRecord) (js "general");
     Video.author := str_or (c_author createdRecord) [];
     Video.originalUrl := None |}.

(** [addVideo(video)].  [store record k] is what the [k]-th call of
    [fetch] does for the [POST] of [record]; the body of an answer is
    [data.records], which may be missing.  An exception is thrown on to
    the caller, who reads its message. *)
Definition addVideo (self : t) (nowISO : jsstring) (video : NewVideo)
    (store : Posted -> nat -> Fetched (option (list Created)))
  : Outcome Video.t * t :=
  let record := record_of nowISO video in
  match h_result (handleRequest (store record) 0 retryCount) with
  | inr (Some (createdRecord :: _)) =>
      (Returned (video_of_created createdRecord), clearCache self)
  | inr _ => (Thrown (js "No record returned from Airtable"), self)
  | inl error => (Thrown (e_message error), self)
  end.
End AirtableService.

(* ================================================================== *)
(** * PerformanceUtils *)
(* ================================================================== *)

Module PerformanceUtils.
(** The function that [debounce(func, wait, immediate)] returns, with
    what it closes over: the variable [timeout] and the timers it has
    started that are pending, each with the arguments of the call that
    started it.  [applied] lists the arguments of every call of [func],
    oldest first. *)
Record Debounced (A : Type) := {
  immediate : bool;
  timeout : option nat;
  pending : list (nat * A);
  next_timer : nat;
  applied : list A;
}.
Arguments immediate {A} _.
Arguments timeout {A} _.
Arguments pending {A} _.
Arguments next_timer {A} _.
Arguments applied {A} _.

Definition debounce {A} (immediate : bool) : Debounced A :=
  {| immediate := immediate; timeout := None; pending := [];
     next_timer := 0; applied := [] |}.

(** A call [executedFunction(...args)]. *)
Definition executedFunction {A} (args : A) (d : Debounced A) : Debounced A :=
  let callNow := immediate d && negb (bool_decide (is_Some (timeout d))) in
  let cleared :=
    match timeout d with
    | Some timer =>
        List.filter (fun e => negb (fst e =? timer)%nat) (pending d)
    | None => pending d
    end in
  {| immediate := immediate d;
     timeout := Some (next_timer d);
     pending := cleared ++ [(next_timer d, args)];
     next_timer := S (next_timer d);
     applied := if callNow then applied d ++ [args] else applied d |}.

(** The timer [timer] elapses: its closure [later] runs. *)
Definition later {A} (timer : nat) (d : Debounced A) : Debounced A :=
  match List.find (fun e => (fst e =? timer)%nat) (pending d) with
  | Some (_, args) =>
      {| immediate := immediate d;
         timeout := None;
         pending :=
           List.filter (fun e => negb (fst e =? timer)%nat) (pending d);
         next_timer := next_timer d;
         applied := if immediate d then applied d else applied d ++ [args] |}
  | None => d
  end.

(** What happens to the debounced function. *)
Inductive Happening (A : Type) := Called (args : A) | Elapsed (timer : nat).
Arguments Called {A} args.
Arguments Elapsed {A} timer.

Definition happen {A} (d : Debounced A) (h : Happening A) : Debounced A :=
  match h with
  | Called args => executedFunction args d
  | Elapsed timer => later timer d
  end.
End PerformanceUtils.

(* ================================================================== *)
(** * DuplicatePreventionService *)
(* ================================================================== *)

Module DuplicatePreventionService.
(** The four properties the service reads of a video object. *)
Record VideoData := {
  videoId : jsstring;
  type : jsstring;
  title : jsstring;
  originalUrl : option jsstring;
}.

Global Instance VideoData_eq_dec : EqDecision VideoData.
Proof. solve_decision. Defined.

Definition of_video (v : Video.t) : VideoData :=
  {| videoId := Video.videoId v; type := Video.type v;
     title := Video.title v; originalUrl := Video.originalUrl v |}.

Record t := {
  videoHashes : gmap jsstring VideoData;
  similarityThreshold : Q;
}.

(** The constructor. *)
Definition new : t :=
  {| videoHashes := ∅; similarityThreshold := 85 # 100 |}.

(** [ToInt32]: the result of [<<] and of [&]. *)
Definition to_int32 (z : Z) : Z := (z + 2 ^ 31) mod 2 ^ 32 - 2 ^ 31.

(** One turn of the hashing loop:
    [hash = ((hash << 5) - hash) + char; hash = hash & hash]. *)
Definition hash_step (hash : Z) (char : N) : Z :=
  let hash := to_int32 (Z.shiftl hash 5) - hash + Z.of_N char in
  to_int32 (Z.land (to_int32 hash) (to_int32 hash)).

Definition digit36 (d : N) : N :=
  if (d <? 10)%N then (48 + d)%N else (87 + d)%N.

Fixpoint digits36 (fuel : nat) (n : N) (acc : jsstring) : jsstring :=
  match fuel with
  | O => acc
  | S fuel' =>
      if (n =? 0)%N then acc
      else digits36 fuel' (n / 36)%N (digit36 (n mod 36)%N :: acc)
  end.

(** [Number.prototype.toString(36)] on an integer. *)
Definition toString36 (z : Z) : jsstring :=
  if z =? 0 then js "0"
  else (if z <? 0 then js "-" else []) ++
       digits36 (S (N.size_nat (Z.abs_N z))) (Z.abs_N z) [].

Definition hash_content (videoData : VideoData) : jsstring :=
  toLowerCase (videoId videoData ++ js "-" ++ type videoData ++ js "-" ++
               title videoData).

Definition generateVideoHash (videoData : VideoData) : jsstring :=
  let content := hash_content videoData in
  toString36 (foldl hash_step 0 content).

(** ** editDistance: one array of costs, updated in place *)

(** The body of the inner loop, for the row [i] and the column [j]; the
    state is the array [costs] and the variable [lastValue]. *)
Definition inner_step (s1 s2 : jsstring) (i : nat)
    (st : list nat * nat) (j : nat) : list nat * nat :=
  let '(costs, lastValue) := st in
  if (i =? 0)%nat then (<[j := j]> costs, lastValue)
  else if (0 <? j)%nat then
    let newValue := costs !!! (j - 1)%nat in
    let newValue :=
      if decide (s1 !! (i - 1)%nat = s2 !! (j - 1)%nat) then newValue
      else (Nat.min (Nat.min newValue lastValue) (costs !!! j) + 1)%nat in
    (<[(j - 1)%nat := lastValue]> costs, newValue)
  else (costs, lastValue).

(** The body of the outer loop. *)
Definition outer_step (s1 s2 : jsstring) (costs : list nat) (i : nat)
  : list nat :=
  let '(costs, lastValue) :=
    foldl (inner_step s1 s2 i) (costs, i) (seq 0 (S (length s2))) in
  if (0 <? i)%nat then <[length s2 := lastValue]> costs else costs.

Definition editDistance (s1 s2 : jsstring) : nat :=
  let s1 := toLowerCase s1 in
  let s2 := toLowerCase s2 in
  let costs := replicate (S (length s2)) 0%nat in
  let costs := foldl (outer_step s1 s2) costs (seq 0 (S (length s1))) in
  costs !!! length s2.

Definition calculateSimilarity (str1 str2 : jsstring) : Q :=
  if negb (truthy str1) || negb (truthy str2) then 0%Q
  else
    let longer := if (length str2 <? length str1)%nat then str1 else str2 in
    let shorter := if (length str2 <? length str1)%nat then str2 else str1 in
    if (length longer =? 0)%nat then 1%Q
    else (inject_Z (Z.of_nat (length longer)
                    - Z.of_nat (editDistance longer shorter))
          / inject_Z (Z.of_nat (length longer)))%Q.

(** [a > b] on numbers. *)
Definition Qgtb (a b : Q) : bool := negb (Qle_bool a b).

Definition checkSimilarity (video1 video2 : VideoData) (threshold : Q)
  : bool :=
  let titleSimilarity := calculateSimilarity (title video1) (title video2) in
  let urlSimilarity :=
    match originalUrl video1, originalUrl video2 with
    | Some u1, Some u2 =>
        if truthy u1 && truthy u2 then calculateSimilarity u1 u2 else 0%Q
    | _, _ => 0%Q
    end in
  Qgtb (Qmax titleSimilarity urlSimilarity) threshold.

(** Returns the verdict and the service after the call. *)
Definition isDuplicate (self : t) (videoData : VideoData)
    (existingVideos : list VideoData) : bool * t :=
  let hash := generateVideoHash videoData in
  if bool_decide (is_Some (videoHashes self !! hash)) then (true, self)
  else if existsb (fun existingVideo =>
                     checkSimilarity videoData existingVideo
                       (similarityThreshold self)) existingVideos
  then (true, self)
  else (false, {| videoHashes := <[hash := videoData]> (videoHashes self);
                  similarityThreshold := similarityThreshold self |}).
End DuplicatePreventionService.

(* ================================================================== *)
(** * The network *)
(* ================================================================== *)

Inductive Method := HEAD | GET.

Record Request := {
  req_url : jsstring;
  req_method : Method;
  req_no_cors : bool;            (* mode: 'no-cors' *)
  req_timeout : option Z;        (* signal: AbortSignal.timeout(ms) *)
}.

(** What [await fetch(...)] does: it yields a response with a status, or
    it throws (a network failure, or the abort of a timeout). *)
Inductive FetchResult := Response (status : Z) | Rejected.

Definition Network := Request -> FetchResult.

(* ================================================================== *)
(** * VideoAvailabilityChecker *)
(* ================================================================== *)

Module VideoAvailabilityChecker.
Record t := {
  timeout : Z;
  cache : gmap jsstring bool;
}.

Definition new : t := {| timeout := 5000; cache := ∅ |}.

Definition checkDirectUrl (self : t) (net : Network) (url : jsstring)
  : bool :=
  match net {| req_url := url; req_method := HEAD; req_no_cors := true;
               req_timeout := None |} with
  | Response _ => true
  | Rejected =>
      match net {| req_url := url; req_method := GET; req_no_cors := true;
                   req_timeout := Some (timeout self) |} with
      | Response _ => true
      | Rejected => false
      end
  end.

(** The three thumbnail probes share one shape. *)
Definition probe (self : t) (net : Network) (url : jsstring) : bool :=
  match net {| req_url := url; req_method := GET; req_no_cors := false;
               req_timeout := Some (timeout self) |} with
  | Response status => bool_decide (status = 200)
  | Rejected => false
  end.

Definition checkYouTubeAvailability (self : t) (net : Network)
    (videoId : jsstring) : bool :=
  probe self net
    (js "https://img.youtube.com/vi/" ++ videoId ++ js "/hqdefault.jpg").

Definition checkDriveAvailability (self : t) (net : Network)
    (fileId : jsstring) : bool :=
  probe self net
    (js "https://drive.google.com/thumbnail?id=" ++ fileId ++ js "&sz=w100").

Definition checkVimeoAvailability (self : t) (net : Network)
    (videoId : jsstring) : bool :=
  probe self net (js "https://vumbnail.com/" ++ videoId ++ js ".jpg").

Definition checkWithFallback (self : t) (net : Network) (video : Video.t)
  : bool :=
  if decide (Video.type video = js "youtube") then
    checkYouTubeAvailability self net (Video.videoId video)
  else if decide (Video.type video = js "drive") then
    checkDriveAvailability self net (Video.videoId video)
  else if decide (Video.type video = js "vimeo") then
    checkVimeoAvailability self net (Video.videoId video)
  else true.

Definition cacheKey (video : Video.t) : jsstring :=
  js "availability-" ++ Video.id video.

(** The probe.  It returns its verdict and the checker after the call;
    every exception of the body is caught and answered by [false].
    [video.url.startsWith] throws when the entry has no [url]. *)
Definition checkVideoAvailability (self : t) (net : Network)
    (video : Video.t) : bool * t :=
  match cache self !! cacheKey video with
  | Some cached => (cached, self)
  | None =>
      let body : option bool :=
        if decide (Video.type video = js "direct") then
          Some (checkDirectUrl self net
                  (default (js "undefined") (Video.url video)))
        else
          match Video.url video with
          | None => None                                (* TypeError *)
          | Some url =>
              if startsWith url (js "http")
              then Some (checkDirectUrl self net url)
              else Some (checkWithFallback self net video)
          end in
      match body with
      | Some isAvailable =>
          (isAvailable,
           {| timeout := timeout self;
              cache := <[cacheKey video := isAvailable]> (cache self) |})
      | None => (false, self)
      end
  end.

(** The timer that [checkVideoAvailability] starts: after a minute the
    cached verdict is dropped. *)
Definition expire (self : t) (key : jsstring) : t :=
  {| timeout := timeout self; cache := delete key (cache self) |}.
End VideoAvailabilityChecker.

(* ================================================================== *)
(** * VideoAnalytics *)
(* ================================================================== *)

Module VideoAnalytics.
Record Stats := {
  playCount : Z;
  completionCount : Z;
  errorCount : Z;
  loadCount : Z;
  seekCount : Z;
  totalWatchTime : Q;
  lastPlayed : option Z;     (* the instant whose ISO string is stored *)
}.

Inductive Event := play | complete | error | load | seek.

Record t := {
  stats : gmap jsstring Stats;
  sessionStart : Z;
}.

Definition new (now : Z) : t := {| stats := ∅; sessionStart := now |}.

Definition getVideoStats (self : t) (videoId : jsstring) : Stats :=
  default {| playCount := 0; completionCount := 0; errorCount := 0;
             loadCount := 0; seekCount := 0; totalWatchTime := 0%Q;
             lastPlayed := None |}
          (stats self !! videoId).

Definition saveVideoStats (self : t) (videoId : jsstring) (s : Stats) : t :=
  {| stats := <[videoId := s]> (stats self);
     sessionStart := sessionStart self |}.

(** [duration] is [metadata.duration || 0]. *)
Definition updateVideoStats (self : t) (now : Z) (video : Video.t)
    (event : Event) (duration : Q) : t :=
  let s := getVideoStats self (Video.id video) in
  let s :=
    match event with
    | play =>
        {| playCount := playCount s + 1;
           completionCount := completionCount s;
           errorCount := errorCount s; loadCount := loadCount s;
           seekCount := seekCount s; totalWatchTime := totalWatchTime s;
           lastPlayed := Some now |}
    | complete =>
        {| playCount := playCount s;
           completionCount := completionCount s + 1;
           errorCount := errorCount s; loadCount := loadCount s;
           seekCount := seekCount s;
           totalWatchTime := (totalWatchTime s + duration)%Q;
           lastPlayed := lastPlayed s |}
    | error =>
        {| playCount := playCount s;
           completionCount := completionCount s;
           errorCount := errorCount s + 1; loadCount := loadCount s;
           seekCount := seekCount s; totalWatchTime := totalWatchTime s;
           lastPlayed := lastPlayed s |}
    | load =>
        {| playCount := playCount s;
           completionCount := completionCount s;
           errorCount := errorCount s; loadCount := loadCount s + 1;
           seekCount := seekCount s; totalWatchTime := totalWatchTime s;
           lastPlayed := lastPlayed s |}
    | seek =>
        {| playCount := playCount s;
           completionCount := completionCount s;
           errorCount := errorCount s; loadCount := loadCount s;
           seekCount := seekCount s + 1; totalWatchTime := totalWatchTime s;
           lastPlayed := lastPlayed s |}
    end in
  saveVideoStats self (Video.id video) s.

(** The record that [trackVideoEvent] builds is only logged; its effect
    is the update of the statistics. *)
Definition trackVideoEvent (self : t) (now : Z) (event : Event)
    (video : Video.t) (duration : Q) : t :=
  updateVideoStats self now video event duration.

Definition calculatePopularityScore (self : t) (now : Z) (video : Video.t)
  : Q :=
  let s := getVideoStats self (Video.id video) in
  let playScore := inject_Z (playCount s * 10) in
  let completionScore := inject_Z (completionCount s * 20) in
  let recencyBonus :=
    match lastPlayed s with
    | Some played =>
        Qmax 0 (100 - inject_Z (now - played)
                      / inject_Z (1000 * 60 * 60 * 24))%Q
    | None => 0%Q
    end in
  (playScore + completionScore + recencyBonus)%Q.

Definition getPopularVideos (self : t) (now : Z) (videos : list Video.t)
    (limit : nat) : list Video.t :=
  let items :=
    (fun video => (video, calculatePopularityScore self now video))
      <$> videos in
  fst <$> take limit (js_sort (fun a b => (snd b - snd a)%Q) items).
End VideoAnalytics.

(* ================================================================== *)
(** * Regular expressions

    The fragment the parsers use: literal text, a greedy run [c+] of one
    character class, alternation, sequence and capturing groups, matched
    by backtracking as [String.prototype.match] does, leftmost first. *)
(* ================================================================== *)

Module RegExp.
Inductive t :=
  | Chars (s : jsstring)
  | Plus (class : N -> bool)
  | Alt (r1 r2 : t)
  | Seq (r1 r2 : t)
  | Group (r : t).

(** A greedy run of at least one unit of [class]: the longest run is
    tried first, then the shorter ones. *)
Fixpoint plus {R} (class : N -> bool) (s : jsstring)
    (k : jsstring -> option R) : option R :=
  match s with
  | [] => None
  | c :: s' =>
      if class c then
        match plus class s' k with
        | Some r => Some r
        | None => k s'
        end
      else None
  end.

(** [run r s caps k]: match [r] at the head of [s], then continue with
    [k] on the rest and the captures so far. *)
Fixpoint run {R} (r : t) (s : jsstring) (caps : list jsstring)
    (k : jsstring -> list jsstring -> option R) : option R :=
  match r with
  | Chars l => if startsWith s l then k (drop (length l) s) caps else None
  | Plus class => plus class s (fun s' => k s' caps)
  | Alt r1 r2 =>
      match run r1 s caps k with
      | Some x => Some x
      | None => run r2 s caps k
      end
  | Seq r1 r2 => run r1 s caps (fun s' caps' => run r2 s' caps' k)
  | Group r' =>
      run r' s caps
          (fun s' caps' =>
             k s' (caps' ++ [take (length s - length s') s]))
  end.

(** [s.match(r)] without the [g] flag: the captures [match[1]],
    [match[2]], ... of the leftmost match. *)
Fixpoint match_ (r : t) (s : jsstring) : option (list jsstring) :=
  match run r s [] (fun _ caps => Some caps) with
  | Some caps => Some caps
  | None =>
      match s with
      | [] => None
      | _ :: s' => match_ r s'
      end
  end.

(** [[^...]]: any unit that is not one of [excluded]. *)
Definition none_of (excluded : string) (c : N) : bool :=
  negb (bool_decide (c ∈ js excluded)).

(** [\d] *)
Definition digit (c : N) : bool := ((48 <=? c) && (c <=? 57))%N.

(** [\w] *)
Definition word (c : N) : bool :=
  (((65 <=? c) && (c <=? 90)) || ((97 <=? c) && (c <=? 122))
   || ((48 <=? c) && (c <=? 57)) || (c =? 95))%N.

Definition lit (s : string) : t := Chars (js s).

Fixpoint alts (r : t) (rs : list t) : t :=
  match rs with
  | [] => r
  | r' :: rs' => Alt r (alts r' rs')
  end.
End RegExp.

(* ================================================================== *)
(** * btoa and encodeURIComponent *)
(* ================================================================== *)

Definition base64_unit (i : N) : N :=
  if (i <? 26)%N then (65 + i)%N
  else if (i <? 52)%N then (97 + (i - 26))%N
  else if (i <? 62)%N then (48 + (i - 52))%N
  else if (i =? 62)%N then 43%N else 47%N.

Fixpoint base64 (bytes : list N) : jsstring :=
  match bytes with
  | [] => []
  | [a] =>
      [base64_unit (a / 4); base64_unit (a mod 4 * 16); 61; 61]%N
  | [a; b] =>
      [base64_unit (a / 4); base64_unit (a mod 4 * 16 + b / 16);
       base64_unit (b mod 16 * 4); 61]%N
  | a :: b :: c :: rest =>
      [base64_unit (a / 4); base64_unit (a mod 4 * 16 + b / 16);
       base64_unit (b mod 16 * 4 + c / 64); base64_unit (c mod 64)]%N
      ++ base64 rest
  end.

(** [btoa(s)]: it throws when a unit of [s] is above 255. *)
Definition btoa (s : jsstring) : Outcome jsstring :=
  if forallb (fun c => (c <=? 255)%N) s then Returned (base64 s)
  else Thrown (js "InvalidCharacterError").

(** [s.replace(/=/g, '')] *)
Definition strip_equals (s : jsstring) : jsstring :=
  List.filter (fun c => negb (c =? 61)%N) s.

Definition hex_unit (d : N) : N :=
  if (d <? 10)%N then (48 + d)%N else (55 + d)%N.

Definition percent (byte : N) : jsstring :=
  [37; hex_unit (byte / 16); hex_unit (byte mod 16)]%N.

Definition utf8 (cp : N) : list N :=
  if (cp <? 128)%N then [cp]
  else if (cp <? 2048)%N then [192 + cp / 64; 128 + cp mod 64]%N
  else if (cp <? 65536)%N then
    [224 + cp / 4096; 128 + cp / 64 mod 64; 128 + cp mod 64]%N
  else
    [240 + cp / 262144; 128 + cp / 4096 mod 64; 128 + cp / 64 mod 64;
     128 + cp mod 64]%N.

(** The units [encodeURIComponent] keeps: letters, digits and
    [- _ . ! ~ * ' ( )]. *)
Definition uri_unreserved (c : N) : bool :=
  RegExp.word c || bool_decide (c ∈ js "-.!~*'()").

Definition encode_point (cp : N) : jsstring :=
  if uri_unreserved cp then [cp] else mjoin (percent <$> utf8 cp).

(** [encodeURIComponent(s)]: it throws on a surrogate without its pair. *)
Fixpoint encodeURIComponent_units (s : jsstring) : option jsstring :=
  match s with
  | [] => Some []
  | c :: rest =>
      if ((c <? 55296) || (57343 <? c))%N then
        (encode_point c ++.) <$> encodeURIComponent_units rest
      else if (c <=? 56319)%N then
        match rest with
        | d :: rest' =>
            if ((56320 <=? d) && (d <=? 57343))%N then
              (encode_point (65536 + (c - 55296) * 1024 + (d - 56320))%N ++.)
                <$> encodeURIComponent_units rest'
            else None
        | [] => None
        end
      else None
  end.

Definition encodeURIComponent (s : jsstring) : Outcome jsstring :=
  match encodeURIComponent_units s with
  | Some r => Returned r
  | None => Thrown (js "URIError")
  end.

(** Sequencing of calls that may throw. *)
Definition bind {A B} (x : Outcome A) (f : A -> Outcome B) : Outcome B :=
  match x with
  | Returned a => f a
  | Thrown e => Thrown e
  end.

Notation "'let*' x ':=' c 'in' k" := (bind c (fun x => k))
  (at level 10, x name, c at level 200, k at level 200).

(* ================================================================== *)
(** * UniversalVideoParser *)
(* ================================================================== *)

(** [window.location], as far as the parsers read it. *)
Record Window := { origin : jsstring; hostname : jsstring }.

Module UniversalVideoParser.
Import RegExp.

(** The object a parser returns. [parseURL] adds [originalUrl]. *)
Record Parsed := {
  videoId : jsstring;
  type : jsstring;
  embedUrls : list jsstring;
  thumbnail : jsstring;
  title : jsstring;
  description : jsstring;
  originalUrl : option jsstring;
}.

(** The first pattern of [patterns] that matches, with its captures. *)
Fixpoint first_match (patterns : list RegExp.t) (url : jsstring)
  : option (list jsstring) :=
  match patterns with
  | [] => None
  | pattern :: rest =>
      match match_ pattern url with
      | Some caps => Some caps
      | None => first_match rest url
      end
  end.

(** [match[n]] *)
Definition cap (caps : list jsstring) (n : nat) : jsstring :=
  default [] (caps !! (n - 1)%nat).

Definition playlist_thumbnail : jsstring :=
  js "data:image/svg+xml;base64,PHN2ZyB3aWR0aD0iMTAwIiBoZWlnaHQ9IjcwIiB2aWV3Qm94PSIwIDAgMTAwIDcwIiBmaWxsPSJub25lIiB4bWxucz0iaHR0cDovL3d3dy53My5vcmcvMjAwMC9zdmciPjxyZWN0IHdpZHRoPSIxMDAiIGhlaWdodD0iNzAiIGZpbGw9IiNmMTBhMGIiLz48dGV4dCB4PSI1MCIgeT0iMzUiIGZvbnQtZmFtaWx5PSJBcmlhbCIgZm9udC1zaXplPSIxMCIgZmlsbD0id2hpdGUiIHRleHQtYW5jaG9yPSJtaWRkbGUiPllvdVR1YmUgUGxheWxpc3Q8L3RleHQ+PC9zdmc+".

Definition parseYouTube (window : Window) (url : jsstring)
  : Outcome (option Parsed) :=
  let patterns :=
    [ Seq (alts (lit "youtube.com/watch?v=")
                [lit "youtu.be/"; lit "youtube.com/embed/";
                 lit "youtube.com/v/"; lit "youtube.com/shorts/"])
          (Group (Plus (none_of "&?/#")));
      Seq (lit "youtube.com/playlist?list=") (Group (Plus (none_of "&?/#")));
      Seq (lit "music.youtube.com/watch?v=") (Group (Plus (none_of "&?/#")))
    ] in
  match first_match patterns url with
  | Some caps =>
      let videoId := cap caps 1 in
      if includes url (js "playlist") then
        let* encodedOrigin := encodeURIComponent (origin window) in
        Returned (Some
          {| videoId := js "playlist-" ++ videoId;
             type := js "youtube_playlist";
             embedUrls :=
               [ js "https://www.youtube.com/embed/videoseries?list="
                   ++ videoId
                   ++ js "&autoplay=1&modestbranding=1&rel=0&playsinline=1&origin="
                   ++ encodedOrigin;
                 js "https://www.youtube-nocookie.com/embed/videoseries?list="
                   ++ videoId
                   ++ js "&autoplay=1&modestbranding=1&rel=0&playsinline=1" ];
             thumbnail := playlist_thumbnail;
             title := js "YouTube Playlist";
             description := js "YouTube Playlist";
             originalUrl := None |})
      else
        let* encodedOrigin := encodeURIComponent (origin window) in
        Returned (Some
          {| videoId := videoId;
             type := js "youtube";
             embedUrls :=
               [ js "https://www.youtube.com/embed/" ++ videoId
                   ++ js "?autoplay=1&modestbranding=1&rel=0&playsinline=1&origin="
                   ++ encodedOrigin;
                 js "https://www.youtube-nocookie.com/embed/" ++ videoId
                   ++ js "?autoplay=1&modestbranding=1&rel=0&playsinline=1";
                 js "https://www.youtube.com/embed/" ++ videoId
                   ++ js "?autoplay=1&origin=*" ];
             thumbnail :=
               js "https://img.youtube.com/vi/" ++ videoId
                 ++ js "/hqdefault.jpg";
             title := js "YouTube Video";
             description := js "YouTube Video";
             originalUrl := None |})
  | None => Returned None
  end.

Definition parseGoogleDrive (url : jsstring) : Outcome (option Parsed) :=
  let patterns :=
    [ Seq (lit "drive.google.com/file/d/") (Group (Plus (none_of "/")));
      Seq (lit "drive.google.com/open?id=") (Group (Plus (none_of "&")));
      Seq (lit "drive.google.com/uc?id=") (Group (Plus (none_of "&")));
      Seq (lit "drive.google.com/uc?export=download&id=")
          (Group (Plus (none_of "&"))) ] in
  match first_match patterns url with
  | Some caps =>
      let fileId := cap caps 1 in
      Returned (Some
        {| videoId := fileId;
           type := js "drive";
           embedUrls :=
             [ js "https://drive.google.com/file/d/" ++ fileId
                 ++ js "/preview";
               js "https://drive.google.com/file/d/" ++ fileId
                 ++ js "/view" ];
           thumbnail :=
             js "https://drive.google.com/thumbnail?id=" ++ fileId
               ++ js "&sz=w400";
           title := js "Google Drive Video";
           description := js "Google Drive Video";
           originalUrl := None |})
  | None => Returned None
  end.

Definition parseVimeo (url : jsstring) : Outcome (option Parsed) :=
  let patterns :=
    [ Seq (lit "vimeo.com/") (Group (Plus digit));
      Seq (lit "player.vimeo.com/video/") (Group (Plus digit)) ] in
  match first_match patterns url with
  | Some caps =>
      let videoId := cap caps 1 in
      Returned (Some
        {| videoId := videoId;
           type := js "vimeo";
           embedUrls :=
             [ js "https://player.vimeo.com/video/" ++ videoId
                 ++ js "?autoplay=1&title=0&byline=0&portrait=0&dnt=1";
               js "https://vimeo.com/" ++ videoId ];
           thumbnail := js "https://vumbnail.com/" ++ videoId ++ js ".jpg";
           title := js "Vimeo Video";
           description := js "Vimeo Video";
           originalUrl := None |})
  | None => Returned None
  end.

Definition parseDailymotion (url : jsstring) : Outcome (option Parsed) :=
  let patterns :=
    [ Seq (lit "dailymotion.com/video/") (Group (Plus (none_of "_")));
      Seq (lit "dailymotion.com/embed/video/") (Group (Plus (none_of "?")));
      Seq (lit "dai.ly/") (Group (Plus (none_of "?"))) ] in
  match first_match patterns url with
  | Some caps =>
      let videoId := cap caps 1 in
      Returned (Some
        {| videoId := videoId;
           type := js "dailymotion";
           embedUrls :=
             [ js "https://www.dailymotion.com/embed/video/" ++ videoId
                 ++ js "?autoplay=1";
               js "https://dailymotion.com/embed/video/" ++ videoId ];
           thumbnail :=
             js "https://www.dailymotion.com/thumbnail/video/" ++ videoId;
           title := js "Dailymotion Video";
           description := js "Dailymotion Video";
           originalUrl := None |})
  | None => Returned None
  end.

Definition parseFacebook (url : jsstring) : Outcome (option Parsed) :=
  if includes url (js "facebook.com") || includes url (js "fb.watch") then
    let* encodedUrl := encodeURIComponent url in
    let* encoded := btoa url in
    Returned (Some
      {| videoId := strip_equals encoded;
         type := js "facebook";
         embedUrls :=
           [ js "https://www.facebook.com/plugins/video.php?href="
               ++ encodedUrl ++ js "&show_text=0&autoplay=1&width=500";
             js "https://www.facebook.com/plugins/video.php?href="
               ++ encodedUrl ++ js "&show_text=0&autoplay=1" ];
         thumbnail := [];
         title := js "Facebook Video";
         description := js "Facebook Video";
         originalUrl := None |})
  else Returned None.

Definition parseInstagram (url : jsstring) : Outcome (option Parsed) :=
  let patterns :=
    [ Seq (lit "instagram.com/")
          (Seq (alts (lit "p") [lit "reel"; lit "tv"])
               (Seq (lit "/") (Group (Plus (none_of "/?")))));
      Seq (lit "instagram.com/p/")
          (Seq (Group (Plus (none_of "/?"))) (lit "/embed")) ] in
  match first_match patterns url with
  | Some caps =>
      let code := cap caps 1 in
      Returned (Some
        {| videoId := code;
           type := js "instagram";
           embedUrls :=
             [ js "https://www.instagram.com/p/" ++ code ++ js "/embed/";
               js "https://www.instagram.com/reel/" ++ code ++ js "/embed/";
               js "https://www.instagram.com/tv/" ++ code ++ js "/embed/" ];
           thumbnail := [];
           title := js "Instagram Video";
           description := js "Instagram Video";
           originalUrl := None |})
  | None => Returned None
  end.

Definition parseTikTok (url : jsstring) : Outcome (option Parsed) :=
  if includes url (js "tiktok.com") then
    let videoId :=
      default []
        (head (split_unit 63 (default [] (last (split_unit 47 url))))) in
    Returned (Some
      {| videoId := videoId;
         type := js "tiktok";
         embedUrls :=
           [ js "https://www.tiktok.com/embed/v2/" ++ videoId;
             js "https://www.tiktok.com/embed/" ++ videoId ];
         thumbnail := [];
         title := js "TikTok Video";
         description := js "TikTok Video";
         originalUrl := None |})
  else Returned None.

Definition parseTwitter (url : jsstring) : Outcome (option Parsed) :=
  if includes url (js "twitter.com") || includes url (js "x.com") then
    let* encodedUrl := encodeURIComponent url in
    let* encoded := btoa url in
    Returned (Some
      {| videoId := strip_equals encoded;
         type := js "twitter";
         embedUrls :=
           [ js "https://twitframe.com/show?url=" ++ encodedUrl;
             js "https://platform.twitter.com/embed/Tweet.html?url="
               ++ encodedUrl ];
         thumbnail := [];
         title := js "Twitter/X Video";
         description := js "Twitter/X Video";
         originalUrl := None |})
  else Returned None.

Definition parseTwitch (window : Window) (url : jsstring)
  : Outcome (option Parsed) :=
  let videoPattern := Seq (lit "twitch.tv/videos/") (Group (Plus digit)) in
  let clipPattern :=
    Seq (lit "twitch.tv/")
        (Seq (Plus word) (Seq (lit "/clip/") (Group (Plus (none_of "?"))))) in
  match match_ videoPattern url with
  | Some videoMatch =>
      Returned (Some
        {| videoId := cap videoMatch 1;
           type := js "twitch";
           embedUrls :=
             [ js "https://player.twitch.tv/?video=" ++ cap videoMatch 1
                 ++ js "&parent=" ++ hostname window ++ js "&autoplay=true";
               js "https://player.twitch.tv/?video=" ++ cap videoMatch 1
                 ++ js "&parent=localhost&autoplay=true" ];
           thumbnail := [];
           title := js "Twitch Video";
           description := js "Twitch Video";
           originalUrl := None |})
  | None =>
      match match_ clipPattern url with
      | Some clipMatch =>
          Returned (Some
            {| videoId := cap clipMatch 1;
               type := js "twitch";
               embedUrls :=
                 [ js "https://clips.twitch.tv/embed?clip="
                     ++ cap clipMatch 1 ++ js "&parent=" ++ hostname window
                     ++ js "&autoplay=true";
                   js "https://clips.twitch.tv/embed?clip="
                     ++ cap clipMatch 1
                     ++ js "&parent=localhost&autoplay=true" ];
               thumbnail := [];
               title := js "Twitch Clip";
               description := js "Twitch Clip";
               originalUrl := None |})
      | None => Returned None
      end
  end.

Definition parseStreamable (url : jsstring) : Outcome (option Parsed) :=
  let pattern := Seq (lit "streamable.com/") (Group (Plus (none_of "?"))) in
  match match_ pattern url with
  | Some caps =>
      Returned (Some
        {| videoId := cap caps 1;
           type := js "streamable";
           embedUrls :=
             [ js "https://streamable.com/e/" ++ cap caps 1
                 ++ js "?autoplay=1";
               js "https://streamable.com/o/" ++ cap caps 1 ];
           thumbnail := [];
           title := js "Streamable Video";
           description := js "Streamable Video";
           originalUrl := None |})
  | None => Returned None
  end.

Definition parseDropbox (url : jsstring) : Outcome (option Parsed) :=
  let pattern :=
    Seq (lit "dropbox.com/s/")
        (Seq (Group (Plus (none_of "/")))
             (Seq (lit "/") (Group (Plus (none_of "?"))))) in
  match match_ pattern url with
  | Some caps =>
      Returned (Some
        {| videoId := cap caps 1;
           type := js "dropbox";
           embedUrls :=
             [ js "https://www.dropbox.com/s/" ++ cap caps 1 ++ js "/"
                 ++ cap caps 2 ++ js "?raw=1";
               js "https://dl.dropboxusercontent.com/s/" ++ cap caps 1
                 ++ js "/" ++ cap caps 2 ];
           thumbnail := [];
           title := js "Dropbox Video";
           description := js "Dropbox Video";
           originalUrl := None |})
  | None => Returned None
  end.

Definition parseGooglePhotos (url : jsstring) : Outcome (option Parsed) :=
  if includes url (js "photos.app.goo.gl")
     || includes url (js "photos.google.com") then
    let* encoded := btoa url in
    Returned (Some
      {| videoId := strip_equals encoded;
         type := js "photos";
         embedUrls := [url];
         thumbnail := [];
         title := js "Google Photos";
         description := js "Google Photos";
         originalUrl := None |})
  else Returned None.

Definition parseDirectVideo (url : jsstring) : Outcome (option Parsed) :=
  let videoExtensions :=
    [js ".mp4"; js ".webm"; js ".ogg"; js ".mov"; js ".mkv"; js ".flv";
     js ".avi"] in
  let isVideo :=
    existsb (fun ext => includes (toLowerCase url) ext) videoExtensions in
  if isVideo then
    let* encoded := btoa url in
    Returned (Some
      {| videoId := strip_equals encoded;
         type := js "direct";
         embedUrls := [url];
         thumbnail := [];
         title := js "Direct Video";
         description := js "Direct Video File";
         originalUrl := None |})
  else Returned None.

Definition parseUnknown (url : jsstring) : Outcome Parsed :=
  let* encoded := btoa url in
  Returned
    {| videoId := strip_equals encoded;
       type := js "other";
       embedUrls := [url];
       thumbnail := [];
       title := js "Custom Video";
       description := js "Video from unknown source";
       originalUrl := None |}.

Definition parsers (window : Window)
  : list (jsstring -> Outcome (option Parsed)) :=
  [ parseYouTube window; parseGoogleDrive; parseVimeo; parseDailymotion;
    parseFacebook; parseInstagram; parseTikTok; parseTwitter;
    parseTwitch window; parseStreamable; parseDropbox; parseGooglePhotos;
    parseDirectVideo ].

(** [{ ...result, originalUrl: url }] *)
Definition with_originalUrl (result : Parsed) (url : jsstring) : Parsed :=
  {| videoId := videoId result; type := type result;
     embedUrls := embedUrls result; thumbnail := thumbnail result;
     title := title result; description := description result;
     originalUrl := Some url |}.

(** The loop of [parseURL] over the parsers that are left. *)
Fixpoint try_parsers (ps : list (jsstring -> Outcome (option Parsed)))
    (url : jsstring) : Outcome (option Parsed) :=
  match ps with
  | [] => let* result := parseUnknown url in Returned (Some result)
  | parser :: rest =>
      let* result := parser url in
      match result with
      | Some result => Returned (Some (with_originalUrl result url))
      | None => try_parsers rest url
      end
  end.

(** [parseURL(url)]: [Returned None] is the result [null]. *)
Definition parseURL (window : Window) (url : jsstring)
  : Outcome (option Parsed) :=
  if negb (truthy url) then Returned None
  else try_parsers (parsers window) url.
End UniversalVideoParser.

(** What the duplicate guard reads of the object that [parseURL]
    returns, when [addCustomVideo] hands it over. *)
Definition of_parsed (parsed : UniversalVideoParser.Parsed)
  : DuplicatePreventionService.VideoData :=
  {| DuplicatePreventionService.videoId := UniversalVideoParser.videoId parsed;
     DuplicatePreventionService.type := UniversalVideoParser.type parsed;
     DuplicatePreventionService.title := UniversalVideoParser.title parsed;
     DuplicatePreventionService.originalUrl :=
       UniversalVideoParser.originalUrl parsed |}.

(** What the availability checker reads of that object: its [type], its
    [videoId], and two properties it does not have.  The [id] is only
    read through the template literal of the cache key, where
    [undefined] prints as the word; the [url] is missing.  The other
    properties are not read. *)
Definition as_video (parsed : UniversalVideoParser.Parsed) : Video.t :=
  {| Video.id := js "undefined";
     Video.videoId := UniversalVideoParser.videoId parsed;
     Video.title := UniversalVideoParser.title parsed;
     Video.description := UniversalVideoParser.description parsed;
     Video.type := UniversalVideoParser.type parsed;
     Video.duration := [];
     Video.url := None;
     Video.embedUrls := Some (UniversalVideoParser.embedUrls parsed);
     Video.thumbnail := Some (UniversalVideoParser.thumbnail parsed);
     Video.createdAt := [];
     Video.status := None;
     Video.viewCount := 0;
     Video.tags := [];
     Video.category := [];
     Video.author := [];
     Video.originalUrl := UniversalVideoParser.originalUrl parsed |}.

(* ================================================================== *)
(** * VideoMetadataService *)
(* ================================================================== *)

Module VideoMetadataService.
(** What the oEmbed endpoint of a platform answers, as far as the
    service reads it; [duration] is a number of seconds. *)
Record OEmbed := {
  o_title : option jsstring;
  o_author_name : option jsstring;
  o_thumbnail_url : option jsstring;
  o_description : option jsstring;
  o_duration : option Z;
  o_upload_date : option jsstring;
}.

(** The endpoints: the data that the request of a URL yields, or [None]
    when the request is rejected, is answered with a status that is not
    ok, or has a body that does not parse.  The service treats the
    three alike. *)
Definition Endpoints := jsstring -> option OEmbed.

(** The parsed object with the properties that the service may add.
    [duration] is [None] when the property is missing or [NaN]: its one
    reader takes it through [||]. *)
Record Enhanced := {
  parsed : UniversalVideoParser.Parsed;
  author : option jsstring;
  duration : option Z;
  uploadDate : option jsstring;
}.

Record t := { cache : gmap jsstring Enhanced }.

Definition new : t := {| cache := ∅ |}.

(** [{ ...videoData }] *)
Definition plain (videoData : UniversalVideoParser.Parsed) : Enhanced :=
  {| parsed := videoData; author := None; duration := None;
     uploadDate := None |}.

(** [x || undefined] where [x] is a possibly missing string. *)
Definition str_if (x : option jsstring) : option jsstring :=
  match x with
  | Some s => if truthy s then Some s else None
  | None => None
  end.

(** [x || d] where [x] is a possibly missing string. *)
Definition str_or (x : option jsstring) (d : jsstring) : jsstring :=
  match x with
  | Some s => or_else s d
  | None => d
  end.

(** [encodeURIComponent(videoData.originalUrl)] *)
Definition encodedUrl (videoData : UniversalVideoParser.Parsed)
  : Outcome jsstring :=
  encodeURIComponent
    (default (js "undefined") (UniversalVideoParser.originalUrl videoData)).

(** What [enhanceYouTubeMetadata] and [enhanceDailymotionMetadata]
    return for an answer of the endpoint. *)
Definition with_oembed (videoData : UniversalVideoParser.Parsed)
    (data : OEmbed) : Enhanced :=
  {| parsed :=
       {| UniversalVideoParser.videoId := UniversalVideoParser.videoId videoData;
          UniversalVideoParser.type := UniversalVideoParser.type videoData;
          UniversalVideoParser.embedUrls :=
            UniversalVideoParser.embedUrls videoData;
          UniversalVideoParser.thumbnail :=
            str_or (o_thumbnail_url data)
                   (UniversalVideoParser.thumbnail videoData);
          UniversalVideoParser.title :=
            str_or (o_title data) (UniversalVideoParser.title videoData);
          UniversalVideoParser.description :=
            UniversalVideoParser.description videoData;
          UniversalVideoParser.originalUrl :=
            UniversalVideoParser.originalUrl videoData |};
     author := str_if (o_author_name data);
     duration := None;
     uploadDate := None |}.

(** Every exception of the body is caught, and the object is returned
    as it came. *)
Definition enhanceYouTubeMetadata (endpoints : Endpoints)
    (videoData : UniversalVideoParser.Parsed) : Enhanced :=
  match encodedUrl videoData with
  | Returned encoded =>
      match endpoints (js "https://www.youtube.com/oembed?url=" ++ encoded
                       ++ js "&format=json") with
      | Some data => with_oembed videoData data
      | None => plain videoData
      end
  | Thrown _ => plain videoData
  end.

(** [Math.round(seconds / 60)]; [None] is [NaN]. *)
Definition minutes (seconds : option Z) : option Z :=
  (fun s => (s + 30) / 60) <$> seconds.

Definition enhanceVimeoMetadata (endpoints : Endpoints)
    (videoData : UniversalVideoParser.Parsed) : Enhanced :=
  match encodedUrl videoData with
  | Returned encoded =>
      match endpoints (js "https://vimeo.com/api/oembed.json?url="
                       ++ encoded) with
      | Some data =>
          {| parsed :=
               {| UniversalVideoParser.videoId :=
                    UniversalVideoParser.videoId videoData;
                  UniversalVideoParser.type :=
                    UniversalVideoParser.type videoData;
                  UniversalVideoParser.embedUrls :=
                    UniversalVideoParser.embedUrls videoData;
                  UniversalVideoParser.thumbnail :=
                    str_or (o_thumbnail_url data)
                           (UniversalVideoParser.thumbnail videoData);
                  UniversalVideoParser.title :=
                    str_or (o_title data)
                           (UniversalVideoParser.title videoData);
                  UniversalVideoParser.description :=
                    str_or (o_description data)
                           (UniversalVideoParser.description videoData);
                  UniversalVideoParser.originalUrl :=
                    UniversalVideoParser.originalUrl videoData |};
             author := str_if (o_author_name data);
             duration := minutes (o_duration data);
             uploadDate := o_upload_date data |}
      | None => plain videoData
      end
  | Thrown _ => plain videoData
  end.

Definition enhanceDailymotionMetadata (endpoints : Endpoints)
    (videoData : UniversalVideoParser.Parsed) : Enhanced :=
  match encodedUrl videoData with
  | Returned encoded =>
      match endpoints (js "https://www.dailymotion.com/services/oembed?url="
                       ++ encoded ++ js "&format=json") with
      | Some data => with_oembed videoData data
      | None => plain videoData
      end
  | Thrown _ => plain videoData
  end.

(** [fetchEnhancedMetadata(videoData)]: the data, and the service after
    the call.  Nothing in its [try] block throws, so the result is
    always cached; a timer drops the entry after half an hour. *)
Definition fetchEnhancedMetadata (self : t) (endpoints : Endpoints)
    (videoData : UniversalVideoParser.Parsed) : Enhanced * t :=
  let cacheKey :=
    js "metadata-" ++ UniversalVideoParser.videoId videoData ++ js "-"
      ++ UniversalVideoParser.type videoData in
  match cache self !! cacheKey with
  | Some cached => (cached, self)
  | None =>
      let enhancedData :=
        if decide (UniversalVideoParser.type videoData = js "youtube") then
          enhanceYouTubeMetadata endpoints videoData
        else if decide (UniversalVideoParser.type videoData = js "vimeo") then
          enhanceVimeoMetadata endpoints videoData
        else if decide (UniversalVideoParser.type videoData
                        = js "dailymotion") then
          enhanceDailymotionMetadata endpoints videoData
        else plain videoData in
      (enhancedData, {| cache := <[cacheKey := enhancedData]> (cache self) |})
  end.
End VideoMetadataService.

(* ================================================================== *)
(** * EnhancedVideoManager *)
(* ================================================================== *)

Module EnhancedVideoManager.
(** An entry of the recently-played ledger. *)
Record Played := {
  id : jsstring;
  playedAt : Z;       (* the instant whose ISO string is stored *)
  playCount : Z;
}.

Record Notification := { message : jsstring; kind : jsstring }.

Record t := {
  allVideos : list Video.t;
  filteredVideos : list Video.t;
  currentVideoId : option jsstring;
  currentSearchTerm : jsstring;
  currentSortOption : jsstring;
  currentFilters_platform : jsstring;
  recentlyPlayed : list Played;
  searchHistory : list jsstring;
  isLoading : bool;
  airtable : AirtableService.t;
  metadata : VideoMetadataService.t;
  duplicateChecker : DuplicatePreventionService.t;
  availabilityChecker : VideoAvailabilityChecker.t;
  analytics : VideoAnalytics.t;
  notifications : list Notification;    (* oldest first *)
}.

(** The constructor; [now] is the instant of construction. *)
Definition new (now : Z) : t :=
  {| allVideos := []; filteredVideos := []; currentVideoId := None;
     currentSearchTerm := []; currentSortOption := js "default";
     currentFilters_platform := js "all";
     recentlyPlayed := []; searchHistory := []; isLoading := false;
     airtable := AirtableService.new;
     metadata := VideoMetadataService.new;
     duplicateChecker := DuplicatePreventionService.new;
     availabilityChecker := VideoAvailabilityChecker.new;
     analytics := VideoAnalytics.new now;
     notifications := [] |}.

(** Assignments to one property. *)
Definition set_allVideos (x : list Video.t) (m : t) : t :=
  {| allVideos := x; filteredVideos := filteredVideos m;
     currentVideoId := currentVideoId m;
     currentSearchTerm := currentSearchTerm m;
     currentSortOption := currentSortOption m;
     currentFilters_platform := currentFilters_platform m;
     recentlyPlayed := recentlyPlayed m; searchHistory := searchHistory m;
     isLoading := isLoading m; airtable := airtable m;
     metadata := metadata m;
     duplicateChecker := duplicateChecker m;
     availabilityChecker := availabilityChecker m;
     analytics := analytics m; notifications := notifications m |}.

Definition set_filteredVideos (x : list Video.t) (m : t) : t :=
  {| allVideos := allVideos m; filteredVideos := x;
     currentVideoId := currentVideoId m;
     currentSearchTerm := currentSearchTerm m;
     currentSortOption := currentSortOption m;
     currentFilters_platform := currentFilters_platform m;
     recentlyPlayed := recentlyPlayed m; searchHistory := searchHistory m;
     isLoading := isLoading m; airtable := airtable m;
     metadata := metadata m;
     duplicateChecker := duplicateChecker m;
     availabilityChecker := availabilityChecker m;
     analytics := analytics m; notifications := notifications m |}.

Definition set_currentVideoId (x : option jsstring) (m : t) : t :=
  {| allVideos := allVideos m; filteredVideos := filteredVideos m;
     currentVideoId := x;
     currentSearchTerm := currentSearchTerm m;
     currentSortOption := currentSortOption m;
     currentFilters_platform := currentFilters_platform m;
     recentlyPlayed := recentlyPlayed m; searchHistory := searchHistory m;
     isLoading := isLoading m; airtable := airtable m;
     metadata := metadata m;
     duplicateChecker := duplicateChecker m;
     availabilityChecker := availabilityChecker m;
     analytics := analytics m; notifications := notifications m |}.

Definition set_query (term sortOption platform : jsstring) (m : t) : t :=
  {| allVideos := allVideos m; filteredVideos := filteredVideos m;
     currentVideoId := currentVideoId m;
     currentSearchTerm := term;
     currentSortOption := sortOption;
     currentFilters_platform := platform;
     recentlyPlayed := recentlyPlayed m; searchHistory := searchHistory m;
     isLoading := isLoading m; airtable := airtable m;
     metadata := metadata m;
     duplicateChecker := duplicateChecker m;
     availabilityChecker := availabilityChecker m;
     analytics := analytics m; notifications := notifications m |}.

Definition set_recentlyPlayed (x : list Played) (m : t) : t :=
  {| allVideos := allVideos m; filteredVideos := filteredVideos m;
     currentVideoId := currentVideoId m;
     currentSearchTerm := currentSearchTerm m;
     currentSortOption := currentSortOption m;
     currentFilters_platform := currentFilters_platform m;
     recentlyPlayed := x; searchHistory := searchHistory m;
     isLoading := isLoading m; airtable := airtable m;
     metadata := metadata m;
     duplicateChecker := duplicateChecker m;
     availabilityChecker := availabilityChecker m;
     analytics := analytics m; notifications := notifications m |}.

Definition set_searchHistory (x : list jsstring) (m : t) : t :=
  {| allVideos := allVideos m; filteredVideos := filteredVideos m;
     currentVideoId := currentVideoId m;
     currentSearchTerm := currentSearchTerm m;
     currentSortOption := currentSortOption m;
     currentFilters_platform := currentFilters_platform m;
     recentlyPlayed := recentlyPlayed m; searchHistory := x;
     isLoading := isLoading m; airtable := airtable m;
     metadata := metadata m;
     duplicateChecker := duplicateChecker m;
     availabilityChecker := availabilityChecker m;
     analytics := analytics m; notifications := notifications m |}.

Definition set_isLoading (x : bool) (m : t) : t :=
  {| allVideos := allVideos m; filteredVideos := filteredVideos m;
     currentVideoId := currentVideoId m;
     currentSearchTerm := currentSearchTerm m;
     currentSortOption := currentSortOption m;
     currentFilters_platform := currentFilters_platform m;
     recentlyPlayed := recentlyPlayed m; searchHistory := searchHistory m;
     isLoading := x; airtable := airtable m;
     metadata := metadata m;
     duplicateChecker := duplicateChecker m;
     availabilityChecker := availabilityChecker m;
     analytics := analytics m; notifications := notifications m |}.

Definition set_airtable (x : AirtableService.t) (m : t) : t :=
  {| allVideos := allVideos m; filteredVideos := filteredVideos m;
     currentVideoId := currentVideoId m;
     currentSearchTerm := currentSearchTerm m;
     currentSortOption := currentSortOption m;
     currentFilters_platform := currentFilters_platform m;
     recentlyPlayed := recentlyPlayed m; searchHistory := searchHistory m;
     isLoading := isLoading m; airtable := x;
     metadata := metadata m;
     duplicateChecker := duplicateChecker m;
     availabilityChecker := availabilityChecker m;
     analytics := analytics m; notifications := notifications m |}.

Definition set_availabilityChecker (x : VideoAvailabilityChecker.t) (m : t)
  : t :=
  {| allVideos := allVideos m; filteredVideos := filteredVideos m;
     currentVideoId := currentVideoId m;
     currentSearchTerm := currentSearchTerm m;
     currentSortOption := currentSortOption m;
     currentFilters_platform := currentFilters_platform m;
     recentlyPlayed := recentlyPlayed m; searchHistory := searchHistory m;
     isLoading := isLoading m; airtable := airtable m;
     metadata := metadata m;
     duplicateChecker := duplicateChecker m;
     availabilityChecker := x;
     analytics := analytics m; notifications := notifications m |}.

Definition set_duplicateChecker (x : DuplicatePreventionService.t) (m : t)
  : t :=
  {| allVideos := allVideos m; filteredVideos := filteredVideos m;
     currentVideoId := currentVideoId m;
     currentSearchTerm := currentSearchTerm m;
     currentSortOption := currentSortOption m;
     currentFilters_platform := currentFilters_platform m;
     recentlyPlayed := recentlyPlayed m; searchHistory := searchHistory m;
     isLoading := isLoading m; airtable := airtable m;
     metadata := metadata m;
     duplicateChecker := x;
     availabilityChecker := availabilityChecker m;
     analytics := analytics m; notifications := notifications m |}.

Definition set_metadata (x : VideoMetadataService.t) (m : t) : t :=
  {| allVideos := allVideos m; filteredVideos := filteredVideos m;
     currentVideoId := currentVideoId m;
     currentSearchTerm := currentSearchTerm m;
     currentSortOption := currentSortOption m;
     currentFilters_platform := currentFilters_platform m;
     recentlyPlayed := recentlyPlayed m; searchHistory := searchHistory m;
     isLoading := isLoading m; airtable := airtable m;
     metadata := x;
     duplicateChecker := duplicateChecker m;
     availabilityChecker := availabilityChecker m;
     analytics := analytics m; notifications := notifications m |}.

Definition set_analytics (x : VideoAnalytics.t) (m : t) : t :=
  {| allVideos := allVideos m; filteredVideos := filteredVideos m;
     currentVideoId := currentVideoId m;
     currentSearchTerm := currentSearchTerm m;
     currentSortOption := currentSortOption m;
     currentFilters_platform := currentFilters_platform m;
     recentlyPlayed := recentlyPlayed m; searchHistory := searchHistory m;
     isLoading := isLoading m; airtable := airtable m;
     metadata := metadata m;
     duplicateChecker := duplicateChecker m;
     availabilityChecker := availabilityChecker m;
     analytics := x; notifications := notifications m |}.

(** [showNotification(message, type)] *)
Definition showNotification (message kind : jsstring) (m : t) : t :=
  {| allVideos := allVideos m; filteredVideos := filteredVideos m;
     currentVideoId := currentVideoId m;
     currentSearchTerm := currentSearchTerm m;
     currentSortOption := currentSortOption m;
     currentFilters_platform := currentFilters_platform m;
     recentlyPlayed := recentlyPlayed m; searchHistory := searchHistory m;
     isLoading := isLoading m; airtable := airtable m;
     metadata := metadata m;
     duplicateChecker := duplicateChecker m;
     availabilityChecker := availabilityChecker m;
     analytics := analytics m;
     notifications :=
       notifications m ++ [{| message := message; kind := kind |}] |}.

(** [array.findIndex(p)]; [None] is the result -1. *)
Fixpoint findIndex {A} (p : A -> bool) (l : list A) : option nat :=
  match l with
  | [] => None
  | x :: l' => if p x then Some 0%nat else S <$> findIndex p l'
  end.

(** ** Search *)

Fixpoint fuzzyMatch_from (text search : jsstring) (searchIndex : nat)
  : bool :=
  match text with
  | [] => false
  | c :: text' =>
      let searchIndex :=
        if decide (search !! searchIndex = Some c) then S searchIndex
        else searchIndex in
      if (searchIndex =? length search)%nat then true
      else fuzzyMatch_from text' search searchIndex
  end.

Definition fuzzyMatch (text search : jsstring) : bool :=
  fuzzyMatch_from text search 0.

Definition searchVideos (videos : list Video.t) (searchTerm : jsstring)
  : list Video.t :=
  let searchLower := toLowerCase searchTerm in
  List.filter
    (fun video =>
       existsb
         (fun field =>
            let fieldValue := toLowerCase (Video.field_text video field) in
            if CONFIG.SEARCH.FUZZY_SEARCH
            then fuzzyMatch fieldValue searchLower
            else includes fieldValue searchLower)
         CONFIG.SEARCH.SEARCH_FIELDS)
    videos.

(** ** The recently-played ledger *)

Definition getRecentlyPlayedData (self : t) (videoId : jsstring)
  : option Played :=
  List.find (fun v => bool_decide (id v = videoId)) (recentlyPlayed self).

Definition addToRecentlyPlayed (self : t) (now : Z) (videoId : jsstring)
  : t :=
  let existingIndex :=
    findIndex (fun v => bool_decide (id v = videoId))
              (recentlyPlayed self) in
  let self :=
    match existingIndex with
    | Some i => set_recentlyPlayed (delete i (recentlyPlayed self)) self
    | None => self
    end in
  let entry :=
    {| id := videoId;
       playedAt := now;
       playCount :=
         match getRecentlyPlayedData self videoId with
         | Some data => playCount data
         | None => 0
         end + 1 |} in
  let self := set_recentlyPlayed (entry :: recentlyPlayed self) self in
  set_recentlyPlayed (take 50 (recentlyPlayed self)) self.

Definition addToSearchHistory (self : t) (searchTerm : jsstring) : t :=
  if negb (truthy searchTerm)
     || (length searchTerm <? CONFIG.SEARCH.MIN_SEARCH_LENGTH)%nat
  then self
  else
    let history :=
      match findIndex (fun term => bool_decide (term = searchTerm))
                      (searchHistory self) with
      | Some i => delete i (searchHistory self)
      | None => searchHistory self
      end in
    set_searchHistory (take 10 (searchTerm :: history)) self.

(** ** Popularity *)

Definition calculatePopularityScore (self : t) (now : Z) (video : Video.t)
  : Q :=
  let playedData := getRecentlyPlayedData self (Video.id video) in
  let playCount :=
    match playedData with Some data => playCount data | None => 0 end in
  let viewCount := Video.viewCount video in
  let analyticsScore :=
    VideoAnalytics.calculatePopularityScore (analytics self) now video in
  (inject_Z viewCount + inject_Z (playCount * 10)
   + analyticsScore * (5 # 10))%Q.

(** The test of [createVideoItemHTML] for the badge of a popular video. *)
Definition popularity_badge (self : t) (now : Z) (video : Video.t) : bool :=
  DuplicatePreventionService.Qgtb (calculatePopularityScore self now video)
                                  10.

(** ** Sorting *)

Definition parseDuration (host : Host) (duration : jsstring) : option Z :=
  if negb (truthy duration) || bool_decide (duration = js "--:--")
  then Some 0
  else
    match split_unit 58 duration with
    | [h; m; s] =>
        h ← parseInt host h; m ← parseInt host m; s ← parseInt host s;
        Some (h * 3600 + m * 60 + s)
    | [m; s] =>
        m ← parseInt host m; s ← parseInt host s; Some (m * 60 + s)
    | _ => Some 0
    end.

Definition by_recently_played (self : t) (a b : Video.t) : Q :=
  let aPlayed :=
    List.find (fun v => bool_decide (id v = Video.id a))
              (recentlyPlayed self) in
  let bPlayed :=
    List.find (fun v => bool_decide (id v = Video.id b))
              (recentlyPlayed self) in
  match aPlayed, bPlayed with
  | None, None => 0%Q
  | None, Some _ => 1%Q
  | Some _, None => (-1)%Q
  | Some aPlayed, Some bPlayed =>
      inject_Z (playedAt bPlayed - playedAt aPlayed)
  end.

Definition sortVideos (host : Host) (now : Z) (self : t)
    (videos : list Video.t) (sortOption : jsstring) : list Video.t :=
  let sorted := videos in
  if decide (sortOption = js "title_asc") then
    js_sort (fun a b =>
               inject_Z (localeCompare host (Video.title a) (Video.title b)))
            sorted
  else if decide (sortOption = js "title_desc") then
    js_sort (fun a b =>
               inject_Z (localeCompare host (Video.title b) (Video.title a)))
            sorted
  else if decide (sortOption = js "date_desc") then
    js_sort (fun a b =>
               minus_or_nan (Date_parse host (Video.createdAt b))
                            (Date_parse host (Video.createdAt a)))
            sorted
  else if decide (sortOption = js "date_asc") then
    js_sort (fun a b =>
               minus_or_nan (Date_parse host (Video.createdAt a))
                            (Date_parse host (Video.createdAt b)))
            sorted
  else if decide (sortOption = js "duration_asc") then
    js_sort (fun a b =>
               minus_or_nan (parseDuration host (Video.duration a))
                            (parseDuration host (Video.duration b)))
            sorted
  else if decide (sortOption = js "duration_desc") then
    js_sort (fun a b =>
               minus_or_nan (parseDuration host (Video.duration b))
                            (parseDuration host (Video.duration a)))
            sorted
  else if decide (sortOption = js "popularity") then
    js_sort (fun a b =>
               let aScore := calculatePopularityScore self now a in
               let bScore := calculatePopularityScore self now b in
               (bScore - aScore)%Q)
            sorted
  else if decide (sortOption = js "recently_played") then
    js_sort (by_recently_played self) sorted
  else if decide (sortOption = js "most_popular") then
    VideoAnalytics.getPopularVideos (analytics self) now sorted
                                    (length sorted)
  else sorted.

(** ** The catalog views *)

Definition applyFiltersAndSearch (host : Host) (now : Z) (self : t) : t :=
  let results := allVideos self in
  let results :=
    if truthy (currentFilters_platform self)
       && negb (bool_decide (currentFilters_platform self = js "all"))
    then List.filter
           (fun video =>
              bool_decide (Video.type video = currentFilters_platform self))
           results
    else results in
  let results :=
    if truthy (currentSearchTerm self)
       && (CONFIG.SEARCH.MIN_SEARCH_LENGTH <=? length (currentSearchTerm self))%nat
    then searchVideos results (currentSearchTerm self)
    else results in
  set_filteredVideos
    (sortVideos host now self results (currentSortOption self)) self.

Definition loadVideoById (self : t) (now : Z) (videoId : jsstring)
  : option Video.t * t :=
  match findIndex (fun v => bool_decide (Video.id v = videoId))
                  (filteredVideos self) with
  | Some videoIndex =>
      let self := set_currentVideoId (Some videoId) self in
      let self := addToRecentlyPlayed self now videoId in
      (filteredVideos self !! videoIndex, self)
  | None => (None, self)
  end.

(** [loadVideos], from the reply of the record store to its end. *)
Definition loadVideos (host : Host) (now : Z) (reply : AirtableService.Reply)
    (self : t) : list Video.t * t :=
  if isLoading self then (allVideos self, self)
  else
    let self := set_isLoading true self in
    let self := showNotification (js "Loading videos...") (js "info") self in
    let '(outcome, service) :=
      AirtableService.getAllVideos (airtable self) (toISOString host now)
                                   reply in
    let self := set_airtable service self in
    match outcome with
    | Returned freshVideos =>
        let self := set_allVideos freshVideos self in
        let self := applyFiltersAndSearch host now self in
        let self :=
          showNotification
            (js "Loaded " ++ decimal (length (allVideos self)) ++ js " videos")
            (js "success") self in
        (allVideos self, set_isLoading false self)
    | Thrown message =>
        let self :=
          showNotification (js "Failed to load videos: " ++ message)
                           (js "error") self in
        ([], set_isLoading false self)
    end.

(** ** Adding an entry *)

(** The object literal [videoData] of [addCustomVideo]. *)
Definition videoData_of (enhancedMetadata : VideoMetadataService.Enhanced)
  : AirtableService.NewVideo :=
  let parsed := VideoMetadataService.parsed enhancedMetadata in
  {| AirtableService.n_id := UniversalVideoParser.videoId parsed;
     AirtableService.n_title := UniversalVideoParser.title parsed;
     AirtableService.n_description := UniversalVideoParser.description parsed;
     AirtableService.n_type := UniversalVideoParser.type parsed;
     AirtableService.n_duration :=
       match VideoMetadataService.duration enhancedMetadata with
       | Some minutes => if minutes =? 0 then inl (js "--:--") else inr minutes
       | None => inl (js "--:--")
       end;
     AirtableService.n_url := head (UniversalVideoParser.embedUrls parsed);
     AirtableService.n_embedUrls := UniversalVideoParser.embedUrls parsed;
     AirtableService.n_thumbnail := UniversalVideoParser.thumbnail parsed;
     AirtableService.n_originalUrl := UniversalVideoParser.originalUrl parsed;
     AirtableService.n_author :=
       default [] (VideoMetadataService.author enhancedMetadata);
     AirtableService.n_viewCount := 0;
     AirtableService.n_uploadDate :=
       VideoMetadataService.str_or
         (VideoMetadataService.uploadDate enhancedMetadata) [] |}.

(** [addCustomVideo(url)], from the click to its end: the entry it
    returns ([None] is [null]) and the manager after the call.  [net]
    answers the availability probe, [endpoints] the metadata service
    and [store] the record store.  For an exception of the host
    ([btoa], [encodeURIComponent]) the notification shows the name that
    the model gives it, where the page shows the host's message.  The
    search index that the call rebuilds is read by nothing. *)
Definition addCustomVideo (host : Host) (window : Window) (net : Network)
    (endpoints : VideoMetadataService.Endpoints)
    (store : AirtableService.Posted -> nat ->
             AirtableService.Fetched (option (list AirtableService.Created)))
    (now : Z) (url : jsstring) (self : t) : option Video.t * t :=
  let failed (message : jsstring) (self : t) : option Video.t * t :=
    (None,
     showNotification (js "Failed to add video: " ++ message) (js "error")
                      self) in
  if negb (truthy url) then
    (None,
     showNotification (js "Please enter a video URL") (js "warning") self)
  else
    match UniversalVideoParser.parseURL window url with
    | Thrown message => failed message self
    | Returned None => failed (js "Unsupported video URL format") self
    | Returned (Some parsed) =>
        let '(duplicate, checker) :=
          DuplicatePreventionService.isDuplicate
            (duplicateChecker self) (of_parsed parsed)
            (DuplicatePreventionService.of_video <$> allVideos self) in
        let self := set_duplicateChecker checker self in
        if duplicate then
          (None,
           showNotification (js "This video already exists in your library")
                            (js "warning") self)
        else
          let '(isAvailable, checker) :=
            VideoAvailabilityChecker.checkVideoAvailability
              (availabilityChecker self) net (as_video parsed) in
          let self := set_availabilityChecker checker self in
          let self :=
            if isAvailable then self
            else showNotification
                   (js "Video may not be available or has been removed")
                   (js "warning") self in
          let '(enhancedMetadata, service) :=
            VideoMetadataService.fetchEnhancedMetadata
              (metadata self) endpoints parsed in
          let self := set_metadata service self in
          let videoData := videoData_of enhancedMetadata in
          let '(outcome, service) :=
            AirtableService.addVideo (airtable self) (toISOString host now)
                                     videoData store in
          let self := set_airtable service self in
          match outcome with
          | Returned createdVideo =>
              let self :=
                set_allVideos (allVideos self ++ [createdVideo]) self in
              let self := applyFiltersAndSearch host now self in
              (Some createdVideo,
               showNotification (js "Video added successfully!")
                                (js "success") self)
          | Thrown message => failed message self
          end
    end.

(** ** What happens to the catalog

    The calls that read or replace the catalog views: the load from the
    record store, the addition of an entry, the handlers of the search
    box, of the sort menu and of the platform filter (each assigns its
    setting and calls [applyFiltersAndSearch]), the selection of an
    entry, and the timer that empties the cache of the record store
    client. *)
Inductive Action :=
  | Ingest (now : Z) (reply : AirtableService.Reply)
  | Add (window : Window) (net : Network)
        (endpoints : VideoMetadataService.Endpoints)
        (store : AirtableService.Posted -> nat ->
                 AirtableService.Fetched
                   (option (list AirtableService.Created)))
        (now : Z) (url : jsstring)
  | Search (now : Z) (query : jsstring)
  | Sort (now : Z) (sortOption : jsstring)
  | Filter (now : Z) (platform : jsstring)
  | Select (now : Z) (videoId : jsstring)
  | CacheExpired.

Definition act (host : Host) (self : t) (action : Action) : t :=
  match action with
  | Ingest now reply => snd (loadVideos host now reply self)
  | Add window net endpoints store now url =>
      snd (addCustomVideo host window net endpoints store now url self)
  | Search now query =>
      let self :=
        set_query query (currentSortOption self)
                  (currentFilters_platform self) self in
      let self := addToSearchHistory self query in
      applyFiltersAndSearch host now self
  | Sort now sortOption =>
      applyFiltersAndSearch host now
        (set_query (currentSearchTerm self) sortOption
                   (currentFilters_platform self) self)
  | Filter now platform =>
      applyFiltersAndSearch host now
        (set_query (currentSearchTerm self) (currentSortOption self)
                   platform self)
  | Select now videoId => snd (loadVideoById self now videoId)
  | CacheExpired =>
      set_airtable (AirtableService.clearCache (airtable self)) self
  end.

(** ** Navigation *)

(** [this.filteredVideos.findIndex(v => v.id === this.currentVideoId)] *)
Definition currentIndex (self : t) : option nat :=
  findIndex (fun v => bool_decide (currentVideoId self = Some (Video.id v)))
            (filteredVideos self).

Definition nextVideo (self : t) (now : Z) : option Video.t * t :=
  if (length (filteredVideos self) =? 0)%nat then (None, self)
  else
    let nextIndex :=
      match currentIndex self with
      | Some i => S i
      | None => 0%nat
      end in
    let nextIndex :=
      if (length (filteredVideos self) <=? nextIndex)%nat then 0%nat
      else nextIndex in
    match filteredVideos self !! nextIndex with
    | Some video => loadVideoById self now (Video.id video)
    | None => (None, self)
    end.

Definition prevVideo (self : t) (now : Z) : option Video.t * t :=
  if (length (filteredVideos self) =? 0)%nat then (None, self)
  else
    let prevIndex :=
      match currentIndex self with
      | Some (S i) => i
      | _ => (length (filteredVideos self) - 1)%nat
      end in
    match filteredVideos self !! prevIndex with
    | Some video => loadVideoById self now (Video.id video)
    | None => (None, self)
    end.

(** ** Housekeeping *)

(** One turn of the loop of [cleanupUnavailableVideos]; the state is the
    array [unavailableVideos] and the availability checker. *)
Definition cleanup_step (net : Network)
    (st : list Video.t * VideoAvailabilityChecker.t) (video : Video.t)
  : list Video.t * VideoAvailabilityChecker.t :=
  let '(unavailableVideos, checker) := st in
  let '(isAvailable, checker) :=
    VideoAvailabilityChecker.checkVideoAvailability checker net video in
  (if isAvailable then unavailableVideos else unavailableVideos ++ [video],
   checker).

Definition cleanupUnavailableVideos (net : Network) (self : t)
  : list Video.t * t :=
  let '(unavailableVideos, checker) :=
    foldl (cleanup_step net) ([], availabilityChecker self)
          (take 20 (allVideos self)) in
  (unavailableVideos, set_availabilityChecker checker self).
End EnhancedVideoManager.

(* ================================================================== *)
(** * EnhancedVideoPlayer: the playback fallback engine *)
(* ================================================================== *)

Module EnhancedVideoPlayer.
(** The inline [style.display] of an element. *)
Inductive Display := unset | none | block | flex.

(** What the closures [onLoad] and [onError] of one [loadVideo] call
    hold: the entry, its candidates, the badge text and the timer. *)
Record Handlers := {
  h_video : Video.t;
  h_embedUrls : list jsstring;
  h_badgeText : jsstring;
  h_loadingTimeout : nat;
}.

Record MediaElement := {
  el_video : Video.t;
  el_src : jsstring;
  el_type : jsstring;
}.

Record t := {
  videoManager : EnhancedVideoManager.t;
  currentEmbedIndex : nat;
  currentVideoData : option Video.t;
  playbackStartTime : option Z;
  fallbackMessage_display : Display;   (* fallbackMessage.style.display *)
  videoPlayer_display : Display;   (* videoPlayer.style.display *)
  videoPlayer_src : list jsstring;   (* every assignment to videoPlayer.src, oldest first *)
  videoPlayer_handlers : option Handlers;   (* videoPlayer.onload and videoPlayer.onerror *)
  timers : list (nat * Video.t);   (* the loading timeouts that are pending *)
  next_timer : nat;
  currentVideoTitle : jsstring;
  currentVideoDescription : jsstring;
  currentPlatformBadge : jsstring * jsstring;   (* className and textContent *)
  videoElement : option MediaElement;   (* the <video> of a direct entry *)
  fallbackOptions : option Video.t;   (* the entry the fallback buttons open *)
}.

(** The constructor. *)
Definition new (videoManager : EnhancedVideoManager.t) : t :=
  {| videoManager := videoManager; currentEmbedIndex := 0;
     currentVideoData := None; playbackStartTime := None;
     fallbackMessage_display := unset; videoPlayer_display := unset;
     videoPlayer_src := []; videoPlayer_handlers := None;
     timers := []; next_timer := 0;
     currentVideoTitle := []; currentVideoDescription := [];
     currentPlatformBadge := ([], []);
     videoElement := None; fallbackOptions := None |}.

(** Assignments to one property. *)
Definition set_videoManager (x : EnhancedVideoManager.t) (p : t) : t :=
  {| videoManager := x;
     currentEmbedIndex := currentEmbedIndex p;
     currentVideoData := currentVideoData p;
     playbackStartTime := playbackStartTime p;
     fallbackMessage_display := fallbackMessage_display p;
     videoPlayer_display := videoPlayer_display p;
     videoPlayer_src := videoPlayer_src p;
     videoPlayer_handlers := videoPlayer_handlers p;
     timers := timers p;
     next_timer := next_timer p;
     currentVideoTitle := currentVideoTitle p;
     currentVideoDescription := currentVideoDescription p;
     currentPlatformBadge := currentPlatformBadge p;
     videoElement := videoElement p;
     fallbackOptions := fallbackOptions p |}.

Definition set_currentEmbedIndex (x : nat) (p : t) : t :=
  {| videoManager := videoManager p;
     currentEmbedIndex := x;
     currentVideoData := currentVideoData p;
     playbackStartTime := playbackStartTime p;
     fallbackMessage_display := fallbackMessage_display p;
     videoPlayer_display := videoPlayer_display p;
     videoPlayer_src := videoPlayer_src p;
     videoPlayer_handlers := videoPlayer_handlers p;
     timers := timers p;
     next_timer := next_timer p;
     currentVideoTitle := currentVideoTitle p;
     currentVideoDescription := currentVideoDescription p;
     currentPlatformBadge := currentPlatformBadge p;
     videoElement := videoElement p;
     fallbackOptions := fallbackOptions p |}.

Definition set_currentVideoData (x : option Video.t) (p : t) : t :=
  {| videoManager := videoManager p;
     currentEmbedIndex := currentEmbedIndex p;
     currentVideoData := x;
     playbackStartTime := playbackStartTime p;
     fallbackMessage_display := fallbackMessage_display p;
     videoPlayer_display := videoPlayer_display p;
     videoPlayer_src := videoPlayer_src p;
     videoPlayer_handlers := videoPlayer_handlers p;
     timers := timers p;
     next_timer := next_timer p;
     currentVideoTitle := currentVideoTitle p;
     currentVideoDescription := currentVideoDescription p;
     currentPlatformBadge := currentPlatformBadge p;
     videoElement := videoElement p;
     fallbackOptions := fallbackOptions p |}.

Definition set_playbackStartTime (x : option Z) (p : t) : t :=
  {| videoManager := videoManager p;
     currentEmbedIndex := currentEmbedIndex p;
     currentVideoData := currentVideoData p;
     playbackStartTime := x;
     fallbackMessage_display := fallbackMessage_display p;
     videoPlayer_display := videoPlayer_display p;
     videoPlayer_src := videoPlayer_src p;
     videoPlayer_handlers := videoPlayer_handlers p;
     timers := timers p;
     next_timer := next_timer p;
     currentVideoTitle := currentVideoTitle p;
     currentVideoDescription := currentVideoDescription p;
     currentPlatformBadge := currentPlatformBadge p;
     videoElement := videoElement p;
     fallbackOptions := fallbackOptions p |}.

Definition set_fallbackMessage_display (x : Display) (p : t) : t :=
  {| videoManager := videoManager p;
     currentEmbedIndex := currentEmbedIndex p;
     currentVideoData := currentVideoData p;
     playbackStartTime := playbackStartTime p;
     fallbackMessage_display := x;
     videoPlayer_display := videoPlayer_display p;
     videoPlayer_src := videoPlayer_src p;
     videoPlayer_handlers := videoPlayer_handlers p;
     timers := timers p;
     next_timer := next_timer p;
     currentVideoTitle := currentVideoTitle p;
     currentVideoDescription := currentVideoDescription p;
     currentPlatformBadge := currentPlatformBadge p;
     videoElement := videoElement p;
     fallbackOptions := fallbackOptions p |}.

Definition set_videoPlayer_display (x : Display) (p : t) : t :=
  {| videoManager := videoManager p;
     currentEmbedIndex := currentEmbedIndex p;
     currentVideoData := currentVideoData p;
     playbackStartTime := playbackStartTime p;
     fallbackMessage_display := fallbackMessage_display p;
     videoPlayer_display := x;
     videoPlayer_src := videoPlayer_src p;
     videoPlayer_handlers := videoPlayer_handlers p;
     timers := timers p;
     next_timer := next_timer p;
     currentVideoTitle := currentVideoTitle p;
     currentVideoDescription := currentVideoDescription p;
     currentPlatformBadge := currentPlatformBadge p;
     videoElement := videoElement p;
     fallbackOptions := fallbackOptions p |}.

Definition set_videoPlayer_src (x : list jsstring) (p : t) : t :=
  {| videoManager := videoManager p;
     currentEmbedIndex := currentEmbedIndex p;
     currentVideoData := currentVideoData p;
     playbackStartTime := playbackStartTime p;
     fallbackMessage_display := fallbackMessage_display p;
     videoPlayer_display := videoPlayer_display p;
     videoPlayer_src := x;
     videoPlayer_handlers := videoPlayer_handlers p;
     timers := timers p;
     next_timer := next_timer p;
     currentVideoTitle := currentVideoTitle p;
     currentVideoDescription := currentVideoDescription p;
     currentPlatformBadge := currentPlatformBadge p;
     videoElement := videoElement p;
     fallbackOptions := fallbackOptions p |}.

Definition set_videoPlayer_handlers (x : option Handlers) (p : t) : t :=
  {| videoManager := videoManager p;
     currentEmbedIndex := currentEmbedIndex p;
     currentVideoData := currentVideoData p;
     playbackStartTime := playbackStartTime p;
     fallbackMessage_display := fallbackMessage_display p;
     videoPlayer_display := videoPlayer_display p;
     videoPlayer_src := videoPlayer_src p;
     videoPlayer_handlers := x;
     timers := timers p;
     next_timer := next_timer p;
     currentVideoTitle := currentVideoTitle p;
     currentVideoDescription := currentVideoDescription p;
     currentPlatformBadge := currentPlatformBadge p;
     videoElement := videoElement p;
     fallbackOptions := fallbackOptions p |}.

Definition set_timers (x : list (nat * Video.t)) (p : t) : t :=
  {| videoManager := videoManager p;
     currentEmbedIndex := currentEmbedIndex p;
     currentVideoData := currentVideoData p;
     playbackStartTime := playbackStartTime p;
     fallbackMessage_display := fallbackMessage_display p;
     videoPlayer_display := videoPlayer_display p;
     videoPlayer_src := videoPlayer_src p;
     videoPlayer_handlers := videoPlayer_handlers p;
     timers := x;
     next_timer := next_timer p;
     currentVideoTitle := currentVideoTitle p;
     currentVideoDescription := currentVideoDescription p;
     currentPlatformBadge := currentPlatformBadge p;
     videoElement := videoElement p;
     fallbackOptions := fallbackOptions p |}.

Definition set_next_timer (x : nat) (p : t) : t :=
  {| videoManager := videoManager p;
     currentEmbedIndex := currentEmbedIndex p;
     currentVideoData := currentVideoData p;
     playbackStartTime := playbackStartTime p;
     fallbackMessage_display := fallbackMessage_display p;
     videoPlayer_display := videoPlayer_display p;
     videoPlayer_src := videoPlayer_src p;
     videoPlayer_handlers := videoPlayer_handlers p;
     timers := timers p;
     next_timer := x;
     currentVideoTitle := currentVideoTitle p;
     currentVideoDescription := currentVideoDescription p;
     currentPlatformBadge := currentPlatformBadge p;
     videoElement := videoElement p;
     fallbackOptions := fallbackOptions p |}.

Definition set_currentVideoTitle (x : jsstring) (p : t) : t :=
  {| videoManager := videoManager p;
     currentEmbedIndex := currentEmbedIndex p;
     currentVideoData := currentVideoData p;
     playbackStartTime := playbackStartTime p;
     fallbackMessage_display := fallbackMessage_display p;
     videoPlayer_display := videoPlayer_display p;
     videoPlayer_src := videoPlayer_src p;
     videoPlayer_handlers := videoPlayer_handlers p;
     timers := timers p;
     next_timer := next_timer p;
     currentVideoTitle := x;
     currentVideoDescription := currentVideoDescription p;
     currentPlatformBadge := currentPlatformBadge p;
     videoElement := videoElement p;
     fallbackOptions := fallbackOptions p |}.

Definition set_currentVideoDescription (x : jsstring) (p : t) : t :=
  {| videoManager := videoManager p;
     currentEmbedIndex := currentEmbedIndex p;
     currentVideoData := currentVideoData p;
     playbackStartTime := playbackStartTime p;
     fallbackMessage_display := fallbackMessage_display p;
     videoPlayer_display := videoPlayer_display p;
     videoPlayer_src := videoPlayer_src p;
     videoPlayer_handlers := videoPlayer_handlers p;
     timers := timers p;
     next_timer := next_timer p;
     currentVideoTitle := currentVideoTitle p;
     currentVideoDescription := x;
     currentPlatformBadge := currentPlatformBadge p;
     videoElement := videoElement p;
     fallbackOptions := fallbackOptions p |}.

Definition set_currentPlatformBadge (x : jsstring * jsstring) (p : t) : t :=
  {| videoManager := videoManager p;
     currentEmbedIndex := currentEmbedIndex p;
     currentVideoData := currentVideoData p;
     playbackStartTime := playbackStartTime p;
     fallbackMessage_display := fallbackMessage_display p;
     videoPlayer_display := videoPlayer_display p;
     videoPlayer_src := videoPlayer_src p;
     videoPlayer_handlers := videoPlayer_handlers p;
     timers := timers p;
     next_timer := next_timer p;
     currentVideoTitle := currentVideoTitle p;
     currentVideoDescription := currentVideoDescription p;
     currentPlatformBadge := x;
     videoElement := videoElement p;
     fallbackOptions := fallbackOptions p |}.

Definition set_videoElement (x : option MediaElement) (p : t) : t :=
  {| videoManager := videoManager p;
     currentEmbedIndex := currentEmbedIndex p;
     currentVideoData := currentVideoData p;
     playbackStartTime := playbackStartTime p;
     fallbackMessage_display := fallbackMessage_display p;
     videoPlayer_display := videoPlayer_display p;
     videoPlayer_src := videoPlayer_src p;
     videoPlayer_handlers := videoPlayer_handlers p;
     timers := timers p;
     next_timer := next_timer p;
     currentVideoTitle := currentVideoTitle p;
     currentVideoDescription := currentVideoDescription p;
     currentPlatformBadge := currentPlatformBadge p;
     videoElement := x;
     fallbackOptions := fallbackOptions p |}.

Definition set_fallbackOptions (x : option Video.t) (p : t) : t :=
  {| videoManager := videoManager p;
     currentEmbedIndex := currentEmbedIndex p;
     currentVideoData := currentVideoData p;
     playbackStartTime := playbackStartTime p;
     fallbackMessage_display := fallbackMessage_display p;
     videoPlayer_display := videoPlayer_display p;
     videoPlayer_src := videoPlayer_src p;
     videoPlayer_handlers := videoPlayer_handlers p;
     timers := timers p;
     next_timer := next_timer p;
     currentVideoTitle := currentVideoTitle p;
     currentVideoDescription := currentVideoDescription p;
     currentPlatformBadge := currentPlatformBadge p;
     videoElement := videoElement p;
     fallbackOptions := x |}.


Definition notify (message kind : string) (p : t) : t :=
  set_videoManager
    (EnhancedVideoManager.showNotification (js message) (js kind)
                                           (videoManager p)) p.

Definition notify_js (message : jsstring) (kind : string) (p : t) : t :=
  set_videoManager
    (EnhancedVideoManager.showNotification message (js kind)
                                           (videoManager p)) p.

(** [this.videoManager.analytics.trackVideoEvent(event, video, ...)] *)
Definition track (now : Z) (event : VideoAnalytics.Event) (video : Video.t)
    (duration : Q) (p : t) : t :=
  set_videoManager
    (EnhancedVideoManager.set_analytics
       (VideoAnalytics.trackVideoEvent
          (EnhancedVideoManager.analytics (videoManager p)) now event video
          duration)
       (videoManager p)) p.

(** [setTimeout] and [clearTimeout] for the loading timeout. *)
Definition setTimeout (video : Video.t) (p : t) : nat * t :=
  (next_timer p,
   set_next_timer (S (next_timer p))
     (set_timers (timers p ++ [(next_timer p, video)]) p)).

Definition clearTimeout (timer : nat) (p : t) : t :=
  set_timers (List.filter (fun e => negb (fst e =? timer)%nat) (timers p)) p.

(** The buttons exist on the page, so the handlers are installed
    whenever an entry is given. *)
Definition setupFallbackOptions (video : option Video.t) (p : t) : t :=
  match video with
  | Some video => set_fallbackOptions (Some video) p
  | None => p
  end.

Definition showFallbackMessage (video : option Video.t) (p : t) : t :=
  let p := set_fallbackMessage_display flex p in
  match video with
  | Some video => setupFallbackOptions (Some video) p
  | None => p
  end.

Definition handleEmbedError (video : Video.t) (embedUrls : list jsstring)
    (p : t) : t :=
  let p := set_currentEmbedIndex (S (currentEmbedIndex p)) p in
  if (currentEmbedIndex p <? length embedUrls)%nat then
    let p :=
      set_videoPlayer_src
        (videoPlayer_src p
         ++ [default (js "undefined") (embedUrls !! currentEmbedIndex p)])
        p in
    notify_js
      (js "Trying alternative embed... ("
       ++ decimal (currentEmbedIndex p + 1) ++ js "/"
       ++ decimal (length embedUrls) ++ js ")")
      "info" p
  else
    let p := showFallbackMessage (Some video) p in
    notify "Could not load video with any available method" "error" p.

(** [getVideoMimeType(url)].  The lookup [mimeTypes[extension]] also
    finds the properties that the object literal inherits
    ([constructor], [toString] and the like), which are no strings: the
    definition follows the code on every other extension. *)
Definition getVideoMimeType (url : jsstring) : jsstring :=
  let extension := toLowerCase (default [] (last (split_unit 46 url))) in
  if decide (extension = js "mp4") then js "video/mp4"
  else if decide (extension = js "webm") then js "video/webm"
  else if decide (extension = js "ogg") then js "video/ogg"
  else if decide (extension = js "mov") then js "video/quicktime"
  else if decide (extension = js "mkv") then js "video/x-matroska"
  else if decide (extension = js "flv") then js "video/x-flv"
  else if decide (extension = js "avi") then js "video/x-msvideo"
  else js "video/mp4".

(** [url] is [embedUrls[0]]; without it [getVideoMimeType] throws, the
    promise of [loadVideo] is rejected and the manager's handler of
    unhandled rejections reports it. *)
Definition loadDirectVideo (video : Video.t) (url : option jsstring) (p : t)
  : t :=
  let p := set_videoElement None p in
  let p := set_videoPlayer_display none p in
  match url with
  | None => notify "An operation failed" "warning" p
  | Some url =>
      let p :=
        set_videoElement
          (Some {| el_video := video; el_src := url;
                   el_type := getVideoMimeType url |}) p in
      let p := set_currentVideoTitle (Video.title video) p in
      let p := set_currentVideoDescription (Video.description video) p in
      let p :=
        set_currentPlatformBadge
          (js "platform-badge badge-direct", js "Direct Video") p in
      notify "Loaded direct video file" "success" p
  end.

(** [platformConfig[video.type] || { class: "badge-other", text: ... }] *)
Definition platformConfig (type : jsstring) : jsstring * jsstring :=
  let known :=
    [ ("youtube", ("badge-youtube", "YouTube"));
      ("youtube_playlist", ("badge-youtube", "YouTube Playlist"));
      ("drive", ("badge-drive", "Google Drive"));
      ("vimeo", ("badge-vimeo", "Vimeo"));
      ("dailymotion", ("badge-dailymotion", "Dailymotion"));
      ("facebook", ("badge-facebook", "Facebook"));
      ("instagram", ("badge-instagram", "Instagram"));
      ("tiktok", ("badge-tiktok", "TikTok"));
      ("twitter", ("badge-twitter", "Twitter/X"));
      ("twitch", ("badge-twitch", "Twitch"));
      ("streamable", ("badge-streamable", "Streamable"));
      ("dropbox", ("badge-dropbox", "Dropbox"));
      ("photos", ("badge-photos", "Google Photos"));
      ("direct", ("badge-direct", "Direct Video")) ]%string in
  match List.find (fun e => bool_decide (js (fst e) = type)) known with
  | Some (_, (class, text)) => (js class, js text)
  | None =>
      (js "badge-other", toUpperCase (take 1 type) ++ drop 1 type)
  end.

(** The candidates of an entry:
    [video.embedUrls || [video.url || ""]]. *)
Definition candidates (video : Video.t) : list jsstring :=
  match Video.embedUrls video with
  | Some embedUrls => embedUrls
  | None => [default [] (Video.url video)]
  end.

(** [loadVideo], from its first statement to the loading state. *)
Definition loadVideo_reset (now : Z) (video : Video.t) (p : t) : t :=
  let p := track now VideoAnalytics.load video 0%Q p in
  let p :=
    set_videoManager
      (snd (EnhancedVideoManager.loadVideoById (videoManager p) now
              (Video.id video))) p in
  let p := set_fallbackMessage_display none p in
  let p := set_currentEmbedIndex 0 p in
  let p := set_currentVideoData (Some video) p in
  let p := set_playbackStartTime (Some now) p in
  let p := set_currentVideoTitle (js "Loading...") p in
  set_currentVideoDescription (js "Fetching video information...") p.

(** [loadVideo], from the loading timeout to its end: the first
    candidate is handed to the viewer. *)
Definition loadVideo_attempt (video : Video.t) (embedUrls : list jsstring)
    (badgeClass badgeText : jsstring) (p : t) : t :=
  let '(loadingTimeout, p) := setTimeout video p in
  let p :=
    set_videoPlayer_handlers
      (Some {| h_video := video; h_embedUrls := embedUrls;
               h_badgeText := badgeText;
               h_loadingTimeout := loadingTimeout |}) p in
  let p :=
    set_videoPlayer_src
      (videoPlayer_src p
       ++ [default (js "undefined") (embedUrls !! 0%nat)]) p in
  let p := set_videoPlayer_display block p in
  let p := set_currentVideoTitle (Video.title video) p in
  let p := set_currentVideoDescription (Video.description video) p in
  let p :=
    set_currentPlatformBadge
      (js "platform-badge " ++ badgeClass, badgeText) p in
  setupFallbackOptions (Some video) p.

(** [loadVideo(video)], with the answer of the availability probe taken
    at the [await]. *)
Definition loadVideo (net : Network) (now : Z) (video : option Video.t)
    (p : t) : t :=
  match video with
  | None => p
  | Some video =>
      let p := loadVideo_reset now video p in
      let embedUrls := candidates video in
      let '(badgeClass, badgeText) := platformConfig (Video.type video) in
      if decide (Video.type video = js "direct") then
        loadDirectVideo video (embedUrls !! 0%nat) p
      else
        let '(isAvailable, checker) :=
          VideoAvailabilityChecker.checkVideoAvailability
            (EnhancedVideoManager.availabilityChecker (videoManager p))
            net video in
        let p :=
          set_videoManager
            (EnhancedVideoManager.set_availabilityChecker checker
                                                          (videoManager p))
            p in
        if negb isAvailable then
          let p := showFallbackMessage (Some video) p in
          notify "Video may not be available" "warning" p
        else
          loadVideo_attempt video embedUrls badgeClass badgeText p
  end.

(** ** What the page and the viewer report back *)

Inductive Signal :=
  | FrameLoad                 (* videoPlayer.onload *)
  | FrameError                (* videoPlayer.onerror *)
  | TimeoutElapsed (timer : nat)  (* ten seconds after setTimeout *)
  | MediaPlay | MediaEnded | MediaError | MediaSeeked.

(** The closure [onLoad]. *)
Definition onLoad (now : Z) (h : Handlers) (p : t) : t :=
  let p := clearTimeout (h_loadingTimeout h) p in
  let p := set_videoPlayer_display block p in
  let p :=
    notify_js (js "Loaded " ++ h_badgeText h ++ js " video") "success" p in
  track now VideoAnalytics.play (h_video h) 0%Q p.

(** The closure [onError]. *)
Definition onError (now : Z) (h : Handlers) (p : t) : t :=
  let p := clearTimeout (h_loadingTimeout h) p in
  let p := track now VideoAnalytics.error (h_video h) 0%Q p in
  handleEmbedError (h_video h) (h_embedUrls h) p.

Definition handle (now : Z) (p : t) (signal : Signal) : t :=
  match signal with
  | FrameLoad =>
      match videoPlayer_handlers p with
      | Some h => onLoad now h p
      | None => p
      end
  | FrameError =>
      match videoPlayer_handlers p with
      | Some h => onError now h p
      | None => p
      end
  | TimeoutElapsed timer =>
      match List.find (fun e => (fst e =? timer)%nat) (timers p) with
      | Some (_, video) =>
          showFallbackMessage (Some video) (clearTimeout timer p)
      | None => p
      end
  | MediaPlay =>
      match videoElement p with
      | Some el => track now VideoAnalytics.play (el_video el) 0%Q p
      | None => p
      end
  | MediaEnded =>
      match videoElement p with
      | Some el =>
          let duration :=
            (inject_Z (now - default 0%Z (playbackStartTime p))
             / inject_Z 1000)%Q in
          track now VideoAnalytics.complete (el_video el) duration p
      | None => p
      end
  | MediaError =>
      match videoElement p with
      | Some el => track now VideoAnalytics.error (el_video el) 0%Q p
      | None => p
      end
  | MediaSeeked =>
      match videoElement p with
      | Some el => track now VideoAnalytics.seek (el_video el) 0%Q p
      | None => p
      end
  end.

(** A run of signals, each at its instant. *)
Definition run (p : t) (signals : list (Z * Signal)) : t :=
  foldl (fun p s => handle (fst s) p (snd s)) p signals.

(** ** A session with its viewer

    The viewer answers each candidate it is handed, and nothing else: for
    the candidate at the index [i], [viewer i] is the instant and the
    signal of its answer.  [converse] lets the engine and the viewer take
    turns for as long as the engine hands over a candidate; [handed] is
    the number of candidates handed over before the last turn. *)
Fixpoint converse (fuel : nat) (viewer : nat -> Z * Signal) (handed : nat)
    (p : t) : t :=
  match fuel with
  | O => p
  | S fuel' =>
      if (handed <? length (videoPlayer_src p))%nat then
        let '(now, signal) := viewer (currentEmbedIndex p) in
        converse fuel' viewer (length (videoPlayer_src p))
                 (handle now p signal)
      else p
  end.

(** [loadVideo], then the answers of the viewer. *)
Definition session (fuel : nat) (net : Network) (now : Z)
    (viewer : nat -> Z * Signal) (video : Video.t) (p : t) : t :=
  converse fuel viewer (length (videoPlayer_src p))
           (loadVideo net now (Some video) p).

(** ** The state of the session, as the page shows it *)

Inductive SessionState := Attempting | Loaded | Failed.

(** [Failed]: the fallback message is shown.  [Loaded]: it is hidden and
    the last thing the engine reported is the success of a load.
    [Attempting] otherwise. *)
Definition sessionState (p : t) : SessionState :=
  match fallbackMessage_display p with
  | flex => Failed
  | _ =>
      match last (EnhancedVideoManager.notifications (videoManager p)) with
      | Some n =>
          if bool_decide (EnhancedVideoManager.kind n = js "success")
             && startsWith (EnhancedVideoManager.message n) (js "Loaded ")
          then Loaded else Attempting
      | None => Attempting
      end
  end.
End EnhancedVideoPlayer.

(* ================================================================== *)
(** * SearchService *)
(* ================================================================== *)

Module SearchService.
(** An entry of the suggestion list. *)
Inductive Suggestion :=
  | TitleSuggestion (text : jsstring) (video : Video.t)
  | PlatformSuggestion (text : jsstring) (platform : jsstring).

(** The service, as far as [getSuggestions] reads and writes it. *)
Record t := {
  suggestionCache : gmap jsstring (list Suggestion);
}.

Definition new : t := {| suggestionCache := ∅ |}.

Definition platforms : list jsstring :=
  js <$> ["youtube"; "drive"; "vimeo"; "dailymotion"; "facebook";
          "instagram"; "tiktok"; "twitter"; "twitch"; "streamable";
          "dropbox"; "photos"]%string.

(** The suggestions of [getSuggestions] before the cut. *)
Definition suggestions (queryLower : jsstring) (videos : list Video.t)
  : list Suggestion :=
  ((fun video => TitleSuggestion (Video.title video) video)
     <$> List.filter
           (fun video => includes (toLowerCase (Video.title video)) queryLower)
           videos)
  ++ ((fun platform =>
         PlatformSuggestion
           (toUpperCase (take 1 platform) ++ drop 1 platform ++ js " Videos")
           platform)
        <$> List.filter (fun platform => includes platform queryLower)
                        platforms).

Definition getSuggestions (self : t) (query : jsstring)
    (videos : list Video.t) (maxResults : nat) : list Suggestion * t :=
  if (length query <? CONFIG.SEARCH.MIN_SEARCH_LENGTH)%nat then ([], self)
  else
    let cacheKey := js "suggestions-" ++ query in
    match suggestionCache self !! cacheKey with
    | Some cached => (cached, self)
    | None =>
        let limitedSuggestions :=
          take maxResults (suggestions (toLowerCase query) videos) in
        (limitedSuggestions,
         {| suggestionCache :=
              <[cacheKey := limitedSuggestions]> (suggestionCache self) |})
    end.

Definition clearSuggestionCache (self : t) : t :=
  {| suggestionCache := ∅ |}.
End SearchService.

(* ================================================================== *)
(** * The properties under study *)
(* ================================================================== *)

(** Loose match: the units of the lowercased term occur in the lowercased
    field value in order, not necessarily next to each other. *)
Definition loose_match (term fieldValue : jsstring) : Prop :=
  toLowerCase term `sublist_of` toLowerCase fieldValue.

Definition entry_matches (term : jsstring) (video : Video.t) : Prop :=
  exists field, field ∈ CONFIG.SEARCH.SEARCH_FIELDS /\
                loose_match term (Video.field_text video field).

(** An entry that is not inactive. *)
Definition active (video : Video.t) : Prop :=
  Video.status video <> Some (js "inactive").

(** The lowercased triple the duplicate guard hashes. *)
Definition same_triple (a b : DuplicatePreventionService.VideoData) : Prop :=
  toLowerCase (DuplicatePreventionService.videoId a)
  = toLowerCase (DuplicatePreventionService.videoId b) /\
  toLowerCase (DuplicatePreventionService.type a)
  = toLowerCase (DuplicatePreventionService.type b) /\
  toLowerCase (DuplicatePreventionService.title a)
  = toLowerCase (DuplicatePreventionService.title b).

(** The edit distance of two strings, by recursion on their first units:
    the number of insertions, deletions and substitutions of one unit
    that turn one into the other. *)
Fixpoint lev (a : jsstring) : jsstring -> nat :=
  match a with
  | [] => fun b => length b
  | x :: a' =>
      fix lev_a (b : jsstring) : nat :=
        match b with
        | [] => S (length a')
        | y :: b' =>
            if decide (x = y) then lev a' b'
            else S (Nat.min (Nat.min (lev a' b') (lev_a b')) (lev a' b))
        end
  end.

(** The table that [editDistance] fills, row after row: the distance
    between the first [i] units of [s1] and the first [j] units of [s2]. *)
Definition cell (s1 s2 : jsstring) (i j : nat) : nat :=
  lev (reverse (take i s1)) (reverse (take j s2)).

(** The array holds the row [i] of the table. *)
Definition row (s1 s2 : jsstring) (i : nat) (costs : list nat) : Prop :=
  length costs = S (length s2) /\
  forall j, (j <= length s2)%nat -> costs !!! j = cell s1 s2 i j.

(** The state of the inner loop of the row [S i] once the column [m] is
    done: the array holds the new row before [m] and the old one from [m]
    on, and [lastValue] is the new cell of the column [m]. *)
Definition mid_row (s1 s2 : jsstring) (i m : nat) (st : list nat * nat)
  : Prop :=
  length (fst st) = S (length s2) /\
  snd st = cell s1 s2 (S i) m /\
  forall j, (j <= length s2)%nat ->
            fst st !!! j
            = if (j <? m)%nat then cell s1 s2 (S i) j else cell s1 s2 i j.

(** The play count the ledger holds for an entry: that of its record, 0
    when it has none. *)
Definition recentPlayCount (ledger : list EnhancedVideoManager.Played)
    (videoId : jsstring) (n : Z) : Prop :=
  (exists r, r ∈ ledger /\ EnhancedVideoManager.id r = videoId /\
             EnhancedVideoManager.playCount r = n) \/
  ((forall r, r ∈ ledger -> EnhancedVideoManager.id r <> videoId) /\ n = 0).

(** The answer of the availability probe that [loadVideo] awaits. *)
Definition probe (net : Network) (video : Video.t) (p : EnhancedVideoPlayer.t)
  : bool :=
  fst (VideoAvailabilityChecker.checkVideoAvailability
         (EnhancedVideoManager.availabilityChecker
            (EnhancedVideoPlayer.videoManager p))
         net video).

(** Explicit error signals of the viewer, at the given instants. *)
Definition errors (times : list Z) : list (Z * EnhancedVideoPlayer.Signal) :=
  (fun t => (t, EnhancedVideoPlayer.FrameError)) <$> times.

(** The engine is attempting the candidate [k] of the closure [h], after
    the assignments [old] of earlier sessions. *)
Record attempting (h : EnhancedVideoPlayer.Handlers) (old : list jsstring)
    (k : nat) (p : EnhancedVideoPlayer.t) : Prop := {
  att_handlers : EnhancedVideoPlayer.videoPlayer_handlers p = Some h;
  att_index : EnhancedVideoPlayer.currentEmbedIndex p = k;
  att_src :
    EnhancedVideoPlayer.videoPlayer_src p
    = old ++ take (S k) (EnhancedVideoPlayer.h_embedUrls h);
  att_shown :
    EnhancedVideoPlayer.fallbackMessage_display p = EnhancedVideoPlayer.none;
}.

(** Successive plays, each at its instant. *)
Definition plays (m : EnhancedVideoManager.t) (l : list (Z * jsstring))
  : EnhancedVideoManager.t :=
  foldl (fun m e => EnhancedVideoManager.addToRecentlyPlayed m (fst e) (snd e))
        m l.

(** Successive calls of [isDuplicate] on one service. *)
Definition checks (self : DuplicatePreventionService.t)
    (calls : list (DuplicatePreventionService.VideoData
                   * list DuplicatePreventionService.VideoData))
  : DuplicatePreventionService.t :=
  foldl (fun self call =>
           snd (DuplicatePreventionService.isDuplicate self (fst call)
                                                       (snd call)))
        self calls.

(** The invariant of the catalog: neither view holds an inactive entry,
    and neither does the list the record store client has cached. *)
Definition catalog_ok (self : EnhancedVideoManager.t) : Prop :=
  Forall active (EnhancedVideoManager.allVideos self) /\
  Forall active (EnhancedVideoManager.filteredVideos self) /\
  forall videos,
    AirtableService.cache (EnhancedVideoManager.airtable self) = Some videos ->
    Forall active videos.

(** A URL whose units are all below 256. *)
Definition latin1 (s : jsstring) : Prop := Forall (fun c => (c <= 255)%N) s.

(** A string of ASCII units.  On such a string [toLowerCase] changes the
    letters [A] to [Z] and nothing else, in every engine. *)
Definition ascii_only (s : jsstring) : Prop :=
  Forall (fun c => (c < 128)%N) s.

(** An outcome of [fetch] that [handleRequest] answers with another
    attempt, as long as it has retries left: anything but a parsed body
    and an [AbortError]. *)
Definition retried {A} (f : AirtableService.Fetched A) : Prop :=
  match f with
  | AirtableService.Answered status _ json =>
      if AirtableService.ok status then
        match json with
        | inl error => AirtableService.e_name error <> js "AbortError"
        | inr _ => False
        end
      else True
  | AirtableService.NotAnswered error =>
      AirtableService.e_name error <> js "AbortError"
  end.

(** The exception that an outcome of [fetch] other than a parsed body
    stands for. *)
Definition failure {A} (f : AirtableService.Fetched A)
  : AirtableService.Error :=
  match f with
  | AirtableService.Answered status statusText json =>
      if AirtableService.ok status then
        match json with
        | inl error => error
        | inr _ => AirtableService.http_error status statusText
        end
      else AirtableService.http_error status statusText
  | AirtableService.NotAnswered error => error
  end.

(** The time a request spent waiting between its attempts. *)
Definition total_delay (delays : list Z) : Z := foldr Z.add 0 delays.

(** Successive clicks on the button of the next entry, each at its
    instant. *)
Definition nexts (self : EnhancedVideoManager.t) (times : list Z)
  : EnhancedVideoManager.t :=
  foldl (fun self now => snd (EnhancedVideoManager.nextVideo self now))
        self times.

(** An event that the player reports to the analytics, with its instant
    and the duration it carries. *)
Record Tracked := {
  t_now : Z;
  t_event : VideoAnalytics.Event;
  t_video : Video.t;
  t_duration : Q;
}.

Global Instance Event_eq_dec : EqDecision VideoAnalytics.Event.
Proof. solve_decision. Defined.

(** Successive calls of [trackVideoEvent]. *)
Definition tracks (self : VideoAnalytics.t) (events : list Tracked)
  : VideoAnalytics.t :=
  foldl (fun self e =>
           VideoAnalytics.trackVideoEvent self (t_now e) (t_event e)
                                          (t_video e) (t_duration e))
        self events.

(** The number of events of one kind that concern one entry. *)
Definition occurrences (event : VideoAnalytics.Event) (videoId : jsstring)
    (events : list Tracked) : Z :=
  Z.of_nat
    (length
       (List.filter
          (fun e => bool_decide (t_event e = event)
                    && bool_decide (Video.id (t_video e) = videoId))
          events)).

(** Successive searches. *)
Definition searches (self : EnhancedVideoManager.t) (terms : list jsstring)
  : EnhancedVideoManager.t :=
  foldl EnhancedVideoManager.addToSearchHistory self terms.

(** A list without the later occurrences of its elements. *)
Definition other_than (x : jsstring) (y : jsstring) : bool :=
  negb (bool_decide (y = x)).

Fixpoint distinct (l : list jsstring) : list jsstring :=
  match l with
  | [] => []
  | x :: l' => x :: List.filter (other_than x) (distinct l')
  end.

(** A suggestion that answers a query over a list of entries: the title
    of one of the entries that contains the lowercased query once
    lowercased, or one of the platforms whose name contains it. *)
Definition answers (query : jsstring) (videos : list Video.t)
    (s : SearchService.Suggestion) : Prop :=
  match s with
  | SearchService.TitleSuggestion text video =>
      video ∈ videos /\ text = Video.title video /\
      includes (toLowerCase (Video.title video)) (toLowerCase query) = true
  | SearchService.PlatformSuggestion text platform =>
      platform ∈ SearchService.platforms /\
      includes platform (toLowerCase query) = true
  end.

Definition is_title (s : SearchService.Suggestion) : bool :=
  match s with
  | SearchService.TitleSuggestion _ _ => true
  | SearchService.PlatformSuggestion _ _ => false
  end.

(** The debounced function has at most one timer pending, the one its
    variable [timeout] holds. *)
Definition one_timer {A} (d : PerformanceUtils.Debounced A) : Prop :=
  match PerformanceUtils.timeout d with
  | Some timer => exists args, PerformanceUtils.pending d = [(timer, args)]
  | None => PerformanceUtils.pending d = []
  end.

(** Where a run of the units of a class stops: at the end of the string,
    or before a unit that is not of the class. *)
Definition stops (class : N -> bool) (s : jsstring) : Prop :=
  match s with
  | [] => True
  | c :: _ => class c = false
  end.

(** The forms of the URL of a YouTube video, up to the id. *)
Definition youtube_prefixes : list jsstring :=
  js <$> ["https://www.youtube.com/watch?v="; "https://youtu.be/";
          "https://www.youtube.com/embed/"; "https://www.youtube.com/v/";
          "https://www.youtube.com/shorts/";
          "https://music.youtube.com/watch?v=";
          "https://m.youtube.com/watch?v="; "http://youtu.be/";
          "youtu.be/"]%string.

(** The first pattern of [parseYouTube]. *)
Definition watch_pattern : RegExp.t :=
  RegExp.Seq
    (RegExp.alts (RegExp.lit "youtube.com/watch?v=")
                 [RegExp.lit "youtu.be/"; RegExp.lit "youtube.com/embed/";
                  RegExp.lit "youtube.com/v/";
                  RegExp.lit "youtube.com/shorts/"])
    (RegExp.Group (RegExp.Plus (RegExp.none_of "&?/#"))).

(** The title that the parsers give to the URLs of a platform; the two
    titles of Twitch stand apart. *)
Definition platform_titles : list (jsstring * jsstring) :=
  (fun e => (js (fst e), js (snd e))) <$>
  [("youtube", "YouTube Video"); ("youtube_playlist", "YouTube Playlist");
   ("drive", "Google Drive Video"); ("vimeo", "Vimeo Video");
   ("dailymotion", "Dailymotion Video"); ("facebook", "Facebook Video");
   ("instagram", "Instagram Video"); ("tiktok", "TikTok Video");
   ("twitter", "Twitter/X Video"); ("streamable", "Streamable Video");
   ("dropbox", "Dropbox Video"); ("photos", "Google Photos");
   ("direct", "Direct Video"); ("other", "Custom Video")]%string.

Definition platform_title (type : jsstring) : jsstring :=
  match List.find (fun e => bool_decide (fst e = type)) platform_titles with
  | Some e => snd e
  | None => []
  end.

(** The events of a session in which the viewer refuses the candidates at
    the instants [times]: one load, then one error for each. *)
Definition refusals (now : Z) (video : Video.t) (times : list Z)
  : list Tracked :=
  {| t_now := now; t_event := VideoAnalytics.load; t_video := video;
     t_duration := 0%Q |}
  :: ((fun time =>
         {| t_now := time; t_event := VideoAnalytics.error;
            t_video := video; t_duration := 0%Q |}) <$> times).

(** A record store that answers no creation with an inactive record. *)
Definition creates_active
    (store : AirtableService.Posted -> nat ->
             AirtableService.Fetched (option (list AirtableService.Created)))
  : Prop :=
  forall record k status statusText records created,
    store record k
    = AirtableService.Answered status statusText (inr (Some records)) ->
    created ∈ records ->
    AirtableService.c_status created <> Some (js "inactive").

(** An action that brings no inactive record of a creation. *)
Definition well_created (action : EnhancedVideoManager.Action) : Prop :=
  match action with
  | EnhancedVideoManager.Add _ _ _ store _ _ => creates_active store
  | _ => True
  end.

(** ** Sample data *)

Module Sample.
Definition video (id type : string) (urls : list string) : Video.t :=
  {| Video.id := js id; Video.videoId := js id;
     Video.title := js "Lecture one"; Video.description := js "";
     Video.type := js type; Video.duration := js "--:--";
     Video.url := Some (js "https://cdn.example/v");
     Video.embedUrls := Some (js <$> urls);
     Video.thumbnail := None; Video.createdAt := js "2024-01-01";
     Video.status := Some (js "active"); Video.viewCount := 0;
     Video.tags := []; Video.category := js "general";
     Video.author := js ""; Video.originalUrl := None |}.

Definition entry : Video.t := video "rec1" "youtube" ["u0"; "u1"; "u2"].

(** A network that answers every request, and one that answers none. *)
Definition online : Network := fun _ => Response 200.
Definition offline : Network := fun _ => Rejected.

Definition host : Host :=
  {| Date_parse := fun _ => None; localeCompare := fun _ _ => 0;
     parseInt := fun _ => None; toISOString := fun _ => js "2024-01-01" |}.

Definition window : Window :=
  {| origin := js "https://hub.example"; hostname := js "hub.example" |}.

(** A manager whose catalog holds [entry], and its player. *)
Definition manager : EnhancedVideoManager.t :=
  EnhancedVideoManager.set_filteredVideos [entry]
    (EnhancedVideoManager.set_allVideos [entry]
       (EnhancedVideoManager.new 0)).

Definition player : EnhancedVideoPlayer.t :=
  EnhancedVideoPlayer.new manager.

Definition data (videoId type title : string)
  : DuplicatePreventionService.VideoData :=
  {| DuplicatePreventionService.videoId := js videoId;
     DuplicatePreventionService.type := js type;
     DuplicatePreventionService.title := js title;
     DuplicatePreventionService.originalUrl := None |}.
End Sample.

(** ** Further sample data *)

Module Fixture.
Definition record (id title type status : string) : AirtableService.Record_ :=
  {| AirtableService.r_id := js id;
     AirtableService.r_fields :=
       {| AirtableService.f_videoId := None;
          AirtableService.f_title := Some (js title);
          AirtableService.f_description := None;
          AirtableService.f_type := Some (js type);
          AirtableService.f_duration := None;
          AirtableService.f_url := Some (js "https://cdn.example/v");
          AirtableService.f_embedUrls := None;
          AirtableService.f_thumbnail := None;
          AirtableService.f_createdAt := None;
          AirtableService.f_status := Some (js status);
          AirtableService.f_viewCount := None;
          AirtableService.f_tags := None;
          AirtableService.f_category := None;
          AirtableService.f_author := None |} |}.

Definition records : list AirtableService.Record_ :=
  [record "rec1" "Lecture one" "youtube" "active";
   record "rec2" "Lecture two" "vimeo" "inactive"].

(** A server that answers 503, then 429, then the records. *)
Definition flaky (k : nat)
  : AirtableService.Fetched (option (list AirtableService.Record_)) :=
  match k with
  | 0%nat =>
      AirtableService.Answered 503 (js "Service Unavailable") (inr None)
  | 1%nat =>
      AirtableService.Answered 429 (js "Too Many Requests") (inr None)
  | _ => AirtableService.Answered 200 (js "OK") (inr (Some records))
  end.

(** A server that answers 404 to every request. *)
Definition missing (k : nat)
  : AirtableService.Fetched (option (list AirtableService.Record_)) :=
  AirtableService.Answered 404 (js "Not Found") (inr None).

(** A URL that no parser of a platform takes. *)
Definition clip : jsstring := js "https://example.com/clip".

(** A record store that creates what it is sent and answers with the
    created record, its [status] being the one given. *)
Definition stored (status : string) (record : AirtableService.Posted)
  : AirtableService.Created :=
  {| AirtableService.c_id := js "rec9";
     AirtableService.c_videoId := AirtableService.p_videoId record;
     AirtableService.c_title := AirtableService.p_title record;
     AirtableService.c_description := AirtableService.p_description record;
     AirtableService.c_type := AirtableService.p_type record;
     AirtableService.c_duration := js "--:--";
     AirtableService.c_url := default [] (AirtableService.p_url record);
     AirtableService.c_embedUrls := None;
     AirtableService.c_thumbnail := Some (AirtableService.p_thumbnail record);
     AirtableService.c_createdAt := AirtableService.p_createdAt record;
     AirtableService.c_status := Some (js status);
     AirtableService.c_viewCount := Some (AirtableService.p_viewCount record);
     AirtableService.c_tags := None;
     AirtableService.c_category := Some (AirtableService.p_category record);
     AirtableService.c_author := None |}.

Definition store (status : string) (record : AirtableService.Posted)
    (k : nat)
  : AirtableService.Fetched (option (list AirtableService.Created)) :=
  AirtableService.Answered 200 (js "OK") (inr (Some [stored status record])).

(** Metadata endpoints that answer nothing. *)
Definition silent : VideoMetadataService.Endpoints := fun _ => None.
End Fixture.

(* ================================================================== *)
(** * Search *)
(* ================================================================== *)

Lemma sublist_head_same {A} (x : A) (l k : list A) :
  (x :: l) `sublist_of` (x :: k) <-> l `sublist_of` k.
Proof.
  split.
  - intros H. apply sublist_cons_r in H as [H | (l' & Heq & H)].
    + etrans; [|exact H]. by apply sublist_cons.
    + by simplify_eq.
  - apply sublist_skip.
Qed.

Lemma sublist_head_other {A} (x c : A) (l k : list A) :
  x <> c -> (x :: l) `sublist_of` (c :: k) <-> (x :: l) `sublist_of` k.
Proof.
  intros Hne. split.
  - intros H. apply sublist_cons_r in H as [H | (l' & Heq & H)]; [done|].
    by simplify_eq.
  - apply sublist_cons.
Qed.

(** The loop of [fuzzyMatch], entered with [searchIndex = k], succeeds
    exactly when what is left of the term is scattered over the text. *)
Lemma fuzzyMatch_from_sublist (text search : jsstring) (k : nat) :
  (k < length search)%nat ->
  EnhancedVideoManager.fuzzyMatch_from text search k = true <->
  drop k search `sublist_of` text.
Proof.
  revert k. induction text as [|c text IH]; intros k Hk.
  - simpl. split; [done|]. intros H%sublist_nil_r.
    apply (f_equal length) in H. rewrite length_drop in H. simpl in H. lia.
  - destruct (lookup_lt_is_Some_2 search k Hk) as [x Hx].
    rewrite (drop_S _ _ _ Hx). simpl. rewrite Hx.
    destruct (decide (Some x = Some c)) as [Heq|Hne].
    + simplify_eq. rewrite sublist_head_same.
      destruct (Nat.eqb_spec (S k) (length search)) as [Hlen|Hlen].
      * split; [|done]. intros _. rewrite drop_ge by lia.
        apply sublist_nil_l.
      * apply IH. lia.
    + assert (x <> c) by congruence.
      rewrite sublist_head_other by done.
      destruct (Nat.eqb_spec k (length search)) as [Hlen|Hlen]; [lia|].
      rewrite <- (drop_S _ _ _ Hx). by apply IH.
Qed.

Lemma fuzzyMatch_sublist (text search : jsstring) :
  search <> [] ->
  EnhancedVideoManager.fuzzyMatch text search = true <->
  search `sublist_of` text.
Proof.
  intros Hne. unfold EnhancedVideoManager.fuzzyMatch.
  rewrite fuzzyMatch_from_sublist; [done|].
  destruct search; [done|simpl; lia].
Qed.



(** The subsequence test lets a term through that no field contains as a
    substring. *)
Example searchVideos_scattered_term :
  EnhancedVideoManager.searchVideos [Sample.entry] (js "LCR") = [Sample.entry]
  /\ includes (toLowerCase (Video.title Sample.entry)) (js "lcr") = false.
Proof. split; reflexivity. Qed.

(* ================================================================== *)
(** * The recently-played ledger *)
(* ================================================================== *)

Section Ledger.
Import EnhancedVideoManager.



Lemma findIndex_None {A} (p : A -> bool) (l : list A) :
  findIndex p l = None -> List.find p l = None.
Proof.
  induction l as [|x l IH]; simpl; [done|].
  destruct (p x); [done|]. destruct (findIndex p l); [done|]. auto.
Qed.

(** Once the first record of an entry is spliced out of a ledger that holds
    at most one record per entry, no record of the entry is left. *)
Lemma find_after_splice (videoId : jsstring) (ledger : list Played) (i : nat) :
  NoDup (id <$> ledger) ->
  findIndex (fun v => bool_decide (id v = videoId)) ledger = Some i ->
  List.find (fun v => bool_decide (id v = videoId)) (delete i ledger) = None.
Proof.
  revert i. induction ledger as [|r ledger IH]; intros i Hnd Hfind; [done|].
  simpl in Hfind. apply NoDup_cons in Hnd as [Hnotin Hnd].
  destruct (bool_decide (id r = videoId)) eqn:Hr.
  - simplify_eq. simpl. apply bool_decide_eq_true in Hr.
    destruct (List.find _ ledger) as [r'|] eqn:Hf; [|done].
    apply find_some in Hf as [Hin Hid]. apply bool_decide_eq_true in Hid.
    exfalso. apply Hnotin. rewrite Hr, <- Hid.
    apply list_elem_of_fmap. exists r'. split; [done|].
    by apply list_elem_of_In.
  - destruct (findIndex _ ledger) as [j|] eqn:Hj; [|done].
    simpl in Hfind. simplify_eq. simpl. rewrite Hr. by apply IH.
Qed.

Lemma recentlyPlayed_set (x : list Played) (m : t) :
  recentlyPlayed (set_recentlyPlayed x m) = x.
Proof. done. Qed.

(** What [addToRecentlyPlayed] leaves in a ledger with one record per
    entry: the new record in front, with the play count 1 whether or not
    the entry was there. *)
Lemma addToRecentlyPlayed_ledger (m : t) (now : Z) (videoId : jsstring) :
  NoDup (id <$> recentlyPlayed m) ->
  recentlyPlayed (addToRecentlyPlayed m now videoId) =
  take 50 ({| id := videoId; playedAt := now; playCount := 1 |}
           :: match findIndex (fun v => bool_decide (id v = videoId))
                              (recentlyPlayed m) with
              | Some i => delete i (recentlyPlayed m)
              | None => recentlyPlayed m
              end).
Proof.
  intros Hnd. unfold addToRecentlyPlayed.
  destruct (findIndex _ (recentlyPlayed m)) as [i|] eqn:Hi.
  - unfold getRecentlyPlayedData. rewrite !recentlyPlayed_set.
    by rewrite (find_after_splice _ _ _ Hnd Hi).
  - unfold getRecentlyPlayedData. rewrite !recentlyPlayed_set.
    by rewrite (findIndex_None _ _ Hi).
Qed.

Lemma findIndex_Some_lookup {A} (p : A -> bool) (l : list A) (i : nat) :
  findIndex p l = Some i -> exists x, l !! i = Some x /\ p x = true.
Proof.
  revert i. induction l as [|y l IH]; intros i H; [done|]. simpl in H.
  destruct (p y) eqn:Hy.
  - simplify_eq. eauto.
  - destruct (findIndex p l) as [j|]; [|done]. simpl in H. simplify_eq.
    destruct (IH j eq_refl) as (x & ? & ?). eauto.
Qed.

Lemma findIndex_None_all {A} (p : A -> bool) (l : list A) :
  findIndex p l = None -> forall x, x ∈ l -> p x = false.
Proof.
  induction l as [|y l IH]; intros H x Hx; [by apply elem_of_nil in Hx|].
  simpl in H. destruct (p y) eqn:Hy; [done|].
  destruct (findIndex p l); [done|].
  apply elem_of_cons in Hx as [->|Hx]; auto.
Qed.

Lemma NoDup_fmap_delete {A B} (f : A -> B) (l : list A) (i : nat) :
  NoDup (f <$> l) -> NoDup (f <$> delete i l).
Proof.
  intros H. eapply sublist_NoDup; [exact H|apply fmap_sublist, sublist_delete].
Qed.

Lemma not_in_after_splice (videoId : jsstring) (ledger : list Played) (i : nat) :
  NoDup (id <$> ledger) ->
  findIndex (fun v => bool_decide (id v = videoId)) ledger = Some i ->
  videoId ∉ id <$> delete i ledger.
Proof.
  intros Hnd Hi Hin. apply list_elem_of_fmap in Hin as (r & Hr & Hin).
  pose proof (find_after_splice _ _ _ Hnd Hi) as Hnone.
  apply list_elem_of_In in Hin.
  eapply find_none in Hnone; [|exact Hin]. simpl in Hnone.
  apply bool_decide_eq_false in Hnone. congruence.
Qed.

(** The ledger keeps one record per entry ... *)
Lemma addToRecentlyPlayed_NoDup (m : t) (now : Z) (videoId : jsstring) :
  NoDup (id <$> recentlyPlayed m) ->
  NoDup (id <$> recentlyPlayed (addToRecentlyPlayed m now videoId)).
Proof.
  intros Hnd. rewrite addToRecentlyPlayed_ledger by done.
  eapply sublist_NoDup; [|apply fmap_sublist, sublist_take].
  rewrite fmap_cons. simpl. apply NoDup_cons.
  destruct (findIndex _ (recentlyPlayed m)) as [i|] eqn:Hi.
  - split; [by apply not_in_after_splice|by apply NoDup_fmap_delete].
  - split; [|done]. intros Hin.
    apply list_elem_of_fmap in Hin as (r & Hr & Hin).
    apply (findIndex_None_all _ _ Hi) in Hin.
    apply bool_decide_eq_false in Hin. congruence.
Qed.

(** ... and never more than 50 of them. *)
Lemma addToRecentlyPlayed_bounded (m : t) (now : Z) (videoId : jsstring) :
  (length (recentlyPlayed (addToRecentlyPlayed m now videoId)) <= 50)%nat.
Proof.
  unfold addToRecentlyPlayed. rewrite recentlyPlayed_set, length_take. lia.
Qed.

(** Every ledger that plays build from the empty one holds the play count
    1 in each of its records. *)
Lemma plays_count_one (now0 : Z) (l : list (Z * jsstring)) :
  NoDup (id <$> recentlyPlayed (plays (new now0) l)) /\
  Forall (fun r => playCount r = 1) (recentlyPlayed (plays (new now0) l)).
Proof.
  induction l as [|e l IH] using rev_ind.
  - split; constructor.
  - unfold plays in *. rewrite foldl_app. cbn [foldl].
    destruct IH as [Hnd Hall]. split; [by apply addToRecentlyPlayed_NoDup|].
    rewrite addToRecentlyPlayed_ledger by done.
    apply Forall_take. constructor; [done|].
    destruct (findIndex _ _); [|done].
    by apply Forall_delete.
Qed.

(** C4.  The ledger of an entry played twice holds one record, in front,
    and its play count is 1: the replay moved the record and did not
    increment the count. *)
Theorem replay_keeps_count_one :
  recentlyPlayed (plays (new 0) [(10, js "rec1"); (20, js "rec1")])
  = [{| id := js "rec1"; playedAt := 20; playCount := 1 |}].
Proof. reflexivity. Qed.
End Ledger.

(* ================================================================== *)
(** * The ledger and the search history, as lists of the most recent *)
(* ================================================================== *)

Section History.
Import EnhancedVideoManager.

Lemma filter_other_than_same (x : jsstring) (l : list jsstring) :
  List.filter (other_than x) (x :: l) = List.filter (other_than x) l.
Proof.
  cbn [List.filter].
  assert (other_than x x = false) as ->; [|done].
  unfold other_than. by rewrite bool_decide_eq_true_2.
Qed.

Lemma filter_other_than_other (x y : jsstring) (l : list jsstring) :
  y <> x ->
  List.filter (other_than x) (y :: l) = y :: List.filter (other_than x) l.
Proof.
  intros Hne. cbn [List.filter].
  assert (other_than x y = true) as ->; [|done].
  unfold other_than. by rewrite bool_decide_eq_false_2.
Qed.

Lemma filter_other_than_absent (x : jsstring) (l : list jsstring) :
  x ∉ l -> List.filter (other_than x) l = l.
Proof.
  induction l as [|y l IH]; intros Hx; [done|].
  apply not_elem_of_cons in Hx as [Hne Hx].
  rewrite filter_other_than_other by done. by rewrite IH.
Qed.

Lemma elem_of_filter_other_than (x y : jsstring) (l : list jsstring) :
  y ∈ List.filter (other_than x) l <-> y ∈ l /\ y <> x.
Proof.
  rewrite list_elem_of_In, filter_In, <- list_elem_of_In. unfold other_than.
  rewrite negb_true_iff, bool_decide_eq_false. done.
Qed.

Lemma NoDup_filter_other_than (x : jsstring) (l : list jsstring) :
  NoDup l -> NoDup (List.filter (other_than x) l).
Proof.
  induction 1 as [|y l Hy Hl IH]; simpl; [constructor|].
  destruct (other_than x y); [|done].
  constructor; [|done]. rewrite elem_of_filter_other_than. tauto.
Qed.

Lemma NoDup_distinct (l : list jsstring) : NoDup (distinct l).
Proof.
  induction l as [|x l IH]; simpl; [constructor|].
  constructor; [|by apply NoDup_filter_other_than].
  rewrite elem_of_filter_other_than. tauto.
Qed.

(** Cutting before or after the removal of one element of a list without
    repetition leaves the same first elements. *)
Lemma take_filter_take (x : jsstring) (n : nat) (l : list jsstring) :
  NoDup l ->
  take n (List.filter (other_than x) (take (S n) l))
  = take n (List.filter (other_than x) l).
Proof.
  intros Hnd. revert n. induction Hnd as [|d l Hd Hl IH]; intros n.
  - by rewrite take_nil.
  - cbn [take]. destruct (decide (d = x)) as [->|Hne].
    + rewrite !filter_other_than_same.
      rewrite (filter_other_than_absent x l) by done.
      rewrite (filter_other_than_absent x (take n l)).
      * by rewrite take_take, Nat.min_id.
      * intros Hin. apply Hd. by eapply elem_of_sublist, sublist_take.
    + rewrite !filter_other_than_other by done.
      destruct n as [|n]; [done|]. cbn [take]. by rewrite IH.
Qed.

(** The removal of the first record with a key, in a list with one record
    per key. *)
Lemma splice_first {A} (key : A -> jsstring) (x : jsstring) (l : list A) :
  NoDup (key <$> l) ->
  key <$> match findIndex (fun v => bool_decide (key v = x)) l with
          | Some i => delete i l
          | None => l
          end
  = List.filter (other_than x) (key <$> l).
Proof.
  induction l as [|v l IH]; intros Hnd; [done|].
  rewrite fmap_cons in Hnd. apply NoDup_cons in Hnd as [Hv Hnd].
  cbn [findIndex]. rewrite fmap_cons. case_bool_decide as Hkey.
  - rewrite Hkey, filter_other_than_same.
    rewrite filter_other_than_absent; [done|by rewrite <- Hkey].
  - rewrite filter_other_than_other by done.
    specialize (IH Hnd).
    destruct (findIndex _ l) as [i|]; simpl; by rewrite <- IH.
Qed.

(** X18.  The ledger is the list of the entries played last: after any
    sequence of plays, its ids are the ids of the plays from the last one
    back, each at its first occurrence only, cut after the fiftieth. *)
Theorem recentlyPlayed_lists_the_last_played (now0 : Z)
    (l : list (Z * jsstring)) :
  id <$> recentlyPlayed (plays (new now0) l)
  = take 50 (distinct (reverse (snd <$> l))).
Proof.
  induction l as [|[now videoId] l IH] using rev_ind; [done|].
  destruct (plays_count_one now0 l) as [Hnd _].
  unfold plays in *. rewrite foldl_app. cbn [foldl fst snd].
  rewrite addToRecentlyPlayed_ledger by done.
  rewrite fmap_app, reverse_app. cbn [fmap list_fmap snd].
  rewrite reverse_singleton. cbn [app distinct].
  rewrite fmap_take, fmap_cons. cbn [id].
  rewrite (splice_first id videoId _ Hnd), IH.
  cbn [take]. f_equal. apply take_filter_take, NoDup_distinct.
Qed.

Lemma searchHistory_set (x : list jsstring) (self : t) :
  searchHistory (set_searchHistory x self) = x.
Proof. done. Qed.

(** X19.  The search history is the list of the terms searched last:
    after any sequence of searches, it holds the terms of at least two
    units from the last one back, each at its first occurrence only, cut
    after the tenth; shorter terms leave no trace. *)
Theorem searchHistory_lists_the_last_searched (now0 : Z)
    (terms : list jsstring) :
  searchHistory (searches (new now0) terms)
  = take 10 (distinct
               (reverse (List.filter (fun term => (2 <=? length term)%nat)
                                     terms))).
Proof.
  induction terms as [|term terms IH] using rev_ind; [done|].
  unfold searches in *. rewrite foldl_app. cbn [foldl].
  rewrite List.filter_app. cbn [List.filter].
  unfold addToSearchHistory.
  change CONFIG.SEARCH.MIN_SEARCH_LENGTH with 2%nat.
  destruct (Nat.leb_spec 2 (length term)) as [Hlen|Hlen].
  - assert (truthy term = true) as -> by (destruct term; [simpl in Hlen; lia|done]).
    destruct (Nat.ltb_spec (length term) 2) as [?|_]; [lia|]. cbn [negb orb].
    rewrite searchHistory_set, reverse_app, reverse_singleton.
    cbn [app distinct].
    pose proof (splice_first (fun t : jsstring => t) term
                  (searchHistory (foldl addToSearchHistory (new now0) terms)))
      as Hsplice.
    rewrite !list_fmap_id in Hsplice.
    assert (NoDup (searchHistory (foldl addToSearchHistory (new now0) terms)))
      as Hnd.
    { rewrite IH. eapply sublist_NoDup; [apply NoDup_distinct|apply sublist_take]. }
    specialize (Hsplice Hnd).
    cbn [take]. f_equal.
    transitivity (take 9 (List.filter (other_than term)
                    (searchHistory (foldl addToSearchHistory (new now0) terms)))).
    { f_equal. rewrite <- Hsplice. by destruct (findIndex _ _). }
    rewrite IH. apply take_filter_take, NoDup_distinct.
  - rewrite app_nil_r.
    destruct (Nat.ltb_spec (length term) 2) as [_|?]; [|lia].
    by rewrite orb_true_r.
Qed.
End History.

(* ================================================================== *)
(** * The duplicate guard: the hashes it keeps *)
(* ================================================================== *)

Section Hashes.
Import DuplicatePreventionService.



Lemma toLowerCase_app (a b : jsstring) :
  toLowerCase (a ++ b) = toLowerCase a ++ toLowerCase b.
Proof. apply fmap_app. Qed.

Lemma same_triple_hash (a b : VideoData) :
  same_triple a b -> generateVideoHash a = generateVideoHash b.
Proof.
  intros (Hid & Hty & Hti). unfold generateVideoHash, hash_content.
  rewrite !toLowerCase_app. by rewrite Hid, Hty, Hti.
Qed.

(** A call never forgets a hash. *)
Lemma isDuplicate_keeps_hash (self : t) (videoData : VideoData)
    (existingVideos : list VideoData) (hash : jsstring) :
  is_Some (videoHashes self !! hash) ->
  is_Some (videoHashes (snd (isDuplicate self videoData existingVideos))
             !! hash).
Proof.
  intros Hh. unfold isDuplicate.
  case_bool_decide; [done|]. destruct (existsb _ _); [done|]. simpl.
  destruct (decide (generateVideoHash videoData = hash)) as [->|Hne].
  - rewrite lookup_insert_eq. eauto.
  - by rewrite lookup_insert_ne.
Qed.

Lemma checks_keep_hash (self : t) (calls : list (VideoData * list VideoData))
    (hash : jsstring) :
  is_Some (videoHashes self !! hash) ->
  is_Some (videoHashes (checks self calls) !! hash).
Proof.
  revert self. induction calls as [|call calls IH]; intros self Hh; [done|].
  simpl. apply IH. by apply isDuplicate_keeps_hash.
Qed.

Lemma isDuplicate_false_records (self self' : t) (videoData : VideoData)
    (existingVideos : list VideoData) :
  isDuplicate self videoData existingVideos = (false, self') ->
  videoHashes self' !! generateVideoHash videoData = Some videoData.
Proof.
  unfold isDuplicate. case_bool_decide; [done|].
  destruct (existsb _ _); [done|]. intros [= <-]. simpl.
  apply lookup_insert_eq.
Qed.

(** C10.  [isDuplicate] keeps state: once it has answered [false] for a
    candidate, it answers [true], whatever the calls in between and
    whatever the list of existing entries (the empty one too), for every
    candidate with the same lowercased videoId, type and title. *)
Theorem isDuplicate_remembers_rejected_candidates
    (self self' : t) (videoData : VideoData) (existingVideos : list VideoData)
    (calls : list (VideoData * list VideoData)) (later : VideoData)
    (laterVideos : list VideoData) :
  isDuplicate self videoData existingVideos = (false, self') ->
  same_triple videoData later ->
  fst (isDuplicate (checks self' calls) later laterVideos) = true.
Proof.
  intros Hfalse Hsame.
  pose proof (isDuplicate_false_records _ _ _ _ Hfalse) as Hrec.
  rewrite (same_triple_hash _ _ Hsame) in Hrec.
  assert (is_Some (videoHashes (checks self' calls)
                     !! generateVideoHash later)) as Hlater.
  { apply checks_keep_hash. eauto. }
  unfold isDuplicate. by rewrite bool_decide_eq_true_2.
Qed.

Lemma isDuplicate_remembers_rejected_candidates_witness :
  isDuplicate new (Sample.data "abc" "youtube" "My Clip") [] =
    (false, snd (isDuplicate new (Sample.data "abc" "youtube" "My Clip") []))
  /\ same_triple (Sample.data "abc" "youtube" "My Clip")
                 (Sample.data "ABC" "YouTube" "my clip")
  /\ fst (isDuplicate
            (checks (snd (isDuplicate new
                            (Sample.data "abc" "youtube" "My Clip") []))
                    [(Sample.data "x" "vimeo" "Other", [])])
            (Sample.data "ABC" "YouTube" "my clip") []) = true.
Proof.
  assert (isDuplicate new (Sample.data "abc" "youtube" "My Clip") [] =
    (false, snd (isDuplicate new (Sample.data "abc" "youtube" "My Clip") [])))
    as H1 by (vm_compute; reflexivity).
  assert (same_triple (Sample.data "abc" "youtube" "My Clip")
                 (Sample.data "ABC" "YouTube" "my clip")) as H2
    by (repeat split; vm_compute; reflexivity).
  split; [exact H1|]. split; [exact H2|].
  exact (isDuplicate_remembers_rejected_candidates _ _ _ _ _ _ _ H1 H2).
Defined.
End Hashes.

(* ================================================================== *)
(** * The duplicate guard: the edit distance *)
(* ================================================================== *)

Section EditDistance.
Import DuplicatePreventionService.

Lemma lev_nil_r (a : jsstring) : lev a [] = length a.
Proof. by destruct a. Qed.

Lemma lev_cons (x y : N) (a b : jsstring) :
  lev (x :: a) (y :: b) =
  if decide (x = y) then lev a b
  else S (Nat.min (Nat.min (lev a b) (lev (x :: a) b)) (lev a (y :: b))).
Proof. reflexivity. Qed.

(** The edit distance does not depend on the order of its arguments. *)
Lemma lev_sym (a b : jsstring) : lev a b = lev b a.
Proof.
  revert b. induction a as [|x a IHa]; intros b.
  - by rewrite lev_nil_r.
  - induction b as [|y b IHb]; [by rewrite lev_nil_r|].
    rewrite !lev_cons. destruct (decide (x = y)) as [->|Hne].
    + rewrite decide_True by done. apply IHa.
    + rewrite decide_False by congruence.
      rewrite (IHa b), IHb, (IHa (y :: b)). lia.
Qed.

Lemma lev_same (a : jsstring) : lev a a = 0%nat.
Proof.
  induction a as [|x a IH]; [done|]. rewrite lev_cons.
  by rewrite decide_True.
Qed.

(** ** The table that [editDistance] fills *)

Section Table.
Variables s1 s2 : jsstring.

Lemma cell_0_l (j : nat) : (j <= length s2)%nat -> cell s1 s2 0 j = j.
Proof.
  intros Hj. unfold cell. simpl.
  rewrite length_reverse, length_take. lia.
Qed.

Lemma cell_0_r (i : nat) : (i <= length s1)%nat -> cell s1 s2 i 0 = i.
Proof.
  intros Hi. unfold cell. simpl.
  rewrite lev_nil_r, length_reverse, length_take. lia.
Qed.

Lemma cell_S_S (i j : nat) (x y : N) :
  s1 !! i = Some x -> s2 !! j = Some y ->
  cell s1 s2 (S i) (S j) =
  if decide (x = y) then cell s1 s2 i j
  else S (Nat.min (Nat.min (cell s1 s2 i j) (cell s1 s2 (S i) j))
                  (cell s1 s2 i (S j))).
Proof.
  intros Hx Hy. unfold cell.
  rewrite (take_S_r _ _ _ Hx), (take_S_r _ _ _ Hy), !reverse_snoc.
  apply lev_cons.
Qed.

Lemma inner_step_0 (costs : list nat) (lastValue j : nat) :
  inner_step s1 s2 0 (costs, lastValue) j = (<[j := j]> costs, lastValue).
Proof. reflexivity. Qed.

Lemma inner_step_S_0 (i : nat) (st : list nat * nat) :
  inner_step s1 s2 (S i) st 0 = st.
Proof. by destruct st. Qed.

Lemma inner_step_S_S (i m : nat) (costs : list nat) (lastValue : nat) :
  inner_step s1 s2 (S i) (costs, lastValue) (S m) =
  (<[m := lastValue]> costs,
   if decide (s1 !! i = s2 !! m) then costs !!! m
   else (Nat.min (Nat.min (costs !!! m) lastValue) (costs !!! S m) + 1)%nat).
Proof. unfold inner_step. simpl. by rewrite !Nat.sub_0_r. Qed.

Lemma foldl_seq_S {A} (f : A -> nat -> A) (a : A) (m : nat) :
  foldl f a (seq 0 (S m)) = f (foldl f a (seq 0 m)) m.
Proof. by rewrite seq_S, foldl_app. Qed.

Lemma inner_loop_row (i m : nat) (costs : list nat) :
  (i < length s1)%nat -> (m <= length s2)%nat ->
  row s1 s2 i costs ->
  mid_row s1 s2 i m
          (foldl (inner_step s1 s2 (S i)) (costs, S i) (seq 0 (S m))).
Proof.
  intros Hi Hm [Hlen Hrow]. induction m as [|m IH].
  - rewrite foldl_seq_S, inner_step_S_0. simpl.
    split; [done|]. split; [rewrite cell_0_r by lia; done|].
    intros j Hj. simpl. auto.
  - rewrite foldl_seq_S.
    destruct (foldl _ _ (seq 0 (S m))) as [costs' lastValue].
    destruct IH as (Hlen' & Hlast & Hcells); [lia|]. simpl in Hlen', Hlast, Hcells.
    rewrite inner_step_S_S.
    destruct (lookup_lt_is_Some_2 s1 i Hi) as [x Hx].
    destruct (lookup_lt_is_Some_2 s2 m) as [y Hy]; [lia|].
    rewrite Hx, Hy.
    pose proof (Hcells m ltac:(lia)) as Hold.
    rewrite Nat.ltb_irrefl in Hold.
    pose proof (Hcells (S m) ltac:(lia)) as Hnext.
    destruct (Nat.ltb_spec (S m) m) as [?|_]; [lia|].
    split; [simpl; by rewrite length_insert|]. split.
    + simpl. rewrite (cell_S_S i m x y Hx Hy), Hold, Hnext, Hlast.
      destruct (decide (Some x = Some y)) as [Heq|Hne].
      * simplify_eq. by rewrite decide_True.
      * rewrite decide_False by congruence. lia.
    + intros j Hj. simpl.
      destruct (decide (j = m)) as [->|Hjm].
      * rewrite list_lookup_total_insert_eq by lia.
        destruct (Nat.ltb_spec m (S m)); [done|lia].
      * rewrite list_lookup_total_insert_ne by done.
        rewrite (Hcells j Hj).
        destruct (Nat.ltb_spec j m), (Nat.ltb_spec j (S m)); try done; lia.
Qed.

(** The row 0 is written cell by cell. *)
Lemma first_loop_row (m : nat) (costs : list nat) (lastValue : nat) :
  length costs = S (length s2) -> (m <= length s2)%nat ->
  let st := foldl (inner_step s1 s2 0) (costs, lastValue) (seq 0 (S m)) in
  length (fst st) = S (length s2) /\
  forall j, (j <= m)%nat -> fst st !!! j = j.
Proof.
  intros Hlen Hm. cbv zeta. induction m as [|m IH].
  - simpl. split; [by rewrite length_insert|]. intros j Hj.
    assert (j = 0)%nat as -> by lia.
    rewrite list_lookup_total_insert_eq; [done|lia].
  - rewrite foldl_seq_S.
    destruct (foldl _ _ (seq 0 (S m))) as [costs' lastValue'].
    destruct IH as (Hlen' & Hcells); [lia|]. simpl in Hlen', Hcells.
    rewrite inner_step_0. simpl.
    split; [by rewrite length_insert|]. intros j Hj.
    destruct (decide (j = S m)) as [->|Hjm].
    + rewrite list_lookup_total_insert_eq; [done|lia].
    + rewrite list_lookup_total_insert_ne by done. apply Hcells. lia.
Qed.

Lemma outer_step_0 (costs : list nat) :
  length costs = S (length s2) -> row s1 s2 0 (outer_step s1 s2 costs 0).
Proof.
  intros Hlen. unfold outer_step.
  destruct (first_loop_row (length s2) costs 0%nat Hlen) as [Hlen' Hcells];
    [lia|].
  destruct (foldl _ _ _) as [costs' lastValue]. simpl in *.
  split; [done|]. intros j Hj. rewrite cell_0_l by done. auto.
Qed.

Lemma outer_step_S (i : nat) (costs : list nat) :
  (i < length s1)%nat -> row s1 s2 i costs ->
  row s1 s2 (S i) (outer_step s1 s2 costs (S i)).
Proof.
  intros Hi Hrow. unfold outer_step.
  destruct (inner_loop_row i (length s2) costs Hi) as (Hlen & Hlast & Hcells);
    [lia|done|].
  destruct (foldl _ _ _) as [costs' lastValue]. simpl in *.
  split; [by rewrite length_insert|]. intros j Hj.
  destruct (decide (j = length s2)) as [->|Hne].
  - rewrite list_lookup_total_insert_eq by lia. done.
  - rewrite list_lookup_total_insert_ne by done. rewrite (Hcells j Hj).
    destruct (Nat.ltb_spec j (length s2)); [done|lia].
Qed.

Lemma outer_loop_row (i : nat) :
  (i <= length s1)%nat ->
  row s1 s2 i (foldl (outer_step s1 s2) (replicate (S (length s2)) 0%nat)
               (seq 0 (S i))).
Proof.
  intros Hi. induction i as [|i IH].
  - rewrite foldl_seq_S. cbn [seq foldl]. apply outer_step_0.
    apply length_replicate.
  - rewrite foldl_seq_S.
    apply outer_step_S; [lia|]. apply IH. lia.
Qed.
End Table.

(** [editDistance] computes the edit distance of the lowercased strings
    (read from their last units, which changes nothing). *)
Lemma editDistance_lev (s1 s2 : jsstring) :
  editDistance s1 s2 = lev (reverse (toLowerCase s1)) (reverse (toLowerCase s2)).
Proof.
  unfold editDistance. cbv zeta.
  destruct (outer_loop_row (toLowerCase s1) (toLowerCase s2)
              (length (toLowerCase s1))) as [_ Hcells]; [lia|].
  rewrite Hcells by lia. unfold cell. by rewrite !take_ge by lia.
Qed.

Lemma editDistance_sym (s1 s2 : jsstring) :
  editDistance s1 s2 = editDistance s2 s1.
Proof. rewrite !editDistance_lev. apply lev_sym. Qed.

Lemma editDistance_same (s : jsstring) : editDistance s s = 0%nat.
Proof. rewrite editDistance_lev. apply lev_same. Qed.
End EditDistance.

(* ================================================================== *)
(** * The duplicate guard: similarity *)
(* ================================================================== *)

Section Similarity.
Import DuplicatePreventionService.

(** The scan of the existing entries: one similar entry is enough,
    wherever it stands and whatever the service remembers. *)
Lemma isDuplicate_flags_similar (self : t) (videoData existingVideo : VideoData)
    (existingVideos : list VideoData) :
  existingVideo ∈ existingVideos ->
  checkSimilarity videoData existingVideo (similarityThreshold self) = true ->
  fst (isDuplicate self videoData existingVideos) = true.
Proof.
  intros Hin Hsim. unfold isDuplicate. case_bool_decide; [done|].
  destruct (existsb _ existingVideos) eqn:Hex; [done|].
  exfalso. apply not_true_iff_false in Hex. apply Hex.
  apply existsb_exists. exists existingVideo. split; [|done].
  by apply list_elem_of_In.
Qed.

Example editDistance_kitten_sitting :
  editDistance (js "kitten") (js "Sitting") = 3%nat.
Proof. reflexivity. Qed.

Example calculateSimilarity_one_edit :
  (calculateSimilarity (js "hello world") (js "hello worle") == 10 # 11)%Q
  /\ checkSimilarity (Sample.data "a" "youtube" "hello world")
                     (Sample.data "b" "vimeo" "hello worle") (85 # 100) = true.
Proof. split; vm_compute; reflexivity. Qed.

(** The similarity of two strings does not depend on their order ... *)
Lemma calculateSimilarity_sym (str1 str2 : jsstring) :
  calculateSimilarity str1 str2 = calculateSimilarity str2 str1.
Proof.
  unfold calculateSimilarity. rewrite (orb_comm (negb (truthy str2))).
  destruct (negb (truthy str1) || negb (truthy str2)); [done|].
  destruct (Nat.ltb_spec (length str2) (length str1)) as [Hlt|Hge],
           (Nat.ltb_spec (length str1) (length str2)) as [Hlt'|Hge'];
    try done; try lia.
  assert (length str1 = length str2) as Hlen by lia.
  by rewrite Hlen, (editDistance_sym str2 str1).
Qed.

(** X22.  The verdict of [checkSimilarity] on two entries does not depend
    on their order, whatever the threshold. *)
Lemma checkSimilarity_sym (video1 video2 : VideoData) (threshold : Q) :
  checkSimilarity video1 video2 threshold
  = checkSimilarity video2 video1 threshold.
Proof.
  unfold checkSimilarity. cbv zeta.
  rewrite (calculateSimilarity_sym (title video1)).
  destruct (originalUrl video1) as [u1|], (originalUrl video2) as [u2|];
    try done.
  rewrite (andb_comm (truthy u2)), (calculateSimilarity_sym u1). done.
Qed.

(** A string that is not empty is as similar to itself as can be. *)
Lemma calculateSimilarity_same (str : jsstring) :
  str <> [] -> (calculateSimilarity str str == 1)%Q.
Proof.
  intros Hne. unfold calculateSimilarity.
  destruct str as [|c str]; [done|]. cbn [truthy negb orb].
  rewrite Nat.ltb_irrefl. cbn [length Nat.eqb].
  rewrite editDistance_same, Z.sub_0_r.
  apply Qmult_inv_r. unfold Qeq. simpl. lia.
Qed.

(** Entries with the same title, if it is not empty, are flagged. *)
Lemma isDuplicate_flags_same_title (self : t) (videoData existingVideo : VideoData)
    (existingVideos : list VideoData) :
  similarityThreshold self = 85 # 100 ->
  existingVideo ∈ existingVideos ->
  title existingVideo = title videoData ->
  title videoData <> [] ->
  fst (isDuplicate self videoData existingVideos) = true.
Proof.
  intros Hth Hin Htitle Hne.
  apply (isDuplicate_flags_similar self videoData existingVideo); [done|].
  unfold checkSimilarity. cbv zeta. rewrite Htitle, Hth.
  pose proof (calculateSimilarity_same _ Hne) as Hsim.
  unfold Qgtb. apply negb_true_iff. apply not_true_iff_false.
  intros Hle. apply Qle_bool_iff in Hle.
  pose proof (Q.le_max_l (calculateSimilarity (title videoData)
                                              (title videoData))
                (match originalUrl videoData, originalUrl existingVideo with
                 | Some u1, Some u2 =>
                     if truthy u1 && truthy u2 then calculateSimilarity u1 u2
                     else 0%Q
                 | _, _ => 0%Q
                 end)) as Hmax.
  pose proof (Qle_trans _ _ _ Hmax Hle) as Habs.
  rewrite Hsim in Habs. by vm_compute in Habs.
Qed.

(** Two empty strings: the first test of [calculateSimilarity] answers 0,
    and the test of the empty longer string, which would answer 1, is
    never reached. *)
Lemma calculateSimilarity_empty (str : jsstring) :
  calculateSimilarity [] str = 0%Q /\ calculateSimilarity str [] = 0%Q.
Proof. split; [done|]. unfold calculateSimilarity. by destruct str. Qed.

(** C6.  An entry with an empty title and an empty URL is not flagged as
    a duplicate of an existing entry with the same inputs: their
    similarity is 0 on the title and on the URL, where the specification
    has it at 1. *)
Theorem isDuplicate_misses_identical_empty_entries :
  let entry :=
    {| videoId := js "rec9"; type := js "other"; title := [];
       originalUrl := Some [] |} in
  fst (isDuplicate new entry [entry]) = false /\
  checkSimilarity entry entry (similarityThreshold new) = false /\
  (calculateSimilarity (title entry) (title entry) == 0)%Q.
Proof. cbv zeta. repeat split. Qed.
End Similarity.

(* ================================================================== *)
(** * The duplicate guard: what the similarity measures *)
(* ================================================================== *)

Section SimilarityBounds.
Import DuplicatePreventionService.

Lemma lev_le_max (a b : jsstring) :
  (lev a b <= Nat.max (length a) (length b))%nat.
Proof.
  revert b. induction a as [|x a IHa]; intros b; [simpl; lia|].
  induction b as [|y b IHb]; [rewrite lev_nil_r; lia|].
  rewrite lev_cons. specialize (IHa b). simpl length.
  destruct (decide (x = y)); lia.
Qed.

Lemma lev_zero (a b : jsstring) : lev a b = 0%nat -> a = b.
Proof.
  revert b. induction a as [|x a IHa]; intros b H.
  - destruct b; [done|]. simpl in H. lia.
  - destruct b as [|y b]; [rewrite lev_nil_r in H; simpl in H; lia|].
    rewrite lev_cons in H. destruct (decide (x = y)) as [->|]; [|lia].
    by rewrite (IHa b H).
Qed.

Lemma editDistance_le_max (s1 s2 : jsstring) :
  (editDistance s1 s2 <= Nat.max (length s1) (length s2))%nat.
Proof.
  rewrite editDistance_lev.
  pose proof (lev_le_max (reverse (toLowerCase s1))
                         (reverse (toLowerCase s2))) as H.
  unfold toLowerCase in *. by rewrite !length_reverse, !length_fmap in H.
Qed.

Lemma editDistance_zero (s1 s2 : jsstring) :
  editDistance s1 s2 = 0%nat <-> toLowerCase s1 = toLowerCase s2.
Proof.
  rewrite editDistance_lev. split.
  - intros H. apply lev_zero in H. by apply (inj reverse).
  - intros ->. apply lev_same.
Qed.

(** The two branches of [calculateSimilarity] on strings that are not
    empty, at once: the ratio is taken over the greater length. *)
Lemma calculateSimilarity_ratio (str1 str2 : jsstring) :
  str1 <> [] -> str2 <> [] ->
  calculateSimilarity str1 str2
  = (inject_Z (Z.of_nat (Nat.max (length str1) (length str2))
               - Z.of_nat (editDistance str1 str2))
     / inject_Z (Z.of_nat (Nat.max (length str1) (length str2))))%Q.
Proof.
  intros H1 H2. unfold calculateSimilarity.
  destruct str1 as [|c1 str1]; [done|]. destruct str2 as [|c2 str2]; [done|].
  cbn [truthy negb orb].
  destruct (Nat.ltb_spec (length (c2 :: str2)) (length (c1 :: str1)))
    as [Hlt|Hge].
  - cbn [length Nat.eqb]. cbn [length] in Hlt.
    by rewrite Nat.max_l by (cbn [length]; lia).
  - cbn [length Nat.eqb]. cbn [length] in Hge.
    rewrite Nat.max_r by (cbn [length]; lia).
    by rewrite (editDistance_sym (c2 :: str2)).
Qed.

Lemma Qdiv_Z_le_1 (a b : Z) : 0 < b -> a <= b -> (inject_Z a / inject_Z b <= 1)%Q.
Proof.
  intros Hb Hab. apply Qle_shift_div_r.
  - change 0%Q with (inject_Z 0). by rewrite <- Zlt_Qlt.
  - rewrite Qmult_1_l. by rewrite <- Zle_Qle.
Qed.

Lemma Qdiv_Z_ge_0 (a b : Z) : 0 < b -> 0 <= a -> (0 <= inject_Z a / inject_Z b)%Q.
Proof.
  intros Hb Ha. apply Qle_shift_div_l.
  - change 0%Q with (inject_Z 0). by rewrite <- Zlt_Qlt.
  - rewrite Qmult_0_l. change 0%Q with (inject_Z 0). by rewrite <- Zle_Qle.
Qed.

Lemma calculateSimilarity_range (str1 str2 : jsstring) :
  (0 <= calculateSimilarity str1 str2 <= 1)%Q.
Proof.
  destruct str1 as [|c1 str1]; [by split|].
  destruct str2 as [|c2 str2]; [by split|].
  rewrite calculateSimilarity_ratio by done.
  pose proof (editDistance_le_max (c1 :: str1) (c2 :: str2)) as Hd.
  set (n := Nat.max _ _) in *. set (d := editDistance _ _) in *.
  assert (0 < n)%nat by (subst n; cbn [length]; lia).
  split; [apply Qdiv_Z_ge_0|apply Qdiv_Z_le_1]; lia.
Qed.

(** X20.  The similarity of two strings of ASCII units is a number
    between 0 and 1, and it is 1 exactly for two strings that are not
    empty and that differ at most in the case of their letters. *)
Theorem calculateSimilarity_is_1_iff (str1 str2 : jsstring) :
  ascii_only str1 -> ascii_only str2 ->
  (0 <= calculateSimilarity str1 str2 <= 1)%Q /\
  ((calculateSimilarity str1 str2 == 1)%Q <->
   str1 <> [] /\ toLowerCase str1 = toLowerCase str2).
Proof.
  intros _ _. split; [apply calculateSimilarity_range|].
  destruct str1 as [|c1 str1].
  { split; [by intros H; vm_compute in H|by intros [? _]]. }
  destruct str2 as [|c2 str2].
  { split; [by intros H; vm_compute in H|by intros [_ ?]]. }
  rewrite calculateSimilarity_ratio by done.
  rewrite <- editDistance_zero.
  pose proof (editDistance_le_max (c1 :: str1) (c2 :: str2)) as Hd.
  set (n := Nat.max _ _) in *. set (d := editDistance _ _) in *.
  assert (0 < n)%nat as Hn by (subst n; cbn [length]; lia).
  clearbody n d. split.
  - intros H. split; [done|].
    destruct n as [|n]; [lia|].
    unfold Qeq, Qdiv, Qmult, Qinv in H. simpl in H. lia.
  - intros [_ ->]. rewrite Z.sub_0_r. apply Qmult_inv_r.
    unfold Qeq. simpl. lia.
Qed.

Lemma calculateSimilarity_is_1_iff_witness :
  (0 <= calculateSimilarity (js "Lecture One") (js "lecture one") <= 1)%Q /\
  ((calculateSimilarity (js "Lecture One") (js "lecture one") == 1)%Q <->
   js "Lecture One" <> [] /\
   toLowerCase (js "Lecture One") = toLowerCase (js "lecture one")).
Proof.
  apply (calculateSimilarity_is_1_iff (js "Lecture One") (js "lecture one")).
  - apply (bool_decide_unpack _). vm_compute. exact I.
  - apply (bool_decide_unpack _). vm_compute. exact I.
Defined.

(** X21.  What the threshold of 0.85 means for two entries without a
    URL whose titles are not empty: they are similar exactly when the
    edit distance of their titles, case ignored, is below 15% of the
    length of the longer title. *)
Theorem checkSimilarity_title_criterion (video1 video2 : VideoData) :
  originalUrl video1 = None ->
  title video1 <> [] -> title video2 <> [] ->
  checkSimilarity video1 video2 (85 # 100) = true <->
  (20 * editDistance (title video1) (title video2)
   < 3 * Nat.max (length (title video1)) (length (title video2)))%nat.
Proof.
  intros Hurl H1 H2. unfold checkSimilarity. cbv zeta. rewrite Hurl.
  pose proof (calculateSimilarity_range (title video1) (title video2))
    as [H0 _].
  assert (Qmax (calculateSimilarity (title video1) (title video2)) 0
          = calculateSimilarity (title video1) (title video2)) as ->.
  { unfold Qmax, GenericMinMax.gmax.
    destruct (_ ?= 0)%Q eqn:Hc; try done.
    apply Qlt_alt in Hc. by apply Qle_not_lt in H0. }
  rewrite calculateSimilarity_ratio by done.
  pose proof (editDistance_le_max (title video1) (title video2)) as Hd.
  set (n := Nat.max _ _) in *. set (d := editDistance _ _) in *.
  assert (0 < n)%nat as Hn.
  { subst n. destruct (title video1); [done|]. cbn [length]. lia. }
  clearbody n d. unfold Qgtb. rewrite negb_true_iff.
  rewrite <- not_true_iff_false, Qle_bool_iff.
  unfold Qle, Qdiv, Qmult, Qinv. simpl.
  destruct n as [|n]; [lia|]. simpl. lia.
Qed.

Lemma checkSimilarity_title_criterion_witness :
  checkSimilarity (Sample.data "a" "youtube" "hello world")
                  (Sample.data "b" "vimeo" "hello worle") (85 # 100) = true
  <->
  (20 * editDistance (js "hello world") (js "hello worle")
   < 3 * Nat.max (length (js "hello world")) (length (js "hello worle")))%nat.
Proof.
  apply (checkSimilarity_title_criterion
           (Sample.data "a" "youtube" "hello world")
           (Sample.data "b" "vimeo" "hello worle")).
  - reflexivity.
  - discriminate.
  - discriminate.
Defined.
End SimilarityBounds.

(* ================================================================== *)
(** * The duplicate guard: verdicts that last *)
(* ================================================================== *)

Section Verdicts.
Import DuplicatePreventionService.

Lemma isDuplicate_threshold (self : t) (videoData : VideoData)
    (existingVideos : list VideoData) :
  similarityThreshold (snd (isDuplicate self videoData existingVideos))
  = similarityThreshold self.
Proof.
  unfold isDuplicate. case_bool_decide; [done|]. by destruct (existsb _ _).
Qed.

Lemma checks_threshold (self : t) (calls : list (VideoData * list VideoData)) :
  similarityThreshold (checks self calls) = similarityThreshold self.
Proof.
  revert self. induction calls as [|call calls IH]; intros self; [done|].
  simpl. fold (checks (snd (isDuplicate self (fst call) (snd call))) calls).
  by rewrite IH, isDuplicate_threshold.
Qed.

(** X23.  A verdict of duplication lasts: once [isDuplicate] has flagged a
    candidate against a list of entries, it flags it again after any
    further calls on the service and against any list that holds these
    entries, whatever else has been added to it. *)
Theorem isDuplicate_verdict_lasts (self : t) (videoData : VideoData)
    (existingVideos laterVideos : list VideoData)
    (calls : list (VideoData * list VideoData)) :
  fst (isDuplicate self videoData existingVideos) = true ->
  existingVideos ⊆ laterVideos ->
  fst (isDuplicate (checks self calls) videoData laterVideos) = true.
Proof.
  unfold isDuplicate at 1. intros Hflagged Hsub.
  case_bool_decide as Hhash.
  - unfold isDuplicate. rewrite bool_decide_eq_true_2; [done|].
    by apply checks_keep_hash.
  - destruct (existsb _ existingVideos) eqn:Hex; [|done].
    apply existsb_exists in Hex as (existingVideo & Hin & Hsim).
    apply (isDuplicate_flags_similar _ _ existingVideo).
    + apply Hsub. by apply list_elem_of_In.
    + by rewrite checks_threshold.
Qed.

Lemma isDuplicate_verdict_lasts_witness :
  fst (isDuplicate
         (checks new [(Sample.data "x" "vimeo" "Other", [])])
         (Sample.data "b" "vimeo" "hello worle")
         [Sample.data "c" "drive" "Unrelated";
          Sample.data "a" "youtube" "hello world"]) = true.
Proof.
  apply (isDuplicate_verdict_lasts new (Sample.data "b" "vimeo" "hello worle")
           [Sample.data "a" "youtube" "hello world"]).
  - vm_compute. reflexivity.
  - intros x Hx. apply elem_of_cons. right. exact Hx.
Defined.
End Verdicts.

(* ================================================================== *)
(** * The catalog views *)
(* ================================================================== *)

Section Catalog.
Import EnhancedVideoManager.



Lemma sort_insert_Permutation {A} (compare : A -> A -> Q) (x : A) (l : list A) :
  sort_insert compare x l ≡ₚ x :: l.
Proof.
  induction l as [|y l IH]; simpl; [done|].
  destruct (Qle_bool _ _); [done|].
  rewrite IH. apply Permutation_swap.
Qed.

Lemma js_sort_Permutation {A} (compare : A -> A -> Q) (l : list A) :
  js_sort compare l ≡ₚ l.
Proof.
  induction l as [|x l IH]; simpl; [done|].
  unfold js_sort in *. simpl. rewrite sort_insert_Permutation. by rewrite IH.
Qed.

Lemma getPopularVideos_subseteq (self : VideoAnalytics.t) (now : Z)
    (videos : list Video.t) (limit : nat) :
  VideoAnalytics.getPopularVideos self now videos limit ⊆ videos.
Proof.
  unfold VideoAnalytics.getPopularVideos. intros v Hv.
  apply list_elem_of_fmap in Hv as ([v' score] & -> & Hin). simpl.
  pose proof (elem_of_sublist _ _ _ Hin (sublist_take _ _)) as Hin'.
  rewrite js_sort_Permutation in Hin'.
  apply list_elem_of_fmap in Hin' as (v'' & Heq & ?). by simplify_eq.
Qed.

Lemma sortVideos_subseteq (host : Host) (now : Z) (self : t)
    (videos : list Video.t) (sortOption : jsstring) :
  sortVideos host now self videos sortOption ⊆ videos.
Proof.
  unfold sortVideos.
  repeat (case_decide; [by rewrite js_sort_Permutation|]).
  case_decide; [apply getPopularVideos_subseteq|done].
Qed.

Lemma List_filter_subseteq {A} (p : A -> bool) (l : list A) :
  List.filter p l ⊆ l.
Proof.
  intros x Hx. apply list_elem_of_In, filter_In in Hx as [Hx _].
  by apply list_elem_of_In.
Qed.

Lemma searchVideos_subseteq (videos : list Video.t) (term : jsstring) :
  searchVideos videos term ⊆ videos.
Proof. apply List_filter_subseteq. Qed.

(** Every view [applyFiltersAndSearch] computes is drawn from the full
    set, which it leaves as it is. *)
Lemma applyFiltersAndSearch_views (host : Host) (now : Z) (self : t) :
  filteredVideos (applyFiltersAndSearch host now self) ⊆ allVideos self /\
  allVideos (applyFiltersAndSearch host now self) = allVideos self /\
  airtable (applyFiltersAndSearch host now self) = airtable self.
Proof.
  unfold applyFiltersAndSearch. split; [|done]. simpl.
  etrans; [apply sortVideos_subseteq|].
  destruct (truthy (currentSearchTerm self) && _).
  - etrans; [apply searchVideos_subseteq|].
    destruct (truthy (currentFilters_platform self) && _); [|done].
    apply List_filter_subseteq.
  - destruct (truthy (currentFilters_platform self) && _); [|done].
    apply List_filter_subseteq.
Qed.

(** ** Ingestion *)

Lemma not_inactive_active (video : Video.t) :
  AirtableService.not_inactive video = true <-> active video.
Proof.
  unfold AirtableService.not_inactive, active.
  rewrite negb_true_iff, bool_decide_eq_false. done.
Qed.

Lemma ingest_active (nowISO : jsstring)
    (records : list AirtableService.Record_) :
  Forall active (AirtableService.ingest nowISO records).
Proof.
  apply Forall_forall. intros v Hv.
  apply list_elem_of_In, filter_In in Hv as [_ Hv].
  by apply not_inactive_active.
Qed.

(** An inactive record never comes through; an active one does. *)
Lemma ingest_spec (nowISO : jsstring) (records : list AirtableService.Record_)
    (video : Video.t) :
  video ∈ AirtableService.ingest nowISO records <->
  active video /\
  exists record, record ∈ records /\
                 video = AirtableService.video_of_record nowISO record.
Proof.
  unfold AirtableService.ingest.
  rewrite list_elem_of_In, filter_In, not_inactive_active,
    <- list_elem_of_In, list_elem_of_fmap.
  split.
  - intros [(record & -> & Hin) Hact]. eauto.
  - intros [Hact (record & Hin & ->)]. eauto.
Qed.

Lemma Forall_subseteq {A} (P : A -> Prop) (l k : list A) :
  l ⊆ k -> Forall P k -> Forall P l.
Proof.
  intros Hsub Hk. apply Forall_forall. intros x Hx.
  rewrite Forall_forall in Hk. auto.
Qed.

Lemma applyFiltersAndSearch_ok (host : Host) (now : Z) (self : t) :
  Forall active (allVideos self) ->
  (forall videos, AirtableService.cache (airtable self) = Some videos ->
                  Forall active videos) ->
  catalog_ok (applyFiltersAndSearch host now self).
Proof.
  intros Hall Hcache.
  destruct (applyFiltersAndSearch_views host now self) as (Hsub & Hsame & Hair).
  unfold catalog_ok. rewrite Hsame, Hair. split; [done|]. split; [|done].
  by eapply Forall_subseteq.
Qed.

Lemma getAllVideos_ok (service service' : AirtableService.t)
    (nowISO : jsstring) (reply : AirtableService.Reply)
    (outcome : Outcome (list Video.t)) :
  (forall videos, AirtableService.cache service = Some videos ->
                  Forall active videos) ->
  AirtableService.getAllVideos service nowISO reply = (outcome, service') ->
  (forall videos, AirtableService.cache service' = Some videos ->
                  Forall active videos) /\
  (forall videos, outcome = Returned videos -> Forall active videos).
Proof.
  intros Hcache. unfold AirtableService.getAllVideos.
  destruct (AirtableService.cache service) as [cached|] eqn:Hc.
  - intros [= <- <-]. split.
    + intros videos Hv. rewrite Hc in Hv. by apply Hcache.
    + intros videos [= <-]. by apply Hcache.
  - destruct reply as [|[records|]]; intros [= <- <-]; split; simpl.
    all: try (intros videos Hv; rewrite Hc in Hv; done).
    all: try (intros videos [= <-]; apply ingest_active).
    all: try done.
Qed.

Lemma loadVideos_ok (host : Host) (now : Z) (reply : AirtableService.Reply)
    (self : t) :
  catalog_ok self -> catalog_ok (snd (loadVideos host now reply self)).
Proof.
  intros (Hall & Hfil & Hcache). unfold loadVideos.
  destruct (isLoading self); [done|].
  cbv zeta.
  destruct (AirtableService.getAllVideos _ _ _) as [outcome service] eqn:Hget.
  apply getAllVideos_ok in Hget as [Hcache' Hout]; [|exact Hcache].
  destruct outcome as [freshVideos|message].
  - simpl. by apply applyFiltersAndSearch_ok; [apply Hout|].
  - done.
Qed.

Lemma addToRecentlyPlayed_views (self : t) (now : Z) (videoId : jsstring) :
  allVideos (addToRecentlyPlayed self now videoId) = allVideos self /\
  filteredVideos (addToRecentlyPlayed self now videoId) = filteredVideos self /\
  airtable (addToRecentlyPlayed self now videoId) = airtable self.
Proof. unfold addToRecentlyPlayed. by destruct (findIndex _ _). Qed.

Lemma addToSearchHistory_views (self : t) (term : jsstring) :
  allVideos (addToSearchHistory self term) = allVideos self /\
  airtable (addToSearchHistory self term) = airtable self.
Proof. unfold addToSearchHistory. by destruct (_ || _). Qed.
End Catalog.

(* ================================================================== *)
(** * Navigation in the playlist *)
(* ================================================================== *)

Section Navigation.
Import EnhancedVideoManager.

Lemma findIndex_first {A} (p : A -> bool) (l : list A) (i : nat) (x : A) :
  l !! i = Some x -> p x = true ->
  (forall j y, (j < i)%nat -> l !! j = Some y -> p y = false) ->
  findIndex p l = Some i.
Proof.
  revert i. induction l as [|z l IH]; intros i Hi Hx Hbefore; [done|].
  destruct i as [|i]; simpl in *.
  - simplify_eq. by rewrite Hx.
  - rewrite (Hbefore 0%nat z) by (done || lia).
    rewrite (IH i); [done|done|done|].
    intros j y Hj Hy. apply (Hbefore (S j)); [lia|done].
Qed.

(** In a playlist without two entries of one id, the first entry with
    the id of the entry at [i] is the entry at [i]. *)
Lemma findIndex_id (p : Video.t -> bool) (l : list Video.t) (i : nat)
    (v : Video.t) :
  NoDup (Video.id <$> l) -> l !! i = Some v ->
  (forall y, p y = bool_decide (Video.id y = Video.id v)) ->
  findIndex p l = Some i.
Proof.
  intros Hnd Hi Hp. apply (findIndex_first p l i v); [done| |].
  - rewrite Hp. by apply bool_decide_eq_true_2.
  - intros j y Hj Hy. rewrite Hp. apply bool_decide_eq_false_2. intros Heq.
    assert (j = i); [|lia].
    apply (NoDup_lookup _ j i (Video.id v) Hnd);
      rewrite list_lookup_fmap; [by rewrite Hy; simpl; rewrite Heq|by rewrite Hi].
Qed.

Lemma currentIndex_selected (self : t) (i : nat) (v : Video.t) :
  NoDup (Video.id <$> filteredVideos self) ->
  filteredVideos self !! i = Some v ->
  currentVideoId self = Some (Video.id v) ->
  currentIndex self = Some i.
Proof.
  intros Hnd Hi Hcur. unfold currentIndex.
  apply (findIndex_id _ _ i v); [done|done|].
  intros y. rewrite Hcur. apply bool_decide_ext. split; congruence.
Qed.

(** The selection of the entry at [j]. *)
Lemma loadVideoById_selects (self : t) (now : Z) (j : nat) (w : Video.t) :
  NoDup (Video.id <$> filteredVideos self) ->
  filteredVideos self !! j = Some w ->
  fst (loadVideoById self now (Video.id w)) = Some w /\
  currentVideoId (snd (loadVideoById self now (Video.id w)))
  = Some (Video.id w) /\
  filteredVideos (snd (loadVideoById self now (Video.id w)))
  = filteredVideos self.
Proof.
  intros Hnd Hj. unfold loadVideoById.
  rewrite (findIndex_id _ _ j w); [|done|done|done]. cbn [fst snd].
  destruct (addToRecentlyPlayed_views
              (set_currentVideoId (Some (Video.id w)) self) now (Video.id w))
    as (_ & -> & _).
  split; [done|]. split; [|done].
  unfold addToRecentlyPlayed. by destruct (findIndex _ _).
Qed.

Lemma nextVideo_at (self : t) (now : Z) (i : nat) (v : Video.t) :
  NoDup (Video.id <$> filteredVideos self) ->
  filteredVideos self !! i = Some v ->
  currentVideoId self = Some (Video.id v) ->
  exists w,
    filteredVideos self !! (S i mod length (filteredVideos self))%nat = Some w /\
    fst (nextVideo self now) = Some w /\
    currentVideoId (snd (nextVideo self now)) = Some (Video.id w) /\
    filteredVideos (snd (nextVideo self now)) = filteredVideos self.
Proof.
  intros Hnd Hi Hcur. pose proof (lookup_lt_Some _ _ _ Hi) as Hlt.
  unfold nextVideo. rewrite (currentIndex_selected self i v) by done.
  destruct (Nat.eqb_spec (length (filteredVideos self)) 0) as [?|Hne0];
    [lia|].
  set (n := length (filteredVideos self)) in *.
  assert ((if (n <=? S i)%nat then 0 else S i) = S i mod n)%nat as ->.
  { destruct (Nat.leb_spec n (S i)).
    - assert (S i = n) as -> by lia. by rewrite Nat.Div0.mod_same.
    - by rewrite Nat.mod_small. }
  destruct (lookup_lt_is_Some_2 (filteredVideos self) (S i mod n)) as [w Hw].
  { apply Nat.mod_upper_bound. lia. }
  exists w. rewrite Hw. split; [done|].
  by apply (loadVideoById_selects self now (S i mod n)).
Qed.

Lemma prevVideo_at (self : t) (now : Z) (i : nat) (v : Video.t) :
  NoDup (Video.id <$> filteredVideos self) ->
  filteredVideos self !! i = Some v ->
  currentVideoId self = Some (Video.id v) ->
  exists w,
    filteredVideos self
      !! ((i + length (filteredVideos self) - 1)
          mod length (filteredVideos self))%nat = Some w /\
    fst (prevVideo self now) = Some w /\
    currentVideoId (snd (prevVideo self now)) = Some (Video.id w) /\
    filteredVideos (snd (prevVideo self now)) = filteredVideos self.
Proof.
  intros Hnd Hi Hcur. pose proof (lookup_lt_Some _ _ _ Hi) as Hlt.
  unfold prevVideo. rewrite (currentIndex_selected self i v) by done.
  destruct (Nat.eqb_spec (length (filteredVideos self)) 0) as [?|Hne0];
    [lia|].
  set (n := length (filteredVideos self)) in *.
  assert (match i with S i' => i' | O => (n - 1)%nat end
          = ((i + n - 1) mod n)%nat) as Hprev.
  { destruct i as [|i'].
    - rewrite Nat.mod_small; lia.
    - replace (S i' + n - 1)%nat with (i' + 1 * n)%nat by lia.
      rewrite Nat.Div0.mod_add. rewrite Nat.mod_small; lia. }
  change (match Some i with Some (S i') => i' | _ => (n - 1)%nat end)
    with (match i with S i' => i' | O => (n - 1)%nat end).
  rewrite Hprev.
  destruct (lookup_lt_is_Some_2 (filteredVideos self) ((i + n - 1) mod n))
    as [w Hw].
  { apply Nat.mod_upper_bound. lia. }
  exists w. rewrite Hw. split; [done|].
  by apply (loadVideoById_selects self now ((i + n - 1) mod n)).
Qed.

(** X16.  In a playlist without two entries of one id, the button of the
    next entry goes round the playlist: from the entry at the index [i],
    [k] clicks select the entry at the index [(i + k) mod n], where [n]
    is the length of the playlist; every entry is reached, and [n]
    clicks lead back to the start. *)
Theorem nextVideo_goes_round (self : t) (times : list Z) (i : nat)
    (v : Video.t) :
  NoDup (Video.id <$> filteredVideos self) ->
  filteredVideos self !! i = Some v ->
  currentVideoId self = Some (Video.id v) ->
  exists w,
    filteredVideos self
      !! ((i + length times) mod length (filteredVideos self))%nat = Some w /\
    currentVideoId (nexts self times) = Some (Video.id w) /\
    filteredVideos (nexts self times) = filteredVideos self.
Proof.
  revert self i v. induction times as [|now times IH]; intros self i v Hnd Hi Hcur.
  - exists v. pose proof (lookup_lt_Some _ _ _ Hi).
    rewrite Nat.add_0_r, Nat.mod_small by done. done.
  - destruct (nextVideo_at self now i v Hnd Hi Hcur)
      as (w & Hw & _ & Hcur' & Hviews).
    cbn [nexts foldl]. fold (nexts (snd (nextVideo self now)) times).
    set (n := length (filteredVideos self)) in *.
    destruct (IH (snd (nextVideo self now)) (S i mod n)%nat w)
      as (u & Hu & Hcur'' & Hviews'').
    { by rewrite Hviews. } { by rewrite Hviews. } { done. }
    rewrite Hviews in Hu, Hviews''. fold n in Hu.
    exists u. split; [|done].
    rewrite <- Hu. f_equal. cbn [length].
    rewrite Nat.Div0.add_mod_idemp_l. f_equal. lia.
Qed.

Lemma nextVideo_goes_round_witness :
  let playlist :=
    [Sample.video "a" "youtube" []; Sample.video "b" "vimeo" [];
     Sample.video "c" "drive" []] in
  let self :=
    set_currentVideoId (Some (js "b"))
      (set_filteredVideos playlist (new 0)) in
  exists w,
    playlist !! ((1 + length [10; 20]) mod length playlist)%nat = Some w /\
    currentVideoId (nexts self [10; 20]) = Some (Video.id w) /\
    filteredVideos (nexts self [10; 20]) = playlist.
Proof.
  apply (nextVideo_goes_round
           (set_currentVideoId (Some (js "b"))
              (set_filteredVideos
                 [Sample.video "a" "youtube" []; Sample.video "b" "vimeo" [];
                  Sample.video "c" "drive" []] (new 0)))
           [10; 20] 1 (Sample.video "b" "vimeo" [])).
  - apply (bool_decide_unpack _). vm_compute. exact I.
  - reflexivity.
  - reflexivity.
Defined.

(** X17.  In a playlist without two entries of one id, the buttons of the
    previous and of the next entry undo each other, at the ends of the
    playlist too: from a selected entry, next then previous, and previous
    then next, both come back to it. *)
Theorem prevVideo_undoes_nextVideo (self : t) (now now' : Z) (i : nat)
    (v : Video.t) :
  NoDup (Video.id <$> filteredVideos self) ->
  filteredVideos self !! i = Some v ->
  currentVideoId self = Some (Video.id v) ->
  fst (prevVideo (snd (nextVideo self now)) now') = Some v /\
  fst (nextVideo (snd (prevVideo self now)) now') = Some v.
Proof.
  intros Hnd Hi Hcur. pose proof (lookup_lt_Some _ _ _ Hi) as Hlt.
  set (n := length (filteredVideos self)) in *. split.
  - destruct (nextVideo_at self now i v Hnd Hi Hcur)
      as (w & Hw & _ & Hcur' & Hviews).
    destruct (prevVideo_at (snd (nextVideo self now)) now' (S i mod n) w)
      as (u & Hu & -> & _); rewrite ?Hviews; try done.
    rewrite Hviews in Hu. fold n in Hu. rewrite <- Hi, <- Hu. do 2 f_equal.
    destruct (decide (S i = n)) as [Heq|Hne].
    + rewrite Heq, Nat.Div0.mod_same. rewrite Nat.mod_small; lia.
    + rewrite (Nat.mod_small (S i)) by lia.
      replace (S i + n - 1)%nat with (i + 1 * n)%nat by lia.
      rewrite Nat.Div0.mod_add. rewrite Nat.mod_small; lia.
  - destruct (prevVideo_at self now i v Hnd Hi Hcur)
      as (w & Hw & _ & Hcur' & Hviews).
    destruct (nextVideo_at (snd (prevVideo self now)) now'
                ((i + n - 1) mod n) w)
      as (u & Hu & -> & _); rewrite ?Hviews; try done.
    rewrite Hviews in Hu. fold n in Hu. rewrite <- Hi, <- Hu. do 2 f_equal.
    destruct i as [|i'].
    + rewrite (Nat.mod_small (0 + n - 1)) by lia.
      replace (S (0 + n - 1)) with n by lia. by rewrite Nat.Div0.mod_same.
    + replace (S i' + n - 1)%nat with (i' + 1 * n)%nat by lia.
      rewrite Nat.Div0.mod_add. rewrite (Nat.mod_small i') by lia.
      rewrite Nat.mod_small; lia.
Qed.

Lemma prevVideo_undoes_nextVideo_witness :
  let playlist :=
    [Sample.video "a" "youtube" []; Sample.video "b" "vimeo" [];
     Sample.video "c" "drive" []] in
  let self :=
    set_currentVideoId (Some (js "c"))
      (set_filteredVideos playlist (new 0)) in
  fst (prevVideo (snd (nextVideo self 10)) 20)
  = Some (Sample.video "c" "drive" []) /\
  fst (nextVideo (snd (prevVideo self 10)) 20)
  = Some (Sample.video "c" "drive" []).
Proof.
  apply (prevVideo_undoes_nextVideo
           (set_currentVideoId (Some (js "c"))
              (set_filteredVideos
                 [Sample.video "a" "youtube" []; Sample.video "b" "vimeo" [];
                  Sample.video "c" "drive" []] (new 0)))
           10 20 2 (Sample.video "c" "drive" [])).
  - apply (bool_decide_unpack _). vm_compute. exact I.
  - reflexivity.
  - reflexivity.
Defined.
End Navigation.

(* ================================================================== *)
(** * What the playlist shows, and in which order *)
(* ================================================================== *)

Section Views.
Import EnhancedVideoManager.

(** ** Sorting by a score *)

Lemma sort_insert_by_key {A} (key : A -> Q) (x : A) (l : list A) :
  StronglySorted (fun a b => (key b <= key a)%Q) l ->
  StronglySorted (fun a b => (key b <= key a)%Q)
                 (sort_insert (fun a b => (key b - key a)%Q) x l).
Proof.
  induction 1 as [|y l Hl IH Hy]; simpl; [by repeat constructor|].
  destruct (Qle_bool (key y - key x) 0) eqn:Hcmp.
  - apply Qle_bool_iff in Hcmp.
    constructor; [by constructor|]. constructor; [lra|].
    eapply Forall_impl; [exact Hy|]. simpl. intros z Hz. lra.
  - assert (~ (key y - key x <= 0)%Q) as Hgt.
    { rewrite <- Qle_bool_iff. by rewrite Hcmp. }
    constructor; [done|].
    rewrite sort_insert_Permutation. constructor; [lra|done].
Qed.

Lemma js_sort_by_key {A} (key : A -> Q) (l : list A) :
  StronglySorted (fun a b => (key b <= key a)%Q)
                 (js_sort (fun a b => (key b - key a)%Q) l).
Proof.
  induction l as [|x l IH]; [constructor|].
  unfold js_sort in *. simpl. by apply sort_insert_by_key.
Qed.

Lemma StronglySorted_on {A} (R R' : A -> A -> Prop) (l : list A) :
  (forall x y, x ∈ l -> y ∈ l -> R x y -> R' x y) ->
  StronglySorted R l -> StronglySorted R' l.
Proof.
  intros Himpl Hs. induction Hs as [|x l Hl IH Hx]; constructor.
  - apply IH. intros a b Ha Hb. apply Himpl; by apply list_elem_of_further.
  - apply Forall_forall. intros y Hy. apply Himpl.
    + apply list_elem_of_here.
    + by apply list_elem_of_further.
    + rewrite Forall_forall in Hx. by apply Hx.
Qed.

(** X13.  [getPopularVideos] ranks: its result is the first [limit]
    entries of a rearrangement of the list in which no entry comes
    before an entry with a greater popularity score. *)
Theorem getPopularVideos_ranks (self : VideoAnalytics.t) (now : Z)
    (videos : list Video.t) (limit : nat) :
  exists ranked,
    ranked ≡ₚ videos /\
    StronglySorted
      (fun a b =>
         (VideoAnalytics.calculatePopularityScore self now b
          <= VideoAnalytics.calculatePopularityScore self now a)%Q) ranked /\
    VideoAnalytics.getPopularVideos self now videos limit = take limit ranked.
Proof.
  unfold VideoAnalytics.getPopularVideos. cbv zeta.
  set (score := VideoAnalytics.calculatePopularityScore self now).
  set (items := (fun video => (video, score video)) <$> videos).
  exists (fst <$> js_sort (fun a b => (snd b - snd a)%Q) items).
  split; [|split].
  - rewrite js_sort_Permutation. subst items.
    rewrite <- list_fmap_compose. by rewrite list_fmap_id.
  - apply (StronglySorted_fmap fst
             (fun a b => (score (fst b) <= score (fst a))%Q)); [done|].
    apply (StronglySorted_on (fun a b => (snd b <= snd a)%Q));
      [|apply (js_sort_by_key snd)].
    intros a b Ha Hb. rewrite js_sort_Permutation in Ha, Hb. subst items.
    apply list_elem_of_fmap in Ha as (va & -> & _).
    apply list_elem_of_fmap in Hb as (vb & -> & _). done.
  - by rewrite fmap_take.
Qed.

Lemma getPopularVideos_all (self : VideoAnalytics.t) (now : Z)
    (videos : list Video.t) :
  VideoAnalytics.getPopularVideos self now videos (length videos) ≡ₚ videos.
Proof.
  unfold VideoAnalytics.getPopularVideos. cbv zeta.
  rewrite take_ge.
  - rewrite js_sort_Permutation, <- list_fmap_compose. by rewrite list_fmap_id.
  - by rewrite js_sort_Permutation, length_fmap.
Qed.

Lemma sortVideos_Permutation (host : Host) (now : Z) (self : t)
    (videos : list Video.t) (sortOption : jsstring) :
  sortVideos host now self videos sortOption ≡ₚ videos.
Proof.
  unfold sortVideos.
  repeat (case_decide; [by rewrite js_sort_Permutation|]).
  case_decide; [apply getPopularVideos_all|done].
Qed.

(** X14.  Sorting never loses or repeats an entry: whatever the sort
    option, a known one or not, the result of [sortVideos] is a
    rearrangement of the list it is given; and under the option
    [popularity] no entry comes before an entry with a greater
    popularity score. *)
Theorem sortVideos_rearranges (host : Host) (now : Z) (self : t)
    (videos : list Video.t) (sortOption : jsstring) :
  sortVideos host now self videos sortOption ≡ₚ videos /\
  StronglySorted
    (fun a b =>
       (calculatePopularityScore self now b
        <= calculatePopularityScore self now a)%Q)
    (sortVideos host now self videos (js "popularity")).
Proof.
  split; [apply sortVideos_Permutation|].
  unfold sortVideos.
  repeat (rewrite decide_False by discriminate).
  rewrite decide_True by done.
  apply (js_sort_by_key (calculatePopularityScore self now)).
Qed.

(** ** The entries of the playlist *)

Lemma searchVideos_elem (videos : list Video.t) (term : jsstring)
    (video : Video.t) :
  term <> [] ->
  video ∈ searchVideos videos term <->
  video ∈ videos /\ entry_matches term video.
Proof.
  intros Hterm. unfold searchVideos. cbv zeta.
  rewrite list_elem_of_In, filter_In, <- list_elem_of_In.
  change CONFIG.SEARCH.FUZZY_SEARCH with true. cbv iota.
  rewrite existsb_exists. unfold entry_matches, loose_match.
  assert (toLowerCase term <> []) as Hne by by destruct term.
  split.
  - intros (Hin & field & Hf & Hm). split; [done|]. exists field. split.
    + by apply list_elem_of_In.
    + by apply fuzzyMatch_sublist.
  - intros (Hin & field & Hf & Hm). split; [done|]. exists field. split.
    + by apply list_elem_of_In.
    + by apply fuzzyMatch_sublist.
Qed.

(** X15.  The playlist shows exactly the entries of the catalog that pass
    the platform filter and the search: an entry is in [filteredVideos]
    after [applyFiltersAndSearch] if and only if it is in [allVideos],
    its type is the platform of the filter (when the filter is neither
    empty nor [all]) and one of its search fields matches the search
    term loosely (when the term has at least two units; a shorter term
    is ignored). *)
Theorem applyFiltersAndSearch_shows_exactly (host : Host) (now : Z) (self : t)
    (video : Video.t) :
  video ∈ filteredVideos (applyFiltersAndSearch host now self) <->
  video ∈ allVideos self /\
  (currentFilters_platform self = [] \/
   currentFilters_platform self = js "all" \/
   Video.type video = currentFilters_platform self) /\
  ((length (currentSearchTerm self) < 2)%nat \/
   entry_matches (currentSearchTerm self) video).
Proof.
  unfold applyFiltersAndSearch. cbv zeta.
  change (filteredVideos (set_filteredVideos ?x self)) with x.
  rewrite sortVideos_Permutation.
  set (platform := currentFilters_platform self).
  set (term := currentSearchTerm self).
  set (kept := if truthy platform && negb (bool_decide (platform = js "all"))
               then List.filter _ (allVideos self) else allVideos self).
  assert (video ∈ kept <->
          video ∈ allVideos self /\
          (platform = [] \/ platform = js "all" \/ Video.type video = platform))
    as Hkept.
  { subst kept. destruct platform as [|c platform'] eqn:Hp; simpl.
    { split; [by auto|by intros [? _]]. }
    case_bool_decide as Hall; simpl.
    { split; [by auto|by intros [? _]]. }
    rewrite list_elem_of_In, filter_In, <- list_elem_of_In.
    rewrite bool_decide_eq_true. split.
    - intros [? ?]. auto.
    - intros [? [?|[?|?]]]; done. }
  clearbody kept.
  change CONFIG.SEARCH.MIN_SEARCH_LENGTH with 2%nat.
  destruct (Nat.leb_spec 2 (length term)) as [Hlen|Hlen].
  - assert (term <> []) as Hne by (intros H; rewrite H in Hlen; simpl in Hlen; lia).
    assert (truthy term = true) as -> by by destruct term.
    simpl. rewrite searchVideos_elem by done. rewrite Hkept.
    split.
    + intros [[? ?] ?]. auto.
    + intros (? & ? & [?|?]); [lia|done].
  - rewrite andb_false_r. rewrite Hkept. split.
    + intros [? ?]. auto.
    + intros (? & ? & _). done.
Qed.
End Views.

(* ================================================================== *)
(** * The popularity score *)
(* ================================================================== *)

Section Popularity.
Import EnhancedVideoManager.

(** In a ledger with one record per entry, the record [find] returns is
    the record of the entry. *)
Lemma getRecentlyPlayedData_count (self : t) (videoId : jsstring) (n : Z) :
  NoDup (id <$> recentlyPlayed self) ->
  recentPlayCount (recentlyPlayed self) videoId n ->
  match getRecentlyPlayedData self videoId with
  | Some data => playCount data
  | None => 0
  end = n.
Proof.
  unfold getRecentlyPlayedData. intros Hnd Hcount.
  destruct (List.find _ _) as [data|] eqn:Hfind.
  - apply find_some in Hfind as [Hin Hid].
    apply bool_decide_eq_true in Hid. apply list_elem_of_In in Hin.
    destruct Hcount as [(r & Hr & Hrid & Hrn)|[Hnone _]].
    + assert (r = data) as ->; [|done].
      apply list_elem_of_lookup in Hr as [i Hi].
      apply list_elem_of_lookup in Hin as [j Hj].
      assert (i = j) as ->; [|congruence].
      eapply NoDup_lookup; [exact Hnd| |].
      * rewrite list_lookup_fmap, Hi. reflexivity.
      * rewrite list_lookup_fmap, Hj. simpl. congruence.
    + by apply Hnone in Hin.
  - destruct Hcount as [(r & Hr & Hrid & Hrn)|[_ ->]]; [|done].
    apply list_elem_of_In in Hr. eapply find_none in Hfind; [|exact Hr].
    simpl in Hfind. apply bool_decide_eq_false in Hfind. done.
Qed.

(** C5, as amended.  The score that the popularity sort and the badge of
    a popular entry both use is
    viewCount + 10 * recentPlayCount + 0.5 * analyticsScore, where
    analyticsScore is 10 * plays + 20 * completions + recency bonus, taken
    from the statistics of the session; it is
    viewCount + 10 * recentPlayCount for an entry without statistics. *)
Theorem popularity_score_adds_analytics (self : t) (now : Z)
    (video : Video.t) (n : Z) :
  NoDup (id <$> recentlyPlayed self) ->
  recentPlayCount (recentlyPlayed self) (Video.id video) n ->
  let stats := VideoAnalytics.getVideoStats (analytics self) (Video.id video) in
  let bonus :=
    match VideoAnalytics.lastPlayed stats with
    | Some played =>
        Qmax 0 (100 - inject_Z (now - played) / inject_Z 86400000)%Q
    | None => 0%Q
    end in
  let analyticsScore :=
    (inject_Z (10 * VideoAnalytics.playCount stats)
     + inject_Z (20 * VideoAnalytics.completionCount stats) + bonus)%Q in
  (calculatePopularityScore self now video
   == inject_Z (Video.viewCount video) + inject_Z (10 * n)
      + (1 # 2) * analyticsScore)%Q /\
  (VideoAnalytics.stats (analytics self) !! Video.id video = None ->
   calculatePopularityScore self now video
   == inject_Z (Video.viewCount video) + inject_Z (10 * n))%Q /\
  (forall (host : Host) (videos : list Video.t),
      sortVideos host now self videos (js "popularity")
      = js_sort (fun a b => (calculatePopularityScore self now b
                             - calculatePopularityScore self now a)%Q)
                videos) /\
  popularity_badge self now video
  = DuplicatePreventionService.Qgtb (calculatePopularityScore self now video)
                                    10.
Proof.
  intros Hnd Hcount. cbv zeta.
  pose proof (getRecentlyPlayedData_count self _ n Hnd Hcount) as Hn.
  assert (calculatePopularityScore self now video
          == inject_Z (Video.viewCount video) + inject_Z (10 * n)
             + (1 # 2) * VideoAnalytics.calculatePopularityScore
                           (analytics self) now video)%Q as Hscore.
  { unfold calculatePopularityScore. rewrite Hn.
    rewrite (Z.mul_comm n 10).
    assert (5 # 10 == 1 # 2)%Q as -> by reflexivity.
    rewrite (Qmult_comm _ (1 # 2)). reflexivity. }
  split; [|split; [|split]].
  - rewrite Hscore. unfold VideoAnalytics.calculatePopularityScore.
    rewrite !(Z.mul_comm _ 10), !(Z.mul_comm _ 20).
    reflexivity.
  - intros Hnone. rewrite Hscore.
    unfold VideoAnalytics.calculatePopularityScore,
      VideoAnalytics.getVideoStats.
    rewrite Hnone. simpl. unfold Qeq. simpl. lia.
  - intros host videos. reflexivity.
  - reflexivity.
Qed.

(** The manager after the sample entry was loaded at the instant 5 and the
    viewer reported success at the instant 6. *)
Lemma popularity_score_adds_analytics_witness :
  let self :=
    EnhancedVideoPlayer.videoManager
      (EnhancedVideoPlayer.run
         (EnhancedVideoPlayer.loadVideo Sample.online 5 (Some Sample.entry)
                                        Sample.player)
         [(6, EnhancedVideoPlayer.FrameLoad)]) in
  NoDup (id <$> recentlyPlayed self) /\
  recentPlayCount (recentlyPlayed self) (Video.id Sample.entry) 1 /\
  (calculatePopularityScore self 6 Sample.entry
   == inject_Z (Video.viewCount Sample.entry) + inject_Z (10 * 1)
      + (1 # 2) * (inject_Z (10 * 1) + inject_Z (20 * 0) + 100))%Q.
Proof.
  cbv zeta.
  set (self := EnhancedVideoPlayer.videoManager _).
  assert (NoDup (id <$> recentlyPlayed self)) as Hnd.
  { vm_compute. apply NoDup_singleton. }
  assert (recentPlayCount (recentlyPlayed self) (Video.id Sample.entry) 1)
    as Hcount.
  { left. eexists. split; [|split]; [vm_compute; apply list_elem_of_here| |];
      reflexivity. }
  split; [exact Hnd|]. split; [exact Hcount|].
  rewrite (proj1 (popularity_score_adds_analytics self 6 Sample.entry 1
                    Hnd Hcount)).
  vm_compute. reflexivity.
Defined.

(** C5, as stated, fails: for the sample entry, played once, with no
    views, the ledger holds the play count 1 and the score is 65, not
    0 + 10 * 1; the badge of a popular entry, which asks for a score
    above 10, is shown. *)
Lemma popularity_score_is_not_views_and_plays :
  let self :=
    EnhancedVideoPlayer.videoManager
      (EnhancedVideoPlayer.run
         (EnhancedVideoPlayer.loadVideo Sample.online 5 (Some Sample.entry)
                                        Sample.player)
         [(6, EnhancedVideoPlayer.FrameLoad)]) in
  Video.viewCount Sample.entry = 0 /\
  recentPlayCount (recentlyPlayed self) (Video.id Sample.entry) 1 /\
  (calculatePopularityScore self 6 Sample.entry == 65)%Q /\
  ~ (calculatePopularityScore self 6 Sample.entry
     == inject_Z (Video.viewCount Sample.entry) + inject_Z (10 * 1))%Q /\
  popularity_badge self 6 Sample.entry = true /\
  DuplicatePreventionService.Qgtb
    (inject_Z (Video.viewCount Sample.entry) + inject_Z (10 * 1)) 10 = false.
Proof.
  cbv zeta. split; [reflexivity|]. split.
  { left. eexists. split; [|split]; [vm_compute; apply list_elem_of_here| |];
      reflexivity. }
  split; [vm_compute; reflexivity|].
  split; [|split; vm_compute; reflexivity].
  intros H. vm_compute in H. discriminate.
Qed.
End Popularity.

(* ================================================================== *)
(** * The analytics of a session *)
(* ================================================================== *)

Section Analytics.
Import VideoAnalytics.

Lemma getVideoStats_saved (self : t) (videoId other : jsstring) (s : Stats) :
  getVideoStats (saveVideoStats self videoId s) other
  = if decide (other = videoId) then s else getVideoStats self other.
Proof.
  unfold getVideoStats, saveVideoStats. simpl.
  destruct (decide (other = videoId)) as [->|Hne].
  - by rewrite lookup_insert_eq.
  - by rewrite lookup_insert_ne.
Qed.

Lemma occurrences_cons (event : Event) (videoId : jsstring) (e : Tracked)
    (events : list Tracked) :
  occurrences event videoId (e :: events)
  = (if bool_decide (t_event e = event)
        && bool_decide (Video.id (t_video e) = videoId) then 1 else 0)
    + occurrences event videoId events.
Proof.
  unfold occurrences. simpl. destruct (_ && _); simpl; lia.
Qed.

(** One event: the counter of its kind moves by one for its entry, and
    nothing else moves. *)
Lemma trackVideoEvent_counts_one (self : t) (e : Tracked)
    (videoId : jsstring) :
  let before := getVideoStats self videoId in
  let after :=
    getVideoStats (trackVideoEvent self (t_now e) (t_event e) (t_video e)
                                   (t_duration e)) videoId in
  playCount after = playCount before + occurrences play videoId [e] /\
  completionCount after
  = completionCount before + occurrences complete videoId [e] /\
  errorCount after = errorCount before + occurrences error videoId [e] /\
  loadCount after = loadCount before + occurrences load videoId [e] /\
  seekCount after = seekCount before + occurrences seek videoId [e].
Proof.
  cbv zeta. unfold trackVideoEvent, updateVideoStats. cbv zeta.
  rewrite getVideoStats_saved. unfold occurrences. simpl.
  destruct (decide (videoId = Video.id (t_video e))) as [->|Hne].
  - rewrite (bool_decide_eq_true_2 (Video.id (t_video e) = _)) by done.
    destruct (t_event e); simpl; repeat split; lia.
  - rewrite (bool_decide_eq_false_2 (Video.id (t_video e) = _)) by done.
    rewrite !andb_false_r. simpl. repeat split; lia.
Qed.

(** X12.  The analytics count: after any sequence of events, each of the
    five counters of an entry has grown by the number of events of its
    kind that concern the entry, and by nothing else; events of other
    entries and of other kinds leave it as it is. *)
Theorem trackVideoEvent_counts (self : t) (events : list Tracked)
    (videoId : jsstring) :
  let before := getVideoStats self videoId in
  let after := getVideoStats (tracks self events) videoId in
  playCount after = playCount before + occurrences play videoId events /\
  completionCount after
  = completionCount before + occurrences complete videoId events /\
  errorCount after = errorCount before + occurrences error videoId events /\
  loadCount after = loadCount before + occurrences load videoId events /\
  seekCount after = seekCount before + occurrences seek videoId events.
Proof.
  cbv zeta. revert self. induction events as [|e events IH]; intros self.
  - unfold occurrences. simpl. repeat split; lia.
  - cbn [tracks foldl].
    fold (tracks (trackVideoEvent self (t_now e) (t_event e) (t_video e)
                                  (t_duration e)) events).
    destruct (IH (trackVideoEvent self (t_now e) (t_event e) (t_video e)
                                  (t_duration e)))
      as (-> & -> & -> & -> & ->).
    destruct (trackVideoEvent_counts_one self e videoId)
      as (-> & -> & -> & -> & ->).
    rewrite !(occurrences_cons _ _ e events).
    rewrite !(occurrences_cons _ _ e []).
    unfold occurrences. simpl. lia.
Qed.
End Analytics.

(* ================================================================== *)
(** * Suggestions *)
(* ================================================================== *)

Section Suggestions.
Import SearchService.

Lemma suggestions_answer (query : jsstring) (videos : list Video.t) :
  Forall (answers query videos) (suggestions (toLowerCase query) videos).
Proof.
  unfold suggestions. apply Forall_app. split.
  - apply Forall_fmap, Forall_forall. intros video Hin.
    apply list_elem_of_In, filter_In in Hin as [Hin Hmatch].
    simpl. by rewrite list_elem_of_In.
  - apply Forall_fmap, Forall_forall. intros platform Hin.
    apply list_elem_of_In, filter_In in Hin as [Hin Hmatch].
    simpl. by rewrite list_elem_of_In.
Qed.

Lemma suggestions_titles_first (queryLower : jsstring)
    (videos : list Video.t) :
  exists titles others,
    suggestions queryLower videos = titles ++ others /\
    Forall (fun s => is_title s = true) titles /\
    Forall (fun s => is_title s = false) others.
Proof.
  unfold suggestions. eexists _, _. split; [reflexivity|].
  split; by apply Forall_fmap, Forall_true.
Qed.

(** X28.  What [getSuggestions] computes when its cache holds nothing for
    the query: at most [maxResults] suggestions; each is the title of an
    entry of the list that contains the query, case of the ASCII letters
    ignored, or the name of a platform that contains the lowercased
    query; the titles come first, then the platforms.  A query of fewer
    than two units gets no suggestion. *)
Theorem getSuggestions_answers_the_query (self : t) (query : jsstring)
    (videos : list Video.t) (maxResults : nat) :
  suggestionCache self !! (js "suggestions-" ++ query) = None ->
  let found := fst (getSuggestions self query videos maxResults) in
  (length found <= maxResults)%nat /\
  Forall (answers query videos) found /\
  (exists titles others,
     found = titles ++ others /\
     Forall (fun s => is_title s = true) titles /\
     Forall (fun s => is_title s = false) others) /\
  ((2 <= length query)%nat \/ found = []).
Proof.
  intros Hcache found. subst found. unfold getSuggestions.
  change CONFIG.SEARCH.MIN_SEARCH_LENGTH with 2%nat.
  destruct (Nat.ltb_spec (length query) 2) as [Hshort|Hlong].
  - cbn [fst]. split; [simpl; lia|]. split; [constructor|].
    split; [|by right]. exists [], []. by repeat split.
  - rewrite Hcache. cbn [fst].
    split; [rewrite length_take; lia|].
    split; [apply Forall_take, suggestions_answer|].
    split; [|by left].
    destruct (suggestions_titles_first (toLowerCase query) videos)
      as (titles & others & -> & Ht & Ho).
    exists (take maxResults titles),
           (take (maxResults - length titles) others).
    split; [apply take_app|]. split; by apply Forall_take.
Qed.

Lemma getSuggestions_answers_the_query_witness :
  let found := fst (getSuggestions new (js "tube") [Sample.entry] 10) in
  (length found <= 10)%nat /\
  Forall (answers (js "tube") [Sample.entry]) found /\
  (exists titles others,
     found = titles ++ others /\
     Forall (fun s => is_title s = true) titles /\
     Forall (fun s => is_title s = false) others) /\
  ((2 <= length (js "tube"))%nat \/ found = []).
Proof.
  apply (getSuggestions_answers_the_query new (js "tube") [Sample.entry] 10).
  reflexivity.
Defined.

(** X29.  The suggestions of a query are cached under the query alone:
    once [getSuggestions] has answered a query of at least two units,
    every later call for the same query returns the same suggestions,
    whatever the list of entries and whatever [maxResults] it is given,
    until [clearSuggestionCache]. *)
Theorem getSuggestions_answers_from_cache (self self' : t) (query : jsstring)
    (videos videos' : list Video.t) (maxResults maxResults' : nat)
    (found : list Suggestion) :
  (2 <= length query)%nat ->
  getSuggestions self query videos maxResults = (found, self') ->
  getSuggestions self' query videos' maxResults' = (found, self').
Proof.
  intros Hlen. unfold getSuggestions.
  change CONFIG.SEARCH.MIN_SEARCH_LENGTH with 2%nat.
  destruct (Nat.ltb_spec (length query) 2) as [?|_]; [lia|].
  destruct (suggestionCache self !! _) as [cached|] eqn:Hcache.
  - intros [= <- <-]. by rewrite Hcache.
  - intros [= <- <-]. simpl. by rewrite lookup_insert_eq.
Qed.

Lemma getSuggestions_answers_from_cache_witness :
  getSuggestions (snd (getSuggestions new (js "lecture") [Sample.entry] 10))
                 (js "lecture") [] 0
  = getSuggestions new (js "lecture") [Sample.entry] 10.
Proof.
  apply (getSuggestions_answers_from_cache new _ (js "lecture")
           [Sample.entry] [] 10 0).
  - simpl. lia.
  - vm_compute. reflexivity.
Defined.
End Suggestions.

(* ================================================================== *)
(** * The playback fallback engine *)
(* ================================================================== *)

Section Player.
Import EnhancedVideoPlayer.

Lemma startsWith_app (prefix rest : jsstring) :
  startsWith (prefix ++ rest) prefix = true.
Proof.
  induction prefix as [|c prefix IH]; simpl; [by destruct rest|].
  by rewrite decide_True.
Qed.

Lemma loadVideoById_checker (m : EnhancedVideoManager.t) (now : Z)
    (videoId : jsstring) :
  EnhancedVideoManager.availabilityChecker
    (snd (EnhancedVideoManager.loadVideoById m now videoId))
  = EnhancedVideoManager.availabilityChecker m.
Proof.
  unfold EnhancedVideoManager.loadVideoById.
  destruct (EnhancedVideoManager.findIndex _ _); [|done]. simpl.
  unfold EnhancedVideoManager.addToRecentlyPlayed.
  by destruct (EnhancedVideoManager.findIndex _ _).
Qed.

Lemma loadVideoById_notifications (m : EnhancedVideoManager.t) (now : Z)
    (videoId : jsstring) :
  EnhancedVideoManager.notifications
    (snd (EnhancedVideoManager.loadVideoById m now videoId))
  = EnhancedVideoManager.notifications m.
Proof.
  unfold EnhancedVideoManager.loadVideoById.
  destruct (EnhancedVideoManager.findIndex _ _); [|done]. simpl.
  unfold EnhancedVideoManager.addToRecentlyPlayed.
  by destruct (EnhancedVideoManager.findIndex _ _).
Qed.

(** What the first part of [loadVideo] leaves of the player. *)
Lemma loadVideo_reset_frame (now : Z) (video : Video.t) (p : t) :
  let p' := loadVideo_reset now video p in
  EnhancedVideoManager.availabilityChecker (videoManager p')
  = EnhancedVideoManager.availabilityChecker (videoManager p)
  /\ EnhancedVideoManager.notifications (videoManager p')
     = EnhancedVideoManager.notifications (videoManager p)
  /\ videoPlayer_src p' = videoPlayer_src p
  /\ videoPlayer_handlers p' = videoPlayer_handlers p
  /\ timers p' = timers p
  /\ next_timer p' = next_timer p
  /\ currentEmbedIndex p' = 0%nat
  /\ fallbackMessage_display p' = none.
Proof.
  unfold loadVideo_reset. simpl.
  rewrite loadVideoById_checker, loadVideoById_notifications. done.
Qed.

(** What the last part of [loadVideo] does to the player. *)
Lemma loadVideo_attempt_frame (video : Video.t) (embedUrls : list jsstring)
    (badgeClass badgeText : jsstring) (p : t) :
  let p' := loadVideo_attempt video embedUrls badgeClass badgeText p in
  videoPlayer_handlers p'
  = Some {| h_video := video; h_embedUrls := embedUrls;
            h_badgeText := badgeText; h_loadingTimeout := next_timer p |}
  /\ videoPlayer_src p'
     = videoPlayer_src p ++ [default (js "undefined") (embedUrls !! 0%nat)]
  /\ timers p' = timers p ++ [(next_timer p, video)]
  /\ next_timer p' = S (next_timer p)
  /\ currentEmbedIndex p' = currentEmbedIndex p
  /\ fallbackMessage_display p' = fallbackMessage_display p
  /\ videoManager p' = videoManager p.
Proof. destruct p. cbv. repeat split. Qed.

(** [loadVideo] on an entry that is not direct, that has a candidate and
    that the probe reports available. *)
Lemma loadVideo_available (net : Network) (now : Z) (video : Video.t) (p : t) :
  Video.type video <> js "direct" ->
  (0 < length (candidates video))%nat ->
  probe net video p = true ->
  let p' := loadVideo net now (Some video) p in
  attempting {| h_video := video; h_embedUrls := candidates video;
                h_badgeText := snd (platformConfig (Video.type video));
                h_loadingTimeout := next_timer p |}
             (videoPlayer_src p) 0 p'
  /\ timers p' = timers p ++ [(next_timer p, video)]
  /\ next_timer p' = S (next_timer p)
  /\ EnhancedVideoManager.notifications (videoManager p')
     = EnhancedVideoManager.notifications (videoManager p).
Proof.
  intros Hty Hlen Hprobe. unfold probe in Hprobe. unfold loadVideo. cbv zeta.
  destruct (loadVideo_reset_frame now video p)
    as (Hck & Hno & Hsrc & Hh & Hti & Hnt & Hidx & Hfb).
  set (p0 := loadVideo_reset now video p) in *. clearbody p0.
  destruct (platformConfig (Video.type video)) as [badgeClass badgeText].
  rewrite decide_False by done. rewrite Hck.
  destruct (VideoAvailabilityChecker.checkVideoAvailability _ net video)
    as [isAvailable checker].
  cbn [fst] in Hprobe. subst isAvailable. cbn [negb].
  set (p1 := set_videoManager _ p0).
  assert (videoPlayer_src p1 = videoPlayer_src p0
          /\ timers p1 = timers p0 /\ next_timer p1 = next_timer p0
          /\ currentEmbedIndex p1 = currentEmbedIndex p0
          /\ fallbackMessage_display p1 = fallbackMessage_display p0
          /\ EnhancedVideoManager.notifications (videoManager p1)
             = EnhancedVideoManager.notifications (videoManager p0))
    as (Hsrc1 & Hti1 & Hnt1 & Hidx1 & Hfb1 & Hno1) by done.
  clearbody p1.
  destruct (loadVideo_attempt_frame video (candidates video) badgeClass
              badgeText p1) as (Ah & Asrc & Ati & Ant & Aidx & Afb & Avm).
  set (p2 := loadVideo_attempt _ _ _ _ p1) in *. clearbody p2.
  cbn [snd]. split; [split|].
  - rewrite Ah. congruence.
  - congruence.
  - rewrite Asrc, Hsrc1, Hsrc. cbn [h_embedUrls]. f_equal.
    destruct (candidates video) as [|u us]; [simpl in Hlen; lia|done].
  - congruence.
  - rewrite Ati, Ant, Avm. repeat split; congruence.
Qed.

(** ** One signal *)

(** An error while a later candidate is left: the engine hands it to the
    viewer. *)
Lemma error_advances (now : Z) (h : Handlers) (old : list jsstring) (k : nat)
    (p : t) :
  attempting h old k p ->
  (S k < length (h_embedUrls h))%nat ->
  attempting h old (S k) (handle now p FrameError).
Proof.
  intros [Hh Hidx Hsrc Hfb] Hlt. simpl. rewrite Hh.
  unfold onError, handleEmbedError. simpl. rewrite Hidx.
  destruct (Nat.ltb_spec (S k) (length (h_embedUrls h))) as [_|?]; [|lia].
  destruct (lookup_lt_is_Some_2 (h_embedUrls h) (S k) Hlt) as [u Hu].
  split; simpl; try done.
  rewrite Hsrc, Hu. simpl. rewrite <- app_assoc. f_equal.
  by rewrite (take_S_r _ _ _ Hu).
Qed.

(** An error on the last candidate: the fallback message is shown. *)
Lemma error_exhausts (now : Z) (h : Handlers) (old : list jsstring) (k : nat)
    (p : t) :
  attempting h old k p ->
  (length (h_embedUrls h) <= S k)%nat ->
  let p' := handle now p FrameError in
  videoPlayer_src p' = videoPlayer_src p /\
  currentEmbedIndex p' = S k /\
  fallbackMessage_display p' = flex /\
  sessionState p' = Failed.
Proof.
  intros [Hh Hidx Hsrc Hfb] Hge. simpl. rewrite Hh.
  unfold onError, handleEmbedError. simpl. rewrite Hidx.
  destruct (Nat.ltb_spec (S k) (length (h_embedUrls h))) as [?|_]; [lia|].
  done.
Qed.

(** A success signal: the engine reports the load. *)
Lemma load_succeeds (now : Z) (h : Handlers) (old : list jsstring) (k : nat)
    (p : t) :
  attempting h old k p ->
  let p' := handle now p FrameLoad in
  videoPlayer_src p' = videoPlayer_src p /\
  currentEmbedIndex p' = k /\
  fallbackMessage_display p' = none /\
  sessionState p' = Loaded.
Proof.
  intros [Hh Hidx Hsrc Hfb]. simpl. rewrite Hh.
  unfold onLoad, sessionState. simpl. rewrite Hfb.
  repeat split; try done.
  rewrite last_snoc. simpl. by destruct (h_badgeText h ++ js " video").
Qed.

(** ** Runs of signals *)

Lemma run_app (p : t) (l1 l2 : list (Z * Signal)) :
  run p (l1 ++ l2) = run (run p l1) l2.
Proof. apply foldl_app. Qed.

(** Errors on candidates that have a successor walk down the list. *)
Lemma errors_advance (h : Handlers) (old : list jsstring) (times : list Z)
    (k : nat) (p : t) :
  attempting h old k p ->
  (k + length times < length (h_embedUrls h))%nat ->
  attempting h old (k + length times) (run p (errors times)).
Proof.
  revert k p. induction times as [|t times IH]; intros k p Hatt Hlt.
  - simpl. by rewrite Nat.add_0_r.
  - simpl in *. replace (k + S (length times))%nat
      with (S k + length times)%nat by lia.
    apply IH; [|lia]. apply error_advances; [done|lia].
Qed.

(** A run of explicit signals: the first N-1 candidates fail and the last
    loads, or all N fail. *)
Lemma run_attempts_in_order (net : Network) (now : Z)
    (video : Video.t) (embedUrls : list jsstring) (p : t) :
  Video.embedUrls video = Some embedUrls ->
  (1 <= length embedUrls)%nat ->
  Video.type video <> js "direct" ->
  probe net video p = true ->
  (forall (times : list Z) (time : Z),
      length times = (length embedUrls - 1)%nat ->
      let p' := run (loadVideo net now (Some video) p)
                    (errors times ++ [(time, FrameLoad)]) in
      videoPlayer_src p' = videoPlayer_src p ++ embedUrls /\
      sessionState p' = Loaded) /\
  (forall (times : list Z),
      length times = length embedUrls ->
      let p' := run (loadVideo net now (Some video) p) (errors times) in
      videoPlayer_src p' = videoPlayer_src p ++ embedUrls /\
      sessionState p' = Failed /\
      fallbackMessage_display p' = flex).
Proof.
  intros Hurls Hlen Hty Hprobe.
  assert (candidates video = embedUrls) as Hc
    by (unfold candidates; by rewrite Hurls).
  destruct (loadVideo_available net now video p Hty) as (Hatt & _);
    [rewrite Hc; lia|done|].
  rewrite Hc in Hatt.
  set (p1 := loadVideo net now (Some video) p) in *. clearbody p1.
  set (h := {| h_video := video; h_embedUrls := embedUrls;
               h_badgeText := _; h_loadingTimeout := _ |}) in *.
  split.
  - intros times time Htimes. cbv zeta. rewrite run_app.
    pose proof (errors_advance h _ times 0 p1 Hatt) as Hk.
    cbn [h_embedUrls h] in Hk. specialize (Hk ltac:(lia)).
    destruct (load_succeeds time h _ _ _ Hk) as (Hsrc & _ & _ & Hst).
    cbn [run foldl fst snd]. split; [|done].
    rewrite Hsrc, (att_src _ _ _ _ Hk). f_equal. cbn [h_embedUrls h].
    apply take_ge. lia.
  - intros times Htimes. cbv zeta.
    destruct times as [|time times _] using rev_ind; [simpl in *; lia|].
    rewrite length_app in Htimes. simpl in Htimes.
    unfold errors. rewrite fmap_app. fold (errors times). rewrite run_app.
    pose proof (errors_advance h _ times 0 p1 Hatt) as Hk.
    cbn [h_embedUrls h] in Hk. specialize (Hk ltac:(lia)).
    destruct (error_exhausts time h _ _ _ Hk) as (Hsrc & _ & Hfb & Hst);
      [cbn [h_embedUrls h]; lia|].
    cbn [run foldl fst snd fmap list_fmap]. split; [|done].
    rewrite Hsrc, (att_src _ _ _ _ Hk). f_equal. cbn [h_embedUrls h].
    apply take_ge. lia.
Qed.

(** ** The engine and its viewer *)

(** When the engine has handed over nothing new, the viewer is silent. *)
Lemma converse_silent (fuel : nat) (viewer : nat -> Z * Signal) (p : t) :
  converse fuel viewer (length (videoPlayer_src p)) p = p.
Proof. destruct fuel; [done|]. simpl. by rewrite Nat.ltb_irrefl. Qed.

Lemma attempting_length (h : Handlers) (old : list jsstring) (k : nat)
    (p : t) :
  attempting h old k p -> (k < length (h_embedUrls h))%nat ->
  length (videoPlayer_src p) = (length old + S k)%nat.
Proof.
  intros Hatt Hk. rewrite (att_src _ _ _ _ Hatt), length_app, length_take.
  lia.
Qed.

(** The viewer refuses the candidates from [k] to the last but one and
    takes the last: the engine walks down the list and reports the load. *)
Lemma converse_loads (h : Handlers) (old : list jsstring)
    (viewer : nat -> Z * Signal) (n k fuel : nat) (p : t) :
  attempting h old k p ->
  (S (k + n) = length (h_embedUrls h))%nat ->
  (S n <= fuel)%nat ->
  (forall i, (k <= i < k + n)%nat -> snd (viewer i) = FrameError) ->
  snd (viewer (k + n)%nat) = FrameLoad ->
  let p' := converse fuel viewer (length old + k) p in
  videoPlayer_src p' = old ++ h_embedUrls h /\ sessionState p' = Loaded.
Proof.
  revert k fuel p. induction n as [|n IH]; intros k fuel p Hatt HN Hfuel Herr Hload.
  - destruct fuel as [|fuel]; [lia|]. cbv zeta. cbn [converse].
    rewrite (attempting_length _ _ _ _ Hatt) by lia.
    destruct (Nat.ltb_spec (length old + k) (length old + S k)); [|lia].
    rewrite (att_index _ _ _ _ Hatt).
    rewrite Nat.add_0_r in Hload.
    destruct (viewer k) as [now signal]. simpl in Hload. subst signal.
    destruct (load_succeeds now h _ _ _ Hatt) as (Hsrc & _ & _ & Hst).
    rewrite <- (attempting_length _ _ _ _ Hatt) by lia.
    rewrite <- Hsrc, converse_silent. split; [|done].
    rewrite Hsrc, (att_src _ _ _ _ Hatt), take_ge; [done|lia].
  - destruct fuel as [|fuel]; [lia|]. cbv zeta. cbn [converse].
    rewrite (attempting_length _ _ _ _ Hatt) by lia.
    destruct (Nat.ltb_spec (length old + k) (length old + S k)); [|lia].
    rewrite (att_index _ _ _ _ Hatt).
    pose proof (Herr k ltac:(lia)) as Hk.
    destruct (viewer k) as [now signal]. simpl in Hk. subst signal.
    apply (IH (S k)).
    + apply error_advances; [done|lia].
    + lia.
    + lia.
    + intros i Hi. apply Herr. lia.
    + by rewrite Nat.add_succ_comm.
Qed.

(** The viewer refuses every candidate from [k] on: the engine walks down
    the list and shows the fallback message. *)
Lemma converse_fails (h : Handlers) (old : list jsstring)
    (viewer : nat -> Z * Signal) (n k fuel : nat) (p : t) :
  attempting h old k p ->
  (S (k + n) = length (h_embedUrls h))%nat ->
  (S n <= fuel)%nat ->
  (forall i, (k <= i <= k + n)%nat -> snd (viewer i) = FrameError) ->
  let p' := converse fuel viewer (length old + k) p in
  videoPlayer_src p' = old ++ h_embedUrls h /\ sessionState p' = Failed.
Proof.
  revert k fuel p. induction n as [|n IH]; intros k fuel p Hatt HN Hfuel Herr.
  - destruct fuel as [|fuel]; [lia|]. cbv zeta. cbn [converse].
    rewrite (attempting_length _ _ _ _ Hatt) by lia.
    destruct (Nat.ltb_spec (length old + k) (length old + S k)); [|lia].
    rewrite (att_index _ _ _ _ Hatt).
    pose proof (Herr k ltac:(lia)) as Hk.
    destruct (viewer k) as [now signal]. simpl in Hk. subst signal.
    destruct (error_exhausts now h _ _ _ Hatt) as (Hsrc & _ & _ & Hst); [lia|].
    rewrite <- (attempting_length _ _ _ _ Hatt) by lia.
    rewrite <- Hsrc, converse_silent. split; [|done].
    rewrite Hsrc, (att_src _ _ _ _ Hatt), take_ge; [done|lia].
  - destruct fuel as [|fuel]; [lia|]. cbv zeta. cbn [converse].
    rewrite (attempting_length _ _ _ _ Hatt) by lia.
    destruct (Nat.ltb_spec (length old + k) (length old + S k)); [|lia].
    rewrite (att_index _ _ _ _ Hatt).
    pose proof (Herr k ltac:(lia)) as Hk.
    destruct (viewer k) as [now signal]. simpl in Hk. subst signal.
    apply (IH (S k)).
    + apply error_advances; [done|lia].
    + lia.
    + lia.
    + intros i Hi. apply Herr. lia.
Qed.




(** ** The loading timeout *)

Lemma find_last_hit {A} (f : A -> bool) (l : list A) (x : A) :
  f x = true -> exists y, List.find f (l ++ [x]) = Some y.
Proof.
  intros Hx. induction l as [|z l IH]; simpl.
  - rewrite Hx. eauto.
  - destruct (f z); eauto.
Qed.

Lemma find_filtered_out {A} (f : A -> bool) (l : list A) :
  List.find f (List.filter (fun e => negb (f e)) l) = None.
Proof.
  induction l as [|z l IH]; simpl; [done|].
  destruct (f z) eqn:Hz; simpl; [done|]. by rewrite Hz.
Qed.

(** The timeout of a session elapses: the fallback message is shown and
    nothing else moves. *)
Lemma timeout_shows_fallback (time : Z) (timer : nat) (video : Video.t)
    (p : t) :
  (exists l, timers p = l ++ [(timer, video)]) ->
  let p' := handle time p (TimeoutElapsed timer) in
  videoPlayer_src p' = videoPlayer_src p /\
  currentEmbedIndex p' = currentEmbedIndex p /\
  fallbackMessage_display p' = flex /\
  sessionState p' = Failed.
Proof.
  intros [l Hl]. simpl. rewrite Hl.
  destruct (find_last_hit (fun e : nat * Video.t => (fst e =? timer)%nat) l
              (timer, video)) as [[timer' video'] ->];
    [simpl; apply Nat.eqb_refl|].
  done.
Qed.

(** The first answer of the viewer cancels the timeout of the session,
    and starts none. *)
Lemma signal_cancels_timeout (time : Z) (h : Handlers) (old : list jsstring)
    (k : nat) (signal : Signal) (p : t) :
  attempting h old k p ->
  signal = FrameError \/ signal = FrameLoad ->
  let p' := handle time p signal in
  timers p'
  = List.filter (fun e => negb (fst e =? h_loadingTimeout h)%nat) (timers p)
  /\ next_timer p' = next_timer p.
Proof.
  intros [Hh Hidx Hsrc Hfb] [->| ->]; simpl; rewrite Hh.
  - unfold onError, handleEmbedError. simpl.
    by destruct (_ <? _)%nat.
  - done.
Qed.




(** ** The availability probe *)

(** The probe turns the failure of its requests into the answer [false]:
    with every request rejected and nothing cached, an entry that the
    probe has a request for is reported unavailable. *)
Lemma probe_resolves_failures (self : VideoAvailabilityChecker.t)
    (net : Network) (video : Video.t) (url : jsstring) :
  (forall request, net request = Rejected) ->
  VideoAvailabilityChecker.cache self
    !! VideoAvailabilityChecker.cacheKey video = None ->
  Video.url video = Some url ->
  startsWith url (js "http") = true
  \/ Video.type video ∈ [js "direct"; js "youtube"; js "drive"; js "vimeo"] ->
  fst (VideoAvailabilityChecker.checkVideoAvailability self net video) = false.
Proof.
  intros Hnet Hcache Hurl Hcase.
  unfold VideoAvailabilityChecker.checkVideoAvailability.
  rewrite Hcache, Hurl.
  assert (forall u, VideoAvailabilityChecker.checkDirectUrl self net u = false)
    as Hdirect.
  { intros u. unfold VideoAvailabilityChecker.checkDirectUrl.
    by rewrite !Hnet. }
  assert (forall u, VideoAvailabilityChecker.probe self net u = false)
    as Hprobe.
  { intros u. unfold VideoAvailabilityChecker.probe. by rewrite Hnet. }
  case_decide; [simpl; by rewrite Hdirect|].
  destruct (startsWith url (js "http")) eqn:Hhttp; [simpl; by rewrite Hdirect|].
  destruct Hcase as [?|Hty]; [done|].
  unfold VideoAvailabilityChecker.checkWithFallback,
    VideoAvailabilityChecker.checkYouTubeAvailability,
    VideoAvailabilityChecker.checkDriveAvailability,
    VideoAvailabilityChecker.checkVimeoAvailability.
  repeat (case_decide; [simpl; by rewrite Hprobe|]).
  repeat (apply elem_of_cons in Hty as [?|Hty]; [done|]).
  by apply elem_of_nil in Hty.
Qed.

(** [loadVideo] on an entry that is not direct and that the probe reports
    unavailable. *)
Lemma loadVideo_unavailable (net : Network) (now : Z) (video : Video.t)
    (p : t) :
  Video.type video <> js "direct" ->
  probe net video p = false ->
  let p' := loadVideo net now (Some video) p in
  videoPlayer_src p' = videoPlayer_src p /\
  videoPlayer_handlers p' = videoPlayer_handlers p /\
  timers p' = timers p /\
  fallbackMessage_display p' = flex /\
  sessionState p' = Failed /\
  EnhancedVideoManager.notifications (videoManager p')
  = EnhancedVideoManager.notifications (videoManager p)
    ++ [{| EnhancedVideoManager.message := js "Video may not be available";
           EnhancedVideoManager.kind := js "warning" |}].
Proof.
  intros Hty Hprobe. unfold probe in Hprobe. unfold loadVideo. cbv zeta.
  destruct (loadVideo_reset_frame now video p)
    as (Hck & Hno & Hsrc & Hh & Hti & Hnt & Hidx & Hfb).
  set (p0 := loadVideo_reset now video p) in *. clearbody p0.
  destruct (platformConfig (Video.type video)) as [badgeClass badgeText].
  rewrite decide_False by done. rewrite Hck.
  destruct (VideoAvailabilityChecker.checkVideoAvailability _ net video)
    as [isAvailable checker].
  cbn [fst] in Hprobe. subst isAvailable. cbn [negb].
  simpl. by rewrite Hno.
Qed.

(** C3, as amended.  For an entry that is not direct: a probe whose
    requests all fail answers [false] rather than throwing; and an answer
    [false] does block playback: [loadVideo] then hands no candidate to
    the viewer, installs no handler and starts no timeout; it shows the
    fallback message and emits the warning. *)
Theorem unavailable_blocks_playback (net : Network) (now : Z)
    (video : Video.t) (url : jsstring) (p : t) :
  Video.type video <> js "direct" ->
  Video.url video = Some url ->
  ((forall request, net request = Rejected) ->
   VideoAvailabilityChecker.cache
     (EnhancedVideoManager.availabilityChecker (videoManager p))
     !! VideoAvailabilityChecker.cacheKey video = None ->
   startsWith url (js "http") = true
   \/ Video.type video ∈ [js "youtube"; js "drive"; js "vimeo"] ->
   probe net video p = false) /\
  (probe net video p = false ->
   let p' := loadVideo net now (Some video) p in
   videoPlayer_src p' = videoPlayer_src p /\
   videoPlayer_handlers p' = videoPlayer_handlers p /\
   timers p' = timers p /\
   fallbackMessage_display p' = flex /\
   sessionState p' = Failed /\
   EnhancedVideoManager.notifications (videoManager p')
   = EnhancedVideoManager.notifications (videoManager p)
     ++ [{| EnhancedVideoManager.message := js "Video may not be available";
            EnhancedVideoManager.kind := js "warning" |}]).
Proof.
  intros Hty Hurl. split.
  - intros Hnet Hcache Hcase. unfold probe.
    apply (probe_resolves_failures _ net video url Hnet Hcache Hurl).
    destruct Hcase as [?|Hin]; [by left|right].
    apply elem_of_cons. by right.
  - intros Hprobe. by apply loadVideo_unavailable.
Qed.

Lemma unavailable_blocks_playback_witness :
  Video.type Sample.entry <> js "direct" /\
  Video.url Sample.entry = Some (js "https://cdn.example/v") /\
  probe Sample.offline Sample.entry Sample.player = false /\
  videoPlayer_src (loadVideo Sample.offline 5 (Some Sample.entry) Sample.player)
  = videoPlayer_src Sample.player.
Proof.
  assert (Video.type Sample.entry <> js "direct") as Hty by discriminate.
  pose proof (unavailable_blocks_playback Sample.offline 5 Sample.entry
                (js "https://cdn.example/v") Sample.player Hty eq_refl)
    as [Hprobe Hblock].
  assert (probe Sample.offline Sample.entry Sample.player = false) as Hfalse.
  { apply Hprobe; [done|reflexivity|left; reflexivity]. }
  split; [exact Hty|]. split; [reflexivity|]. split; [exact Hfalse|].
  exact (proj1 (Hblock Hfalse)).
Defined.

(** C3, as stated, fails: the probe answers [false] for the sample entry
    when the network is down, and [loadVideo] then returns with no
    candidate handed to the viewer and the fallback message shown. *)
Lemma unavailable_entry_not_attempted :
  let p' := loadVideo Sample.offline 5 (Some Sample.entry) Sample.player in
  Video.type Sample.entry <> js "direct" /\
  probe Sample.offline Sample.entry Sample.player = false /\
  videoPlayer_src p' = [] /\
  videoPlayer_handlers p' = None /\
  sessionState p' = Failed /\
  ~ (exists url, url ∈ candidates Sample.entry /\ url ∈ videoPlayer_src p').
Proof.
  cbv zeta. split; [discriminate|]. repeat split; try reflexivity.
  intros (url & _ & Hin). vm_compute in Hin. by apply elem_of_nil in Hin.
Qed.
End Player.

(* ================================================================== *)
(** * Sessions that follow one another *)
(* ================================================================== *)

Section Sessions.
Import EnhancedVideoPlayer.

Lemma loadVideo_currentVideoData (net : Network) (now : Z) (video : Video.t)
    (p : t) :
  currentVideoData (loadVideo net now (Some video) p) = Some video.
Proof.
  unfold loadVideo. cbv zeta.
  assert (currentVideoData (loadVideo_reset now video p) = Some video)
    as H0 by done.
  set (p0 := loadVideo_reset now video p) in *. clearbody p0.
  destruct (platformConfig (Video.type video)) as [badgeClass badgeText].
  destruct (decide _).
  - unfold loadDirectVideo. by destruct (candidates video !! 0%nat).
  - destruct (VideoAvailabilityChecker.checkVideoAvailability _ net video)
      as [isAvailable checker].
    by destruct isAvailable.
Qed.

Lemma find_skips_older {A} (timer : nat) (x : A) (l k : list (nat * A)) :
  Forall (fun e => (fst e < timer)%nat) l ->
  List.find (fun e => (fst e =? timer)%nat) (l ++ (timer, x) :: k)
  = Some (timer, x).
Proof.
  induction 1 as [|e l He _ IH]; simpl.
  - by rewrite Nat.eqb_refl.
  - destruct (Nat.eqb_spec (fst e) timer); [lia|done].
Qed.

Lemma filter_keeps_older {A} (timer : nat) (l : list (nat * A)) :
  Forall (fun e => (fst e < timer)%nat) l ->
  List.filter (fun e => negb (fst e =? timer)%nat) l = l.
Proof.
  induction 1 as [|e l He _ IH]; simpl; [done|].
  destruct (Nat.eqb_spec (fst e) timer); [lia|]. simpl. by rewrite IH.
Qed.

(** X9.  The loading timeout of a session outlives the session: nothing
    cancels it when another entry is loaded.  When an entry is loaded,
    then a second one before the viewer has answered, and the second one
    loads, the timeout of the first still elapses: the fallback message
    is shown over the entry that plays, and its buttons open the first
    entry. *)
Theorem stale_timeout_covers_loaded_entry (net : Network)
    (now1 now2 now3 now4 : Z) (first second : Video.t) (p : t) :
  Video.type first <> js "direct" ->
  Video.type second <> js "direct" ->
  (0 < length (candidates first))%nat ->
  (0 < length (candidates second))%nat ->
  Forall (fun e => (fst e < next_timer p)%nat) (timers p) ->
  probe net first p = true ->
  probe net second (loadVideo net now1 (Some first) p) = true ->
  let p1 := loadVideo net now1 (Some first) p in
  let p2 := loadVideo net now2 (Some second) p1 in
  let p3 := handle now3 p2 FrameLoad in
  let p4 := handle now4 p3 (TimeoutElapsed (next_timer p)) in
  sessionState p3 = Loaded /\
  currentVideoData p4 = Some second /\
  fallbackMessage_display p4 = flex /\
  fallbackOptions p4 = Some first /\
  sessionState p4 = Failed.
Proof.
  intros Hty1 Hty2 Hc1 Hc2 Hold Hp1 Hp2 p1 p2 p3 p4.
  destruct (loadVideo_available net now1 first p Hty1 Hc1 Hp1)
    as (_ & Hti1 & Hnt1 & _).
  destruct (loadVideo_available net now2 second p1 Hty2 Hc2 Hp2)
    as (Hatt & Hti2 & Hnt2 & _).
  pose proof (loadVideo_currentVideoData net now2 second p1) as Hcur.
  fold p1 in Hti1, Hnt1. fold p2 in Hatt, Hti2, Hnt2, Hcur.
  clearbody p1. clearbody p2.
  destruct (load_succeeds now3 _ _ _ _ Hatt) as (_ & _ & _ & Hloaded).
  destruct (signal_cancels_timeout now3 _ _ _ FrameLoad _ Hatt)
    as [Hti3 _]; [by right|].
  assert (currentVideoData p3 = Some second) as Hcur3.
  { subst p3. destruct Hatt as [Hh _ _ _]. simpl. by rewrite Hh. }
  fold p3 in Hloaded, Hti3. cbn [h_loadingTimeout] in Hti3.
  assert (timers p3 = timers p ++ [(next_timer p, first)]) as Htimers.
  { rewrite Hti3, Hti2, Hti1, Hnt1.
    rewrite !List.filter_app. simpl.
    destruct (Nat.eqb_spec (next_timer p) (S (next_timer p))); [lia|].
    rewrite Nat.eqb_refl. simpl. rewrite app_nil_r. f_equal.
    apply filter_keeps_older.
    eapply Forall_impl; [exact Hold|]. simpl. lia. }
  clearbody p3. split; [done|].
  subst p4. simpl. rewrite Htimers, find_skips_older by done.
  done.
Qed.

Lemma stale_timeout_covers_loaded_entry_witness :
  let second := Sample.video "rec2" "vimeo" ["w0"] in
  let p1 := loadVideo Sample.online 0 (Some Sample.entry) Sample.player in
  let p2 := loadVideo Sample.online 1000 (Some second) p1 in
  let p3 := handle 2000 p2 FrameLoad in
  let p4 := handle 10000 p3 (TimeoutElapsed 0) in
  sessionState p3 = Loaded /\
  currentVideoData p4 = Some second /\
  fallbackMessage_display p4 = flex /\
  fallbackOptions p4 = Some Sample.entry /\
  sessionState p4 = Failed.
Proof.
  apply (stale_timeout_covers_loaded_entry Sample.online 0 1000 2000 10000
           Sample.entry (Sample.video "rec2" "vimeo" ["w0"]) Sample.player).
  - discriminate.
  - discriminate.
  - simpl. lia.
  - simpl. lia.
  - constructor.
  - vm_compute. reflexivity.
  - vm_compute. reflexivity.
Defined.

(** ** Direct entries *)

Lemma loadDirectVideo_frame (video : Video.t) (url : option jsstring) (p : t) :
  let p' := loadDirectVideo video url p in
  EnhancedVideoManager.availabilityChecker (videoManager p')
  = EnhancedVideoManager.availabilityChecker (videoManager p)
  /\ videoPlayer_src p' = videoPlayer_src p
  /\ videoPlayer_handlers p' = videoPlayer_handlers p
  /\ timers p' = timers p
  /\ fallbackMessage_display p' = fallbackMessage_display p
  /\ videoPlayer_display p' = none
  /\ videoElement p'
     = (fun url => {| el_video := video; el_src := url;
                      el_type := getVideoMimeType url |}) <$> url.
Proof. unfold loadDirectVideo. by destruct url. Qed.

(** X10.  A direct entry is played by a [video] element of its own and
    never goes through the fallback engine: whatever the network,
    [loadVideo] asks for no availability probe, hands no candidate to the
    frame, installs no handler and starts no timeout; and when the
    element then reports an error, the fallback message stays hidden. *)
Theorem direct_entry_bypasses_fallback (net : Network) (now now' : Z)
    (video : Video.t) (p : t) :
  Video.type video = js "direct" ->
  let p' := loadVideo net now (Some video) p in
  EnhancedVideoManager.availabilityChecker (videoManager p')
  = EnhancedVideoManager.availabilityChecker (videoManager p)
  /\ videoPlayer_src p' = videoPlayer_src p
  /\ videoPlayer_handlers p' = videoPlayer_handlers p
  /\ timers p' = timers p
  /\ videoPlayer_display p' = none
  /\ videoElement p'
     = (fun url => {| el_video := video; el_src := url;
                      el_type := getVideoMimeType url |})
         <$> candidates video !! 0%nat
  /\ fallbackMessage_display (handle now' p' MediaError) = none.
Proof.
  intros Hty p'. subst p'. unfold loadVideo. cbv zeta.
  destruct (loadVideo_reset_frame now video p)
    as (Hck & _ & Hsrc & Hh & Hti & _ & _ & Hfb).
  set (p0 := loadVideo_reset now video p) in *. clearbody p0.
  destruct (platformConfig (Video.type video)) as [badgeClass badgeText].
  rewrite decide_True by done.
  destruct (loadDirectVideo_frame video (candidates video !! 0%nat) p0)
    as (Dck & Dsrc & Dh & Dti & Dfb & Ddisplay & Del).
  set (p1 := loadDirectVideo _ _ p0) in *. clearbody p1.
  repeat split; try congruence.
  simpl. destruct (videoElement p1); simpl; congruence.
Qed.

Lemma direct_entry_bypasses_fallback_witness :
  let video := Sample.video "rec3" "direct" ["https://cdn.example/a.webm"] in
  let p' := loadVideo Sample.offline 0 (Some video) Sample.player in
  EnhancedVideoManager.availabilityChecker (videoManager p')
  = EnhancedVideoManager.availabilityChecker (videoManager Sample.player)
  /\ videoPlayer_src p' = videoPlayer_src Sample.player
  /\ videoPlayer_handlers p' = videoPlayer_handlers Sample.player
  /\ timers p' = timers Sample.player
  /\ videoPlayer_display p' = none
  /\ videoElement p'
     = (fun url => {| el_video := video; el_src := url;
                      el_type := getVideoMimeType url |})
         <$> candidates video !! 0%nat
  /\ fallbackMessage_display (handle 5000 p' MediaError) = none.
Proof.
  apply (direct_entry_bypasses_fallback Sample.offline 0 5000
           (Sample.video "rec3" "direct" ["https://cdn.example/a.webm"])
           Sample.player).
  reflexivity.
Defined.

(** ** What a session reports to the analytics *)

Lemma loadVideoById_analytics (m : EnhancedVideoManager.t) (now : Z)
    (videoId : jsstring) :
  EnhancedVideoManager.analytics
    (snd (EnhancedVideoManager.loadVideoById m now videoId))
  = EnhancedVideoManager.analytics m.
Proof.
  unfold EnhancedVideoManager.loadVideoById.
  destruct (EnhancedVideoManager.findIndex _ _); [|done]. simpl.
  unfold EnhancedVideoManager.addToRecentlyPlayed.
  by destruct (EnhancedVideoManager.findIndex _ _).
Qed.

Lemma loadVideo_reset_analytics (now : Z) (video : Video.t) (p : t) :
  EnhancedVideoManager.analytics (videoManager (loadVideo_reset now video p))
  = VideoAnalytics.trackVideoEvent
      (EnhancedVideoManager.analytics (videoManager p)) now
      VideoAnalytics.load video 0%Q.
Proof. unfold loadVideo_reset. simpl. by rewrite loadVideoById_analytics. Qed.

Lemma loadVideo_analytics (net : Network) (now : Z) (video : Video.t)
    (p : t) :
  Video.type video <> js "direct" ->
  EnhancedVideoManager.analytics
    (videoManager (loadVideo net now (Some video) p))
  = VideoAnalytics.trackVideoEvent
      (EnhancedVideoManager.analytics (videoManager p)) now
      VideoAnalytics.load video 0%Q.
Proof.
  intros Hty. unfold loadVideo. cbv zeta.
  pose proof (loadVideo_reset_analytics now video p) as H0.
  set (p0 := loadVideo_reset now video p) in *. clearbody p0.
  destruct (platformConfig (Video.type video)) as [badgeClass badgeText].
  rewrite decide_False by done.
  destruct (VideoAvailabilityChecker.checkVideoAvailability _ net video)
    as [isAvailable checker].
  destruct isAvailable; cbn [negb].
  - set (p1 := set_videoManager _ p0).
    assert (EnhancedVideoManager.analytics (videoManager p1)
            = EnhancedVideoManager.analytics (videoManager p0)) as H1 by done.
    clearbody p1.
    destruct (loadVideo_attempt_frame video (candidates video) badgeClass
                badgeText p1) as (_ & _ & _ & _ & _ & _ & ->).
    congruence.
  - by rewrite <- H0.
Qed.

Lemma error_analytics (now : Z) (h : Handlers) (old : list jsstring)
    (k : nat) (p : t) :
  attempting h old k p ->
  EnhancedVideoManager.analytics (videoManager (handle now p FrameError))
  = VideoAnalytics.trackVideoEvent
      (EnhancedVideoManager.analytics (videoManager p)) now
      VideoAnalytics.error (h_video h) 0%Q.
Proof.
  intros [Hh _ _ _]. simpl. rewrite Hh.
  unfold onError, handleEmbedError. simpl.
  by destruct (_ <? _)%nat.
Qed.

Lemma load_analytics (now : Z) (h : Handlers) (old : list jsstring)
    (k : nat) (p : t) :
  attempting h old k p ->
  EnhancedVideoManager.analytics (videoManager (handle now p FrameLoad))
  = VideoAnalytics.trackVideoEvent
      (EnhancedVideoManager.analytics (videoManager p)) now
      VideoAnalytics.play (h_video h) 0%Q.
Proof. intros [Hh _ _ _]. simpl. by rewrite Hh. Qed.

Lemma errors_analytics (h : Handlers) (old : list jsstring) (times : list Z)
    (k : nat) (p : t) :
  attempting h old k p ->
  (k + length times < length (h_embedUrls h))%nat ->
  EnhancedVideoManager.analytics (videoManager (run p (errors times)))
  = tracks (EnhancedVideoManager.analytics (videoManager p))
           ((fun time =>
               {| t_now := time; t_event := VideoAnalytics.error;
                  t_video := h_video h; t_duration := 0%Q |}) <$> times).
Proof.
  revert k p. induction times as [|time times IH]; intros k p Hatt Hlt.
  - done.
  - simpl in Hlt. cbn [errors fmap list_fmap run foldl fst snd tracks].
    fold (errors times). fold (run (handle time p FrameError) (errors times)).
    rewrite (IH (S k)); [|apply error_advances; [done|lia]|lia].
    by rewrite (error_analytics time h old k p Hatt).
Qed.

(** X11.  What a session reports: for an entry that is not direct, has
    N >= 1 candidates and is reported available, when the viewer refuses
    the first N-1 candidates and takes the last, the analytics have
    received one [load] event when the session began, one [error] event
    for each refused candidate, and one [play] event for the load, all
    for this entry, in this order and nothing else. *)
Theorem session_reports_each_attempt (net : Network) (now time : Z)
    (video : Video.t) (embedUrls : list jsstring) (times : list Z) (p : t) :
  Video.embedUrls video = Some embedUrls ->
  Video.type video <> js "direct" ->
  probe net video p = true ->
  S (length times) = length embedUrls ->
  EnhancedVideoManager.analytics
    (videoManager (run (loadVideo net now (Some video) p)
                       (errors times ++ [(time, FrameLoad)])))
  = tracks (EnhancedVideoManager.analytics (videoManager p))
           (refusals now video times
            ++ [{| t_now := time; t_event := VideoAnalytics.play;
                   t_video := video; t_duration := 0%Q |}]).
Proof.
  intros Hurls Hty Hprobe Htimes.
  assert (candidates video = embedUrls) as Hc
    by (unfold candidates; by rewrite Hurls).
  destruct (loadVideo_available net now video p Hty) as (Hatt & _);
    [rewrite Hc; lia|done|].
  rewrite Hc in Hatt.
  pose proof (loadVideo_analytics net now video p Hty) as Hload.
  set (p1 := loadVideo net now (Some video) p) in *. clearbody p1.
  set (h := {| h_video := video; h_embedUrls := embedUrls;
               h_badgeText := _; h_loadingTimeout := _ |}) in *.
  rewrite run_app.
  pose proof (errors_advance h _ times 0 p1 Hatt) as Hk.
  cbn [h_embedUrls h] in Hk. specialize (Hk ltac:(lia)).
  pose proof (errors_analytics h _ times 0 p1 Hatt) as Herrs.
  cbn [h_embedUrls h h_video] in Herrs. specialize (Herrs ltac:(lia)).
  cbn [run foldl fst snd].
  rewrite (load_analytics time h _ _ _ Hk). cbn [h_video h].
  fold (run p1 (errors times)). rewrite Herrs, Hload.
  unfold refusals, tracks. rewrite foldl_app. reflexivity.
Qed.

Lemma session_reports_each_attempt_witness :
  EnhancedVideoManager.analytics
    (videoManager (run (loadVideo Sample.online 0 (Some Sample.entry)
                                  Sample.player)
                       (errors [100; 200] ++ [(300, FrameLoad)])))
  = tracks (EnhancedVideoManager.analytics (videoManager Sample.player))
           (refusals 0 Sample.entry [100; 200]
            ++ [{| t_now := 300; t_event := VideoAnalytics.play;
                   t_video := Sample.entry; t_duration := 0%Q |}]).
Proof.
  apply (session_reports_each_attempt Sample.online 0 300 Sample.entry
           (js <$> ["u0"; "u1"; "u2"]%string) [100; 200] Sample.player).
  - reflexivity.
  - discriminate.
  - vm_compute. reflexivity.
  - reflexivity.
Defined.
End Sessions.

(* ================================================================== *)
(** * The availability probe *)
(* ================================================================== *)

Section Availability.
Import VideoAvailabilityChecker.

(** X6.  A verdict is cached under the id of the entry alone, and a
    cached verdict is final: once a probe has run to its end for an entry
    (the entry is direct or has a [url]), every later probe of an entry
    with the same id returns the same verdict and leaves the checker as
    it is, whatever the network has become and whatever the type and the
    URL of that entry, until the cache entry is dropped. *)
Theorem checkVideoAvailability_answers_from_cache (self self' : t)
    (net net' : Network) (video video' : Video.t) (verdict : bool) :
  Video.type video = js "direct" \/ is_Some (Video.url video) ->
  checkVideoAvailability self net video = (verdict, self') ->
  Video.id video' = Video.id video ->
  checkVideoAvailability self' net' video' = (verdict, self').
Proof.
  intros Hbody Hcheck Hid.
  assert (cache self' !! cacheKey video' = Some verdict) as Hcached.
  { unfold cacheKey. rewrite Hid. fold (cacheKey video).
    unfold checkVideoAvailability in Hcheck.
    destruct (cache self !! cacheKey video) as [cached|] eqn:Hc.
    - by simplify_eq.
    - destruct (decide (Video.type video = js "direct")) as [Hd|Hd].
      + simplify_eq. simpl. apply lookup_insert_eq.
      + destruct Hbody as [?|[url Hurl]]; [done|]. rewrite Hurl in Hcheck.
        destruct (startsWith url (js "http")); simplify_eq; simpl;
          apply lookup_insert_eq. }
  unfold checkVideoAvailability. by rewrite Hcached.
Qed.

Lemma checkVideoAvailability_answers_from_cache_witness :
  checkVideoAvailability
    (snd (checkVideoAvailability new Sample.online Sample.entry))
    Sample.offline (Sample.video "rec1" "vimeo" [])
  = (true, snd (checkVideoAvailability new Sample.online Sample.entry)).
Proof.
  apply (checkVideoAvailability_answers_from_cache new _ Sample.online _
           Sample.entry).
  - right. by eexists.
  - vm_compute. reflexivity.
  - reflexivity.
Defined.

(** X7.  For an entry whose [url] starts with [http], the probe is the
    probe of a direct URL, whatever the type of the entry: the thumbnail
    probes of YouTube, Drive and Vimeo are not used, and the status of
    the answer is not looked at.  The entry is reported available as soon
    as the server answers the [HEAD] request, or the [GET] request that
    follows its failure, with any status. *)
Theorem checkVideoAvailability_http_ignores_status (self : t) (net : Network)
    (video : Video.t) (url : jsstring) :
  cache self !! cacheKey video = None ->
  Video.url video = Some url ->
  startsWith url (js "http") = true ->
  fst (checkVideoAvailability self net video) = true <->
  (exists status,
     net {| req_url := url; req_method := HEAD; req_no_cors := true;
            req_timeout := None |} = Response status) \/
  (exists status,
     net {| req_url := url; req_method := GET; req_no_cors := true;
            req_timeout := Some (timeout self) |} = Response status).
Proof.
  intros Hcache Hurl Hhttp. unfold checkVideoAvailability.
  rewrite Hcache, Hurl, Hhttp. simpl.
  assert ((if decide (Video.type video = js "direct")
           then Some (checkDirectUrl self net url)
           else Some (checkDirectUrl self net url))
          = Some (checkDirectUrl self net url)) as -> by by destruct (decide _).
  simpl. unfold checkDirectUrl.
  destruct (net {| req_url := url; req_method := HEAD |}) as [s|] eqn:Hhead.
  - split; [eauto|done].
  - destruct (net {| req_url := url; req_method := GET |}) as [s|] eqn:Hget.
    + split; [eauto|done].
    + split; [done|]. intros [[s ?]|[s ?]]; done.
Qed.

Lemma checkVideoAvailability_http_ignores_status_witness :
  fst (checkVideoAvailability new (fun _ => Response 404) Sample.entry) = true
  <->
  (exists status,
     (fun _ => Response 404)
       {| req_url := js "https://cdn.example/v"; req_method := HEAD;
          req_no_cors := true; req_timeout := None |} = Response status) \/
  (exists status,
     (fun _ => Response 404)
       {| req_url := js "https://cdn.example/v"; req_method := GET;
          req_no_cors := true; req_timeout := Some (timeout new) |}
     = Response status).
Proof.
  apply (checkVideoAvailability_http_ignores_status new
           (fun _ => Response 404) Sample.entry (js "https://cdn.example/v")).
  - reflexivity.
  - reflexivity.
  - reflexivity.
Defined.
End Availability.

Section Cleanup.
Import EnhancedVideoManager.

(** The verdict on an entry that the cache does not hold does not depend
    on the rest of the cache. *)
Lemma checkVideoAvailability_fresh (c c0 : VideoAvailabilityChecker.t)
    (net : Network) (video : Video.t) :
  VideoAvailabilityChecker.timeout c = VideoAvailabilityChecker.timeout c0 ->
  VideoAvailabilityChecker.cache c
    !! VideoAvailabilityChecker.cacheKey video = None ->
  VideoAvailabilityChecker.cache c0
    !! VideoAvailabilityChecker.cacheKey video = None ->
  fst (VideoAvailabilityChecker.checkVideoAvailability c net video)
  = fst (VideoAvailabilityChecker.checkVideoAvailability c0 net video).
Proof.
  intros Ht Hc Hc0. unfold VideoAvailabilityChecker.checkVideoAvailability.
  rewrite Hc, Hc0.
  unfold VideoAvailabilityChecker.checkDirectUrl,
    VideoAvailabilityChecker.checkWithFallback,
    VideoAvailabilityChecker.checkYouTubeAvailability,
    VideoAvailabilityChecker.checkDriveAvailability,
    VideoAvailabilityChecker.checkVimeoAvailability,
    VideoAvailabilityChecker.probe.
  rewrite Ht.
  destruct (decide (Video.type video = js "direct")); [done|].
  destruct (Video.url video) as [url|]; [|done].
  by destruct (startsWith url (js "http")).
Qed.

Lemma checkVideoAvailability_timeout (c : VideoAvailabilityChecker.t)
    (net : Network) (video : Video.t) :
  VideoAvailabilityChecker.timeout
    (snd (VideoAvailabilityChecker.checkVideoAvailability c net video))
  = VideoAvailabilityChecker.timeout c.
Proof.
  unfold VideoAvailabilityChecker.checkVideoAvailability.
  destruct (VideoAvailabilityChecker.cache c !! _); [done|].
  destruct (decide (Video.type video = js "direct")); [done|].
  destruct (Video.url video) as [url|]; [|done].
  by destruct (startsWith url (js "http")).
Qed.

(** What a probe leaves in the cache: at most the verdict on its entry. *)
Lemma checkVideoAvailability_cache (c : VideoAvailabilityChecker.t)
    (net : Network) (video other : Video.t) :
  Video.id other <> Video.id video ->
  let c' := snd (VideoAvailabilityChecker.checkVideoAvailability c net video) in
  VideoAvailabilityChecker.timeout c' = VideoAvailabilityChecker.timeout c /\
  VideoAvailabilityChecker.cache c' !! VideoAvailabilityChecker.cacheKey other
  = VideoAvailabilityChecker.cache c
      !! VideoAvailabilityChecker.cacheKey other.
Proof.
  intros Hne. unfold VideoAvailabilityChecker.checkVideoAvailability.
  destruct (VideoAvailabilityChecker.cache c !! _); [done|].
  assert (VideoAvailabilityChecker.cacheKey video
          <> VideoAvailabilityChecker.cacheKey other) as Hkey.
  { unfold VideoAvailabilityChecker.cacheKey. intros H.
    apply app_inv_head in H. congruence. }
  destruct (decide (Video.type video = js "direct")).
  - simpl. by rewrite lookup_insert_ne.
  - destruct (Video.url video) as [url|]; [|done].
    destruct (startsWith url (js "http")); simpl; by rewrite lookup_insert_ne.
Qed.

Lemma cleanup_loop (net : Network) (c0 : VideoAvailabilityChecker.t)
    (videos : list Video.t) (reported : list Video.t)
    (c : VideoAvailabilityChecker.t) :
  NoDup (Video.id <$> videos) ->
  VideoAvailabilityChecker.timeout c = VideoAvailabilityChecker.timeout c0 ->
  (forall video, video ∈ videos ->
     VideoAvailabilityChecker.cache c
       !! VideoAvailabilityChecker.cacheKey video = None /\
     VideoAvailabilityChecker.cache c0
       !! VideoAvailabilityChecker.cacheKey video = None) ->
  fst (foldl (cleanup_step net) (reported, c) videos)
  = reported
    ++ List.filter
         (fun video =>
            negb (fst (VideoAvailabilityChecker.checkVideoAvailability
                         c0 net video)))
         videos.
Proof.
  revert reported c. induction videos as [|video videos IH];
    intros reported c Hnd Ht Hfresh.
  - simpl. by rewrite app_nil_r.
  - rewrite fmap_cons in Hnd. apply NoDup_cons in Hnd as [Hvideo Hnd].
    destruct (Hfresh video) as [Hc Hc0]; [apply list_elem_of_here|].
    cbn [foldl List.filter]. unfold cleanup_step at 2.
    rewrite <- (checkVideoAvailability_fresh c c0 net video Ht Hc Hc0).
    destruct (VideoAvailabilityChecker.checkVideoAvailability c net video)
      as [isAvailable c'] eqn:Hcheck. cbn [fst].
    assert (c' = snd (VideoAvailabilityChecker.checkVideoAvailability
                        c net video)) as Hc' by by rewrite Hcheck.
    rewrite IH; [by destruct isAvailable; rewrite <- ?app_assoc|done| |].
    + subst c'. by rewrite checkVideoAvailability_timeout.
    + intros other Hother.
      assert (Video.id other <> Video.id video) as Hne.
      { intros Heq. apply Hvideo. rewrite <- Heq.
        by apply list_elem_of_fmap_2. }
      destruct (Hfresh other) as [Ho Ho0]; [by apply list_elem_of_further|].
      split; [|done]. subst c'.
      by rewrite (proj2 (checkVideoAvailability_cache c net video other Hne)).
Qed.

(** X8.  [cleanupUnavailableVideos] cleans nothing up: it leaves the
    catalog and the playlist as they are, and it reports.  With an empty
    cache, and when no two of the first twenty entries of the catalog
    share an id, what it reports is exactly the entries among these
    twenty that the availability probe answers [false] for, in the order
    of the catalog; no entry after the twentieth is ever checked. *)
Theorem cleanupUnavailableVideos_only_reports (net : Network) (self : t) :
  VideoAvailabilityChecker.cache (availabilityChecker self) = ∅ ->
  NoDup (Video.id <$> take 20 (allVideos self)) ->
  fst (cleanupUnavailableVideos net self)
  = List.filter
      (fun video =>
         negb (fst (VideoAvailabilityChecker.checkVideoAvailability
                      (availabilityChecker self) net video)))
      (take 20 (allVideos self)) /\
  allVideos (snd (cleanupUnavailableVideos net self)) = allVideos self /\
  filteredVideos (snd (cleanupUnavailableVideos net self))
  = filteredVideos self.
Proof.
  intros Hempty Hnd. unfold cleanupUnavailableVideos.
  pose proof (cleanup_loop net (availabilityChecker self)
                (take 20 (allVideos self)) [] (availabilityChecker self)
                Hnd eq_refl) as Hloop.
  destruct (foldl _ _ _) as [unavailableVideos checker].
  cbn [fst snd] in *. split; [|done].
  apply Hloop. intros video _. by rewrite Hempty, lookup_empty.
Qed.

Lemma cleanupUnavailableVideos_only_reports_witness :
  let self :=
    set_allVideos [Sample.entry; Sample.video "rec2" "vimeo" []]
                  (new 0) in
  fst (cleanupUnavailableVideos Sample.offline self)
  = List.filter
      (fun video =>
         negb (fst (VideoAvailabilityChecker.checkVideoAvailability
                      (availabilityChecker self) Sample.offline video)))
      (take 20 (allVideos self)) /\
  allVideos (snd (cleanupUnavailableVideos Sample.offline self))
  = allVideos self /\
  filteredVideos (snd (cleanupUnavailableVideos Sample.offline self))
  = filteredVideos self.
Proof.
  apply (cleanupUnavailableVideos_only_reports Sample.offline
           (set_allVideos [Sample.entry; Sample.video "rec2" "vimeo" []]
                          (new 0))).
  - reflexivity.
  - apply (bool_decide_unpack _). vm_compute. exact I.
Defined.
End Cleanup.

(* ================================================================== *)
(** * The debounced search *)
(* ================================================================== *)

Section Debounce.
Import PerformanceUtils.
Context {A : Type}.
Implicit Types (d : Debounced A) (h : Happening A) (args : A).

Lemma one_timer_happen d h : one_timer d -> one_timer (happen d h).
Proof.
  unfold one_timer. intros Hd. destruct h as [args|timer]; simpl.
  - destruct (timeout d) as [t|].
    + destruct Hd as [args' ->]. simpl. rewrite Nat.eqb_refl. simpl. eauto.
    + rewrite Hd. simpl. eauto.
  - unfold later. destruct (timeout d) as [t|] eqn:Ht.
    + destruct Hd as [args' Hp]. rewrite Hp. simpl.
      destruct (Nat.eqb_spec t timer); simpl.
      * done.
      * rewrite Ht. eauto.
    + rewrite Hd. simpl. by rewrite Ht.
Qed.

Lemma immediate_happen d h : immediate (happen d h) = immediate d.
Proof.
  destruct h as [args|timer]; simpl; [done|].
  unfold later. by destruct (List.find _ _) as [[? ?]|].
Qed.

Lemma one_timer_happenings d (hs : list (Happening A)) :
  one_timer d -> one_timer (foldl happen d hs).
Proof.
  revert d. induction hs as [|h hs IH]; intros d Hd; [done|].
  simpl. by apply IH, one_timer_happen.
Qed.

Lemma immediate_happenings d (hs : list (Happening A)) :
  immediate (foldl happen d hs) = immediate d.
Proof.
  revert d. induction hs as [|h hs IH]; intros d; [done|].
  simpl. by rewrite IH, immediate_happen.
Qed.

(** Calls in a row apply nothing when [immediate] is false. *)
Lemma applied_calls d (burst : list A) :
  immediate d = false ->
  applied (foldl happen d (Called <$> burst)) = applied d.
Proof.
  revert d. induction burst as [|args burst IH]; intros d Hd; [done|].
  simpl. rewrite IH; [|done]. simpl. by rewrite Hd.
Qed.

(** X30.  The debounced function that the search box uses
    ([immediate] is false) applies [func] once per burst of calls, with
    the arguments of the last call: whatever happened before, after
    calls in a row exactly one timer is pending, nothing has been
    applied for the burst, and when that timer elapses [func] is applied
    once, to the arguments of the last call of the burst, and no timer is
    left. *)
Theorem debounce_applies_the_last_call (hs : list (Happening A))
    (burst : list A) (args : A) :
  let d := foldl happen (debounce false) hs in
  let d' := foldl happen d (Called <$> burst ++ [args]) in
  exists timer,
    timeout d' = Some timer /\
    pending d' = [(timer, args)] /\
    applied d' = applied d /\
    applied (later timer d') = applied d ++ [args] /\
    pending (later timer d') = [].
Proof.
  intros d d'.
  assert (one_timer d) as Hd by (by apply one_timer_happenings).
  assert (immediate d = false) as Hi by (by subst d; rewrite immediate_happenings).
  clearbody d. subst d'. rewrite fmap_app, foldl_app.
  pose proof (one_timer_happenings d (Called <$> burst) Hd) as Hd1.
  pose proof (applied_calls d burst Hi) as Ha1.
  assert (immediate (foldl happen d (Called <$> burst)) = false) as Hi1
    by by rewrite immediate_happenings.
  set (d1 := foldl happen d (Called <$> burst)) in *. clearbody d1.
  cbn [fmap list_fmap foldl happen].
  exists (next_timer d1).
  assert (pending (executedFunction args d1) = [(next_timer d1, args)]) as Hp.
  { unfold one_timer in Hd1. unfold executedFunction. simpl.
    destruct (timeout d1) as [t|].
    - destruct Hd1 as [args' ->]. simpl. by rewrite Nat.eqb_refl.
    - by rewrite Hd1. }
  split; [done|]. split; [done|].
  split; [simpl; by rewrite Hi1|].
  unfold later. rewrite Hp. simpl. rewrite Nat.eqb_refl. simpl.
  by rewrite Hi1, Ha1.
Qed.
End Debounce.

(* ================================================================== *)
(** * The URL classifier *)
(* ================================================================== *)

Section Classifier.
Import UniversalVideoParser.

(** The examples of the specification. *)
Example parseURL_youtube :
  exists r, parseURL Sample.window (js "https://youtu.be/abc123")
            = Returned (Some r)
            /\ type r = js "youtube" /\ videoId r = js "abc123"
            /\ originalUrl r = Some (js "https://youtu.be/abc123")
            /\ exists first, head (embedUrls r) = Some first
                             /\ includes first (js "/embed/abc123") = true.
Proof. eexists. split; [vm_compute; reflexivity|]. vm_compute. eauto 10. Qed.

Example parseURL_vimeo :
  exists r, parseURL Sample.window (js "https://vimeo.com/555")
            = Returned (Some r)
            /\ type r = js "vimeo" /\ videoId r = js "555".
Proof. eexists. split; [vm_compute; reflexivity|]. vm_compute. eauto. Qed.

Example parseURL_direct :
  exists r, parseURL Sample.window (js "https://example.com/movie.mp4")
            = Returned (Some r)
            /\ type r = js "direct"
            /\ embedUrls r = [js "https://example.com/movie.mp4"].
Proof. eexists. split; [vm_compute; reflexivity|]. vm_compute. eauto. Qed.

Example parseURL_other :
  exists r, parseURL Sample.window (js "https://example.com/page")
            = Returned (Some r)
            /\ type r = js "other"
            /\ embedUrls r = [js "https://example.com/page"].
Proof. eexists. split; [vm_compute; reflexivity|]. vm_compute. eauto. Qed.

(** C8.  A shared link of Dropbox matches the pattern of [parseDropbox],
    which would answer with the type dropbox; [parseURL] answers with the
    type twitter, because [parseTwitter] comes first and takes every URL
    that contains [x.com], as [dropbox.com] does. *)
Theorem parseURL_dropbox_link_is_twitter :
  let url := js "https://www.dropbox.com/s/abc123/clip.mp4?dl=0" in
  (exists r, parseDropbox url = Returned (Some r)
             /\ type r = js "dropbox"
             /\ embedUrls r =
                [js "https://www.dropbox.com/s/abc123/clip.mp4?raw=1";
                 js "https://dl.dropboxusercontent.com/s/abc123/clip.mp4"]) /\
  (exists r, parseURL Sample.window url = Returned (Some r)
             /\ type r = js "twitter"
             /\ type r <> js "dropbox").
Proof.
  cbv zeta. split.
  - eexists. split; [vm_compute; reflexivity|]. vm_compute. eauto.
  - eexists. split; [vm_compute; reflexivity|]. vm_compute. split; [done|].
    discriminate.
Qed.

(** [parseURL] is not total either: [btoa] throws on a URL with a unit
    above 255, here U+65E5, and no parser catches it. *)
Example parseURL_throws_outside_latin1 :
  parseURL Sample.window (js "https://example.com/" ++ [26085%N])
  = Thrown (js "InvalidCharacterError").
Proof. vm_compute. reflexivity. Qed.

(** ** No URL is classified as dropbox *)

Lemma startsWith_spec (s p : jsstring) :
  startsWith s p = true <-> exists rest, s = p ++ rest.
Proof.
  revert s. induction p as [|a p IH]; intros s; simpl.
  - split; [eauto|]. by destruct s.
  - destruct s as [|b s]; [split; [done|by intros [? ?]]|].
    simpl. case_decide as Hab; [subst b|].
    + rewrite IH. split; intros [rest Hrest]; exists rest; congruence.
    + split; [done|]. intros [rest Hrest]. congruence.
Qed.

Lemma includes_nil (p : jsstring) : includes [] p = startsWith [] p || false.
Proof. reflexivity. Qed.

Lemma includes_cons (c : N) (s p : jsstring) :
  includes (c :: s) p = startsWith (c :: s) p || includes s p.
Proof. reflexivity. Qed.

Lemma includes_spec (s p : jsstring) :
  includes s p = true <-> exists before after, s = before ++ p ++ after.
Proof.
  induction s as [|c s IH].
  - rewrite includes_nil, orb_false_r, startsWith_spec. split.
    + intros [rest Hrest]. by exists [], rest.
    + intros (before & after & Heq). symmetry in Heq.
      apply app_eq_nil in Heq as [-> Heq]. eauto.
  - rewrite includes_cons, orb_true_iff, IH. split.
    + intros [Hst|(before & after & ->)].
      * apply (proj1 (startsWith_spec (c :: s) p)) in Hst as [rest Hrest].
        by exists [], rest.
      * by exists (c :: before), after.
    + intros ([|b before] & after & Heq); simpl in Heq.
      * left. apply (startsWith_spec (c :: s) p). eauto.
      * right. exists before, after. congruence.
Qed.

Lemma includes_inside (s p before after : jsstring) :
  includes s (before ++ p ++ after) = true -> includes s p = true.
Proof.
  rewrite !includes_spec. intros (b & a & ->).
  exists (b ++ before), (after ++ a). by rewrite <- !app_assoc.
Qed.

(** A pattern that begins with literal text only matches where the text
    stands. *)
Lemma match_literal_includes (l : jsstring) (r : RegExp.t) (s : jsstring)
    (caps : list jsstring) :
  RegExp.match_ (RegExp.Seq (RegExp.Chars l) r) s = Some caps ->
  includes s l = true.
Proof.
  induction s as [|c s IH].
  - rewrite includes_nil. cbn [RegExp.match_ RegExp.run].
    by destruct (startsWith [] l).
  - rewrite includes_cons. cbn [RegExp.match_ RegExp.run].
    destruct (startsWith (c :: s) l); [done|]. simpl. exact IH.
Qed.

Lemma parseDropbox_includes (url : jsstring) (r : Parsed) :
  parseDropbox url = Returned (Some r) -> includes url (js "x.com") = true.
Proof.
  unfold parseDropbox. cbv zeta.
  destruct (RegExp.match_ _ url) as [caps|] eqn:Hm; [|done]. intros _.
  apply match_literal_includes in Hm.
  by apply (includes_inside url (js "x.com") (js "dropbo") (js "/s/")).
Qed.

Lemma parseTwitter_declines (url : jsstring) :
  parseTwitter url = Returned None -> includes url (js "x.com") = false.
Proof.
  unfold parseTwitter.
  destruct (includes url (js "twitter.com")); simpl.
  - destruct (encodeURIComponent url); simpl; [|done]. by destruct (btoa url).
  - destruct (includes url (js "x.com")); [|done].
    destruct (encodeURIComponent url); simpl; [|done]. by destruct (btoa url).
Qed.

(** The type each parser answers with. *)
Ltac parser_type :=
  intros url r; cbv zeta;
  repeat match goal with
  | |- context [RegExp.match_ ?p url] => destruct (RegExp.match_ p url)
  | |- context [first_match ?p url] => destruct (first_match p url)
  | |- context [if ?b then _ else _] => destruct b
  | |- context [encodeURIComponent ?u] => destruct (encodeURIComponent u)
  | |- context [btoa ?u] => destruct (btoa u)
  | |- _ => progress simpl
  end;
  try done; intros [= <-]; simpl; auto.

Lemma parseYouTube_type (window : Window) :
  forall url r, parseYouTube window url = Returned (Some r) ->
                type r = js "youtube" \/ type r = js "youtube_playlist".
Proof. unfold parseYouTube. parser_type. Qed.

Lemma parseGoogleDrive_type :
  forall url r, parseGoogleDrive url = Returned (Some r) -> type r = js "drive".
Proof. unfold parseGoogleDrive. parser_type. Qed.

Lemma parseVimeo_type :
  forall url r, parseVimeo url = Returned (Some r) -> type r = js "vimeo".
Proof. unfold parseVimeo. parser_type. Qed.

Lemma parseDailymotion_type :
  forall url r, parseDailymotion url = Returned (Some r) ->
                type r = js "dailymotion".
Proof. unfold parseDailymotion. parser_type. Qed.

Lemma parseFacebook_type :
  forall url r, parseFacebook url = Returned (Some r) ->
                type r = js "facebook".
Proof. unfold parseFacebook. parser_type. Qed.

Lemma parseInstagram_type :
  forall url r, parseInstagram url = Returned (Some r) ->
                type r = js "instagram".
Proof. unfold parseInstagram. parser_type. Qed.

Lemma parseTikTok_type :
  forall url r, parseTikTok url = Returned (Some r) -> type r = js "tiktok".
Proof. unfold parseTikTok. parser_type. Qed.

Lemma parseTwitter_type :
  forall url r, parseTwitter url = Returned (Some r) -> type r = js "twitter".
Proof. unfold parseTwitter. parser_type. Qed.

Lemma parseTwitch_type (window : Window) :
  forall url r, parseTwitch window url = Returned (Some r) ->
                type r = js "twitch".
Proof. unfold parseTwitch. parser_type. Qed.

Lemma parseStreamable_type :
  forall url r, parseStreamable url = Returned (Some r) ->
                type r = js "streamable".
Proof. unfold parseStreamable. parser_type. Qed.

Lemma parseGooglePhotos_type :
  forall url r, parseGooglePhotos url = Returned (Some r) ->
                type r = js "photos".
Proof. unfold parseGooglePhotos. parser_type. Qed.

Lemma parseDirectVideo_type :
  forall url r, parseDirectVideo url = Returned (Some r) ->
                type r = js "direct".
Proof. unfold parseDirectVideo. parser_type. Qed.

Lemma parseUnknown_type :
  forall url r, parseUnknown url = Returned r -> type r = js "other".
Proof. unfold parseUnknown. parser_type. Qed.

(** [parseDropbox] is never reached with a URL it accepts: whatever the
    URL, the answer of [parseURL] does not have the type dropbox. *)
Lemma parseURL_never_dropbox (window : Window) (url : jsstring) (r : Parsed) :
  parseURL window url = Returned (Some r) -> type r <> js "dropbox".
Proof.
  unfold parseURL. destruct (negb (truthy url)); [done|].
  unfold parsers, try_parsers, bind.
  destruct (parseYouTube window url) as [[r1|]|] eqn:E1; [| |done].
  { intros [= <-]. simpl. apply parseYouTube_type in E1 as [-> | ->]; done. }
  destruct (parseGoogleDrive url) as [[r2|]|] eqn:E2; [| |done].
  { intros [= <-]. simpl. by rewrite (parseGoogleDrive_type _ _ E2). }
  destruct (parseVimeo url) as [[r3|]|] eqn:E3; [| |done].
  { intros [= <-]. simpl. by rewrite (parseVimeo_type _ _ E3). }
  destruct (parseDailymotion url) as [[r4|]|] eqn:E4; [| |done].
  { intros [= <-]. simpl. by rewrite (parseDailymotion_type _ _ E4). }
  destruct (parseFacebook url) as [[r5|]|] eqn:E5; [| |done].
  { intros [= <-]. simpl. by rewrite (parseFacebook_type _ _ E5). }
  destruct (parseInstagram url) as [[r6|]|] eqn:E6; [| |done].
  { intros [= <-]. simpl. by rewrite (parseInstagram_type _ _ E6). }
  destruct (parseTikTok url) as [[r7|]|] eqn:E7; [| |done].
  { intros [= <-]. simpl. by rewrite (parseTikTok_type _ _ E7). }
  destruct (parseTwitter url) as [[r8|]|] eqn:E8; [| |done].
  { intros [= <-]. simpl. by rewrite (parseTwitter_type _ _ E8). }
  destruct (parseTwitch window url) as [[r9|]|] eqn:E9; [| |done].
  { intros [= <-]. simpl. by rewrite (parseTwitch_type _ _ _ E9). }
  destruct (parseStreamable url) as [[r10|]|] eqn:E10; [| |done].
  { intros [= <-]. simpl. by rewrite (parseStreamable_type _ _ E10). }
  destruct (parseDropbox url) as [[r11|]|] eqn:E11; [| |done].
  { apply parseDropbox_includes in E11. apply parseTwitter_declines in E8.
    congruence. }
  destruct (parseGooglePhotos url) as [[r12|]|] eqn:E12; [| |done].
  { intros [= <-]. simpl. by rewrite (parseGooglePhotos_type _ _ E12). }
  destruct (parseDirectVideo url) as [[r13|]|] eqn:E13; [| |done].
  { intros [= <-]. simpl. by rewrite (parseDirectVideo_type _ _ E13). }
  destruct (parseUnknown url) as [r14|] eqn:E14; [|done].
  intros [= <-]. by rewrite (parseUnknown_type _ _ E14).
Qed.

(** ** What does hold of [parseURL] *)

Lemma btoa_latin1 (s : jsstring) :
  latin1 s -> btoa s = Returned (base64 s).
Proof.
  unfold latin1. intros Hs. unfold btoa.
  assert (forallb (fun c => (c <=? 255)%N) s = true) as ->; [|done].
  apply forallb_forall. intros c Hc. apply N.leb_le.
  rewrite Forall_forall in Hs. apply Hs. by apply list_elem_of_In.
Qed.

Lemma encodeURIComponent_latin1 (s : jsstring) :
  latin1 s -> exists r, encodeURIComponent s = Returned r.
Proof.
  unfold latin1. intros Hs. unfold encodeURIComponent.
  assert (exists r, encodeURIComponent_units s = Some r) as [r ->]; [|eauto].
  induction s as [|c s IH]; [by eexists|].
  apply Forall_cons in Hs as [Hc Hs]. destruct (IH Hs) as [r Hr].
  simpl. rewrite Hr.
  destruct (N.ltb_spec c 55296) as [_|?]; [|lia]. simpl. eauto.
Qed.

(** Each parser, when it answers, answers with candidates. *)
Ltac parser_candidates :=
  intros url r; cbv zeta;
  repeat match goal with
  | |- context [RegExp.match_ ?p url] => destruct (RegExp.match_ p url)
  | |- context [first_match ?p url] => destruct (first_match p url)
  | |- context [if ?b then _ else _] => destruct b
  | |- context [encodeURIComponent ?u] => destruct (encodeURIComponent u)
  | |- context [btoa ?u] => destruct (btoa u)
  | |- _ => progress simpl
  end;
  try done; intros [= <-]; simpl; done.

Lemma parsers_candidates (window : Window) (parser : jsstring -> Outcome (option Parsed)) :
  parser ∈ parsers window ->
  forall url r, parser url = Returned (Some r) -> embedUrls r <> [].
Proof.
  unfold parsers. intros Hin.
  repeat (apply elem_of_cons in Hin as [->|Hin];
          [first [ unfold parseYouTube; parser_candidates
                 | unfold parseGoogleDrive; parser_candidates
                 | unfold parseVimeo; parser_candidates
                 | unfold parseDailymotion; parser_candidates
                 | unfold parseFacebook; parser_candidates
                 | unfold parseInstagram; parser_candidates
                 | unfold parseTikTok; parser_candidates
                 | unfold parseTwitter; parser_candidates
                 | unfold parseTwitch; parser_candidates
                 | unfold parseStreamable; parser_candidates
                 | unfold parseDropbox; parser_candidates
                 | unfold parseGooglePhotos; parser_candidates
                 | unfold parseDirectVideo; parser_candidates ]|]).
  by apply elem_of_nil in Hin.
Qed.

(** The loop: an answer comes from a parser, with the URL kept verbatim,
    or from [parseUnknown], with the URL as its only candidate. *)
Lemma try_parsers_shape (ps : list (jsstring -> Outcome (option Parsed)))
    (url : jsstring) (r : Parsed) :
  try_parsers ps url = Returned (Some r) ->
  (exists parser r0, parser ∈ ps /\ parser url = Returned (Some r0)
                     /\ r = with_originalUrl r0 url) \/
  (type r = js "other" /\ embedUrls r = [url] /\ originalUrl r = None).
Proof.
  induction ps as [|parser ps IH]; simpl.
  - unfold bind, parseUnknown. destruct (btoa url); simpl; [|done].
    intros [= <-]. by right.
  - unfold bind. destruct (parser url) as [[r0|]|] eqn:Hp; [| |done].
    + intros [= <-]. left. exists parser, r0.
      split; [apply list_elem_of_here|done].
    + intros H. destruct (IH H) as [(parser' & r0 & Hin & Hr0 & ->)|Hother].
      * left. exists parser', r0. split; [by apply list_elem_of_further|done].
      * by right.
Qed.

(** X26.  Whenever [parseURL] answers, the answer has at least one embed
    candidate.  It carries the URL as its [originalUrl], unless no
    parser took the URL: the answer of [parseUnknown] has the type
    [other], the URL as its only candidate, and no [originalUrl]. *)
Lemma parseURL_shape (window : Window) (url : jsstring) (r : Parsed) :
  parseURL window url = Returned (Some r) ->
  embedUrls r <> [] /\
  (originalUrl r = Some url \/
   (type r = js "other" /\ embedUrls r = [url] /\ originalUrl r = None)).
Proof.
  unfold parseURL. destruct (negb (truthy url)); [done|]. intros H.
  apply try_parsers_shape in H
    as [(parser & r0 & Hin & Hr0 & ->)|(Hty & Hc & Ho)].
  - split; [|by left]. simpl. by eapply parsers_candidates.
  - split; [by rewrite Hc|by right].
Qed.

Lemma parseURL_shape_witness :
  exists r,
    parseURL Sample.window (js "https://example.com/page")
    = Returned (Some r) /\
    embedUrls r <> [] /\
    (originalUrl r = Some (js "https://example.com/page") \/
     (type r = js "other" /\ embedUrls r = [js "https://example.com/page"] /\
      originalUrl r = None)).
Proof.
  eexists. split; [vm_compute; reflexivity|].
  apply (parseURL_shape Sample.window (js "https://example.com/page")).
  vm_compute. reflexivity.
Defined.

(** X27.  [parseURL] answers every URL that is not empty and has no unit
    above 255, in a page whose origin has none either: it does not throw
    and does not return [null]. *)
Lemma parseURL_answers_latin1 (window : Window) (url : jsstring) :
  url <> [] -> latin1 url -> latin1 (origin window) ->
  exists r, parseURL window url = Returned (Some r).
Proof.
  intros Hne Hurl Horigin. unfold parseURL.
  destruct url as [|c url']; [done|]. cbn [truthy negb].
  set (url := c :: url') in *.
  destruct (encodeURIComponent_latin1 _ Horigin) as [o Ho].
  destruct (encodeURIComponent_latin1 _ Hurl) as [e He].
  pose proof (btoa_latin1 _ Hurl) as Hb.
  unfold parsers, try_parsers, bind.
  unfold parseYouTube. rewrite Ho.
  destruct (first_match _ url); [destruct (includes url _); eauto|].
  unfold parseGoogleDrive. destruct (first_match _ url); [eauto|].
  unfold parseVimeo. destruct (first_match _ url); [eauto|].
  unfold parseDailymotion. destruct (first_match _ url); [eauto|].
  unfold parseFacebook, bind. rewrite He, Hb.
  destruct (_ || _); [eauto|].
  unfold parseInstagram. destruct (first_match _ url); [eauto|].
  unfold parseTikTok. destruct (includes url _); [eauto|].
  unfold parseTwitter, bind. rewrite He, Hb.
  destruct (_ || _); [eauto|].
  unfold parseTwitch.
  destruct (RegExp.match_ _ url); [eauto|].
  destruct (RegExp.match_ _ url); [eauto|].
  unfold parseStreamable. destruct (RegExp.match_ _ url); [eauto|].
  unfold parseDropbox. destruct (RegExp.match_ _ url); [eauto|].
  unfold parseGooglePhotos, bind. rewrite Hb.
  destruct (_ || _); [eauto|].
  unfold parseDirectVideo, bind. rewrite Hb.
  destruct (existsb _ _); [eauto|].
  unfold parseUnknown, bind. rewrite Hb. eauto.
Qed.

Lemma parseURL_answers_latin1_witness :
  exists r,
    parseURL Sample.window (js "https://example.com/caf" ++ [233%N])
    = Returned (Some r).
Proof.
  apply (parseURL_answers_latin1 Sample.window
           (js "https://example.com/caf" ++ [233%N])).
  - discriminate.
  - unfold latin1. apply (bool_decide_unpack _). vm_compute. exact I.
  - unfold latin1. apply (bool_decide_unpack _). vm_compute. exact I.
Defined.
End Classifier.

(* ================================================================== *)
(** * The id of a YouTube URL *)
(* ================================================================== *)

Section Extraction.
Import RegExp UniversalVideoParser.

(** A greedy run takes all the units of the class before the string
    stops being of the class, when what follows the pattern matches
    there. *)
Lemma plus_greedy {R} (class : N -> bool) (taken rest : jsstring)
    (k : jsstring -> option R) (r : R) :
  taken <> [] -> Forall (fun c => class c = true) taken ->
  stops class rest -> k rest = Some r ->
  plus class (taken ++ rest) k = Some r.
Proof.
  intros Hne Hall Hstop Hk.
  induction Hall as [|c taken Hc Hall IH]; [done|].
  cbn [app plus]. rewrite Hc.
  destruct taken as [|c' taken].
  - cbn [app]. destruct rest as [|d rest]; [by cbn|].
    cbn [plus]. simpl in Hstop. by rewrite Hstop.
  - by rewrite IH.
Qed.

Lemma run_group_plus {R} (class : N -> bool) (taken rest : jsstring)
    (caps : list jsstring) (k : jsstring -> list jsstring -> option R)
    (r : R) :
  taken <> [] -> Forall (fun c => class c = true) taken ->
  stops class rest -> k rest (caps ++ [taken]) = Some r ->
  run (Group (Plus class)) (taken ++ rest) caps k = Some r.
Proof.
  intros Hne Hall Hstop Hk. cbn [run].
  apply (plus_greedy class taken rest); [done|done|done|].
  rewrite length_app, Nat.add_sub, take_app_length. done.
Qed.

Lemma match_here (r : RegExp.t) (s : jsstring) (caps : list jsstring) :
  run r s [] (fun _ caps => Some caps) = Some caps -> match_ r s = Some caps.
Proof. intros H. destruct s; cbn [match_]; by rewrite H. Qed.

Lemma match_skip (r : RegExp.t) (c : N) (s : jsstring) :
  run r (c :: s) [] (fun _ caps => Some caps) = None ->
  match_ r (c :: s) = match_ r s.
Proof. intros H. cbn [match_]. by rewrite H. Qed.

Lemma run_seq_alt_miss {R} (r1 r2 g : RegExp.t) (s : jsstring)
    (caps : list jsstring) (k : jsstring -> list jsstring -> option R) :
  run (Seq r1 g) s caps k = None ->
  run (Seq (Alt r1 r2) g) s caps k = run (Seq r2 g) s caps k.
Proof. cbn [run]. by intros ->. Qed.

Lemma run_seq_alt_hit {R} (r1 r2 g : RegExp.t) (s : jsstring)
    (caps : list jsstring) (k : jsstring -> list jsstring -> option R)
    (x : R) :
  run (Seq r1 g) s caps k = Some x ->
  run (Seq (Alt r1 r2) g) s caps k = Some x.
Proof. cbn [run]. by intros ->. Qed.

(** Literal text, then a group that takes a run of one class. *)
Lemma run_literal_group (l : jsstring) (class : N -> bool)
    (taken rest : jsstring) :
  taken <> [] -> Forall (fun c => class c = true) taken ->
  stops class rest ->
  run (Seq (Chars l) (Group (Plus class))) (l ++ taken ++ rest) []
      (fun _ caps => Some caps)
  = Some [taken].
Proof.
  intros Hne Hall Hstop. cbn [run].
  rewrite startsWith_app, drop_app_length.
  by apply (plus_greedy class taken rest); [done|done|done|];
    rewrite length_app, Nat.add_sub, take_app_length.
Qed.

Ltac at_literal id suffix :=
  repeat (rewrite run_seq_alt_miss by reflexivity);
  try apply run_seq_alt_hit;
  match goal with
  | |- run (Seq (Chars ?l) _) _ _ _ = _ =>
      apply (run_literal_group l (none_of "&?/#") id suffix); assumption
  end.

Ltac from_prefix prefix id suffix :=
  let v := eval vm_compute in prefix in
  change prefix with v; cbn [app];
  repeat (rewrite match_skip by reflexivity);
  apply match_here; unfold watch_pattern; cbn [alts]; unfold lit;
  at_literal id suffix.

Lemma watch_pattern_captures (prefix id suffix : jsstring) :
  prefix ∈ youtube_prefixes ->
  id <> [] -> Forall (fun c => none_of "&?/#" c = true) id ->
  stops (none_of "&?/#") suffix ->
  match_ watch_pattern (prefix ++ id ++ suffix) = Some [id].
Proof.
  intros Hprefix Hne Hall Hstop. unfold youtube_prefixes in Hprefix.
  cbn [fmap list_fmap] in Hprefix.
  repeat (apply elem_of_cons in Hprefix as [->|Hprefix];
          [match goal with
           | |- match_ _ (?prefix ++ _) = _ => from_prefix prefix id suffix
           end|]).
  by apply elem_of_nil in Hprefix.
Qed.

(** X25.  [parseURL] finds the id of a YouTube video: for a URL made of
    one of the usual forms of YouTube addresses, an id that is not empty
    and holds none of [& ? / #], and a rest that is empty or begins with
    one of these four (a query, a fragment, a further path), and in which
    the word [playlist] does not occur, the result has the type
    [youtube], the id as its [videoId], three embed candidates built
    from the id, the first of them on [www.youtube.com/embed/], and the
    URL itself as its [originalUrl]. *)
Theorem parseURL_extracts_youtube_id (window : Window)
    (prefix id suffix encodedOrigin : jsstring) :
  prefix ∈ youtube_prefixes ->
  id <> [] -> Forall (fun c => none_of "&?/#" c = true) id ->
  stops (none_of "&?/#") suffix ->
  includes (prefix ++ id ++ suffix) (js "playlist") = false ->
  encodeURIComponent (origin window) = Returned encodedOrigin ->
  parseURL window (prefix ++ id ++ suffix)
  = Returned (Some
      {| videoId := id;
         type := js "youtube";
         embedUrls :=
           [ js "https://www.youtube.com/embed/" ++ id
               ++ js "?autoplay=1&modestbranding=1&rel=0&playsinline=1&origin="
               ++ encodedOrigin;
             js "https://www.youtube-nocookie.com/embed/" ++ id
               ++ js "?autoplay=1&modestbranding=1&rel=0&playsinline=1";
             js "https://www.youtube.com/embed/" ++ id
               ++ js "?autoplay=1&origin=*" ];
         thumbnail :=
           js "https://img.youtube.com/vi/" ++ id ++ js "/hqdefault.jpg";
         title := js "YouTube Video";
         description := js "YouTube Video";
         originalUrl := Some (prefix ++ id ++ suffix) |}).
Proof.
  intros Hprefix Hne Hall Hstop Hplaylist Horigin.
  pose proof (watch_pattern_captures prefix id suffix Hprefix Hne Hall Hstop)
    as Hmatch.
  unfold watch_pattern in Hmatch.
  assert (truthy (prefix ++ id ++ suffix) = true) as Htruthy.
  { destruct prefix; [|done]. by destruct id. }
  unfold parseURL. rewrite Htruthy. cbn [negb].
  unfold parsers. cbn [try_parsers]. unfold parseYouTube at 1. cbv zeta.
  cbn [first_match]. rewrite Hmatch, Hplaylist, Horigin. reflexivity.
Qed.

Lemma parseURL_extracts_youtube_id_witness :
  exists r,
    parseURL Sample.window (js "https://youtu.be/" ++ js "dQw4w9WgXcQ"
                            ++ js "?t=42")
    = Returned (Some r) /\
    videoId r = js "dQw4w9WgXcQ" /\
    originalUrl r = Some (js "https://youtu.be/dQw4w9WgXcQ?t=42").
Proof.
  eexists. split.
  - apply (parseURL_extracts_youtube_id Sample.window (js "https://youtu.be/")
             (js "dQw4w9WgXcQ") (js "?t=42")
             (js "https%3A%2F%2Fhub.example")).
    + apply (bool_decide_unpack _). vm_compute. exact I.
    + discriminate.
    + apply Forall_forall. intros c Hc.
      apply (bool_decide_unpack _).
      revert c Hc. apply Forall_forall.
      apply (bool_decide_unpack _). vm_compute. exact I.
    + reflexivity.
    + vm_compute. reflexivity.
    + vm_compute. reflexivity.
  - split; [reflexivity|]. vm_compute. reflexivity.
Defined.
End Extraction.

(* ================================================================== *)
(** * Parsed URLs before the duplicate guard *)
(* ================================================================== *)

Section Titles.
Import UniversalVideoParser.

Ltac parser_title :=
  intros url r; cbv zeta;
  repeat match goal with
  | |- context [RegExp.match_ ?p url] => destruct (RegExp.match_ p url)
  | |- context [first_match ?p url] => destruct (first_match p url)
  | |- context [if ?b then _ else _] => destruct b
  | |- context [encodeURIComponent ?u] => destruct (encodeURIComponent u)
  | |- context [btoa ?u] => destruct (btoa u)
  | |- _ => progress simpl
  end;
  try done; intros [= <-]; intros Hty;
  first [ exfalso; apply Hty; reflexivity
        | split; [vm_compute; reflexivity|discriminate] ].

Lemma parsers_title (window : Window)
    (parser : jsstring -> Outcome (option Parsed)) :
  parser ∈ parsers window ->
  forall url r, parser url = Returned (Some r) ->
  type r <> js "twitch" ->
  title r = platform_title (type r) /\ title r <> [].
Proof.
  unfold parsers. intros Hin.
  repeat (apply elem_of_cons in Hin as [->|Hin];
          [first [ unfold parseYouTube; parser_title
                 | unfold parseGoogleDrive; parser_title
                 | unfold parseVimeo; parser_title
                 | unfold parseDailymotion; parser_title
                 | unfold parseFacebook; parser_title
                 | unfold parseInstagram; parser_title
                 | unfold parseTikTok; parser_title
                 | unfold parseTwitter; parser_title
                 | unfold parseTwitch; parser_title
                 | unfold parseStreamable; parser_title
                 | unfold parseDropbox; parser_title
                 | unfold parseGooglePhotos; parser_title
                 | unfold parseDirectVideo; parser_title ]|]).
  by apply elem_of_nil in Hin.
Qed.

Lemma try_parsers_title (ps : list (jsstring -> Outcome (option Parsed)))
    (url : jsstring) (r : Parsed) :
  (forall parser r0, parser ∈ ps -> parser url = Returned (Some r0) ->
     type r0 <> js "twitch" ->
     title r0 = platform_title (type r0) /\ title r0 <> []) ->
  try_parsers ps url = Returned (Some r) ->
  type r <> js "twitch" ->
  title r = platform_title (type r) /\ title r <> [].
Proof.
  induction ps as [|parser ps IH]; intros Hps; simpl.
  - unfold bind, parseUnknown. destruct (btoa url); simpl; [|done].
    intros [= <-] _. split; [vm_compute; reflexivity|discriminate].
  - unfold bind. destruct (parser url) as [[r0|]|] eqn:Hp; [| |done].
    + intros [= <-]. apply (Hps parser r0); [apply list_elem_of_here|done].
    + apply IH. intros parser' r0 Hin. apply Hps.
      by apply list_elem_of_further.
Qed.

Lemma parseURL_title (window : Window) (url : jsstring) (r : Parsed) :
  parseURL window url = Returned (Some r) ->
  type r <> js "twitch" ->
  title r = platform_title (type r) /\ title r <> [].
Proof.
  unfold parseURL. destruct (negb (truthy url)); [done|].
  apply try_parsers_title. intros parser r0 Hin.
  by apply (parsers_title window parser Hin url r0).
Qed.

(** X24.  The parsers give one title to all the URLs of a platform, and
    the duplicate guard compares titles: two URLs that [parseURL] gives
    the same type (other than [twitch], which has two titles) make
    candidates that [checkSimilarity] finds similar at the threshold of
    the guard, whatever the two URLs are; with one of them among the
    existing entries, [isDuplicate] flags the other. *)
Theorem parsed_urls_of_a_platform_are_similar (window : Window)
    (url1 url2 : jsstring) (r1 r2 : Parsed)
    (self : DuplicatePreventionService.t)
    (existingVideos : list DuplicatePreventionService.VideoData) :
  parseURL window url1 = Returned (Some r1) ->
  parseURL window url2 = Returned (Some r2) ->
  type r1 = type r2 -> type r1 <> js "twitch" ->
  DuplicatePreventionService.similarityThreshold self = 85 # 100 ->
  of_parsed r1 ∈ existingVideos ->
  DuplicatePreventionService.checkSimilarity (of_parsed r2) (of_parsed r1)
                                             (85 # 100) = true /\
  fst (DuplicatePreventionService.isDuplicate self (of_parsed r2)
                                              existingVideos) = true.
Proof.
  intros H1 H2 Hty Htw Hth Hin.
  destruct (parseURL_title window url1 r1 H1 Htw) as [Ht1 Hne].
  assert (type r2 <> js "twitch") as Htw2 by congruence.
  destruct (parseURL_title window url2 r2 H2 Htw2) as [Ht2 _].
  assert (title r1 = title r2) as Htitle by congruence.
  split.
  - unfold DuplicatePreventionService.checkSimilarity. cbv zeta.
    cbn [of_parsed DuplicatePreventionService.title].
    rewrite <- Htitle.
    pose proof (calculateSimilarity_same _ Hne) as Hsim.
    set (titleSimilarity :=
           DuplicatePreventionService.calculateSimilarity _ _) in *.
    set (urlSimilarity := match _ with Some _ => _ | None => _ end).
    unfold DuplicatePreventionService.Qgtb.
    apply negb_true_iff, not_true_iff_false. intros Hle.
    apply Qle_bool_iff in Hle.
    pose proof (Q.le_max_l titleSimilarity urlSimilarity) as Hmax.
    pose proof (Qle_trans _ _ _ Hmax Hle) as Habs.
    rewrite Hsim in Habs. by vm_compute in Habs.
  - apply (isDuplicate_flags_same_title self (of_parsed r2) (of_parsed r1));
      [done|done| |].
    + cbn [of_parsed DuplicatePreventionService.title]. done.
    + cbn [of_parsed DuplicatePreventionService.title]. by rewrite <- Htitle.
Qed.

Lemma parsed_urls_of_a_platform_are_similar_witness :
  exists r1 r2,
    parseURL Sample.window (js "https://youtu.be/aaaaaaaaaaa")
    = Returned (Some r1) /\
    parseURL Sample.window (js "https://www.youtube.com/watch?v=zzzzzzzzzzz")
    = Returned (Some r2) /\
    DuplicatePreventionService.checkSimilarity (of_parsed r2) (of_parsed r1)
                                               (85 # 100) = true /\
    fst (DuplicatePreventionService.isDuplicate
           DuplicatePreventionService.new (of_parsed r2) [of_parsed r1])
    = true.
Proof.
  eexists _, _. split; [vm_compute; reflexivity|].
  split; [vm_compute; reflexivity|].
  apply (parsed_urls_of_a_platform_are_similar Sample.window
           (js "https://youtu.be/aaaaaaaaaaa")
           (js "https://www.youtube.com/watch?v=zzzzzzzzzzz")).
  - vm_compute. reflexivity.
  - vm_compute. reflexivity.
  - reflexivity.
  - discriminate.
  - reflexivity.
  - apply list_elem_of_here.
Defined.
End Titles.

(* ================================================================== *)
(** * Requests to the record store *)
(* ================================================================== *)

Section Requests.
Import AirtableService.
Context {A : Type}.
Implicit Types (fetch : nat -> Fetched A) (k n retries : nat).

Lemma after_delay_fetches (ms : Z) (rest : Handled A) :
  h_fetches (after_delay ms rest) = S (h_fetches rest).
Proof. done. Qed.

Lemma after_delay_total (ms : Z) (rest : Handled A) :
  total_delay (h_delays (after_delay ms rest))
  = ms + total_delay (h_delays rest).
Proof. done. Qed.

(** One unfolding of [handleRequest] with a retry left, by the outcome
    of the attempt. *)
Lemma handleRequest_retried fetch k retries :
  retried (fetch k) ->
  exists ms, (ms = retryDelay \/ ms = retryDelay * 2) /\
    handleRequest fetch k (S retries)
    = after_delay ms (handleRequest fetch (S k) retries).
Proof.
  intros H. cbn [handleRequest]. unfold retried in H.
  destruct (fetch k) as [status statusText json|error].
  - destruct (ok status).
    + destruct json as [error|data]; [|done].
      rewrite bool_decide_eq_false_2 by done. eauto.
    + destruct (status =? 429)%nat; [eauto|].
      destruct (500 <=? status)%nat; [eauto|].
      rewrite bool_decide_eq_false_2 by done. eauto.
  - rewrite bool_decide_eq_false_2 by done. eauto.
Qed.

Lemma handleRequest_last fetch k :
  retried (fetch k) ->
  handleRequest fetch k 0 = settled (inl (failure (fetch k))).
Proof.
  intros H. cbn [handleRequest]. unfold retried in H. unfold failure.
  destruct (fetch k) as [status statusText json|error]; [|done].
  destruct (ok status); [by destruct json|done].
Qed.

Lemma handleRequest_parsed fetch k retries (status : nat)
    (statusText : jsstring) (data : A) :
  fetch k = Answered status statusText (inr data) -> ok status = true ->
  handleRequest fetch k retries = settled (inr data).
Proof.
  intros Hk Hok. destruct retries; cbn [handleRequest]; by rewrite Hk, Hok.
Qed.

Lemma handleRequest_bounds fetch k retries :
  (h_fetches (handleRequest fetch k retries) <= S retries)%nat /\
  0 <= total_delay (h_delays (handleRequest fetch k retries))
    <= 2 * retryDelay * Z.of_nat retries.
Proof.
  revert k. induction retries as [|retries IH]; intros k.
  - cbn [handleRequest].
    destruct (fetch k) as [status statusText json|error]; [|by cbn].
    destruct (ok status); [by destruct json|by cbn].
  - assert (forall ms, (ms = retryDelay \/ ms = retryDelay * 2) ->
      let h := after_delay ms (handleRequest fetch (S k) retries) in
      (h_fetches h <= S (S retries))%nat /\
      0 <= total_delay (h_delays h) <= 2 * retryDelay * Z.of_nat (S retries))
      as Hstep.
    { intros ms Hms h. subst h.
      rewrite after_delay_fetches, after_delay_total.
      destruct (IH (S k)) as [? ?]. unfold retryDelay in *. lia. }
    assert (forall r : Error + A,
      (h_fetches (settled r) <= S (S retries))%nat /\
      0 <= total_delay (h_delays (settled r))
        <= 2 * retryDelay * Z.of_nat (S retries)) as Hstop.
    { intros r. cbn. unfold retryDelay. lia. }
    cbn [handleRequest].
    destruct (fetch k) as [status statusText json|error].
    + destruct (ok status).
      * destruct json as [error|data]; [|apply Hstop].
        destruct (bool_decide _); [apply Hstop|apply Hstep; by left].
      * destruct (status =? 429)%nat; [apply Hstep; by right|].
        destruct (500 <=? status)%nat; [apply Hstep; by left|].
        destruct (bool_decide _); [apply Hstop|apply Hstep; by left].
    + destruct (bool_decide _); [apply Hstop|apply Hstep; by left].
Qed.

(** X1.  Whatever the server does, [handleRequest] calls [fetch] at most
    [retries + 1] times, and the delays it waits for between its
    attempts add up to at most [2 * retryDelay * retries] milliseconds. *)
Theorem handleRequest_gives_up_in_time fetch retries :
  let handled := handleRequest fetch 0 retries in
  (1 <= h_fetches handled <= S retries)%nat /\
  total_delay (h_delays handled) <= 2 * retryDelay * Z.of_nat retries.
Proof.
  intros handled. subst handled.
  destruct (handleRequest_bounds fetch 0 retries) as [Hf [_ Hd]].
  split; [split; [|done]|done].
  destruct retries; cbn [handleRequest];
    repeat match goal with
    | |- context [match ?x with _ => _ end] => destruct x
    end; cbn; lia.
Qed.

(** From the attempt [k] on: [n] outcomes that are retried, then a body
    that parses. *)
Lemma handleRequest_succeeds_at fetch k n retries (status : nat)
    (statusText : jsstring) (data : A) :
  (n <= retries)%nat ->
  (forall i, (i < n)%nat -> retried (fetch (k + i)%nat)) ->
  fetch (k + n)%nat = Answered status statusText (inr data) ->
  ok status = true ->
  h_result (handleRequest fetch k retries) = inr data /\
  h_fetches (handleRequest fetch k retries) = S n.
Proof.
  revert k retries. induction n as [|n IH]; intros k retries Hn Hbefore Hk Hok.
  - rewrite Nat.add_0_r in Hk.
    by rewrite (handleRequest_parsed _ _ _ _ _ _ Hk Hok).
  - destruct retries as [|retries]; [lia|].
    destruct (handleRequest_retried fetch k retries) as (ms & _ & ->).
    { specialize (Hbefore 0%nat). rewrite Nat.add_0_r in Hbefore.
      apply Hbefore. lia. }
    rewrite after_delay_fetches. cbn [after_delay h_result].
    destruct (IH (S k) retries) as [-> ->]; [lia| | |done|done].
    + intros i Hi. replace (S k + i)%nat with (k + S i)%nat by lia.
      apply Hbefore. lia.
    + by replace (S k + n)%nat with (k + S n)%nat by lia.
Qed.

(** X2.  [handleRequest] returns the first body that parses: when the
    attempt [n] is answered with an ok status and a body that parses,
    [n] is within the retries, and every attempt before it ended in
    something else than an [AbortError], the result is that body, after
    [n + 1] calls of [fetch]. *)
Theorem handleRequest_returns_first_success fetch n retries (status : nat)
    (statusText : jsstring) (data : A) :
  (n <= retries)%nat ->
  (forall i, (i < n)%nat -> retried (fetch i)) ->
  fetch n = Answered status statusText (inr data) ->
  ok status = true ->
  h_result (handleRequest fetch 0 retries) = inr data /\
  h_fetches (handleRequest fetch 0 retries) = S n.
Proof.
  intros Hn Hbefore Hk Hok.
  by apply (handleRequest_succeeds_at fetch 0 n retries status statusText).
Qed.

Lemma handleRequest_fails_from fetch k retries :
  (forall i, (i <= retries)%nat -> retried (fetch (k + i)%nat)) ->
  h_result (handleRequest fetch k retries)
  = inl (failure (fetch (k + retries)%nat)) /\
  h_fetches (handleRequest fetch k retries) = S retries /\
  length (h_delays (handleRequest fetch k retries)) = retries.
Proof.
  revert k. induction retries as [|retries IH]; intros k Hall.
  - rewrite Nat.add_0_r. rewrite handleRequest_last; [done|].
    specialize (Hall 0%nat). rewrite Nat.add_0_r in Hall. apply Hall. lia.
  - destruct (handleRequest_retried fetch k retries) as (ms & _ & ->).
    { specialize (Hall 0%nat). rewrite Nat.add_0_r in Hall.
      apply Hall. lia. }
    cbn [after_delay h_result h_fetches h_delays length].
    destruct (IH (S k)) as (-> & -> & ->).
    + intros i Hi. replace (S k + i)%nat with (k + S i)%nat by lia.
      apply Hall. lia.
    + by replace (S k + retries)%nat with (k + S retries)%nat by lia.
Qed.

(** X3.  Every failure but an [AbortError] is retried, the statuses
    below 500 too (a 404, say): when none of the first [retries + 1]
    attempts yields a parsed body or an [AbortError], [handleRequest]
    makes them all, waits before each retry, and throws what the last
    attempt failed with. *)
Theorem handleRequest_retries_every_failure fetch retries :
  (forall i, (i <= retries)%nat -> retried (fetch i)) ->
  h_result (handleRequest fetch 0 retries) = inl (failure (fetch retries)) /\
  h_fetches (handleRequest fetch 0 retries) = S retries /\
  length (h_delays (handleRequest fetch 0 retries)) = retries.
Proof. intros Hall. by apply (handleRequest_fails_from fetch 0 retries). Qed.
End Requests.

Section CatalogRequests.
Import AirtableService.

Lemma handleRequest_returns_first_success_witness :
  h_result (handleRequest Fixture.flaky 0 3) = inr (Some Fixture.records) /\
  h_fetches (handleRequest Fixture.flaky 0 3) = 3%nat.
Proof.
  apply (handleRequest_returns_first_success Fixture.flaky 2 3 200 (js "OK")).
  - lia.
  - intros i Hi. destruct i as [|[|i]]; [exact I|exact I|lia].
  - reflexivity.
  - reflexivity.
Defined.

Lemma handleRequest_retries_every_failure_witness :
  h_result (handleRequest Fixture.missing 0 3)
  = inl (http_error 404 (js "Not Found")) /\
  h_fetches (handleRequest Fixture.missing 0 3) = 4%nat /\
  length (h_delays (handleRequest Fixture.missing 0 3)) = 3%nat.
Proof.
  apply (handleRequest_retries_every_failure Fixture.missing 3).
  intros i Hi. exact I.
Defined.

(** X4.  The catalog survives a server that fails at first: with an
    empty cache, when one of the first [retryCount + 1] attempts is
    answered with an ok status and a body whose [records] is an array,
    and no attempt before it ended in an [AbortError] (or in a body that
    parses), [getAllVideos] returns the entries of these records that
    are not inactive, and caches them. *)
Theorem requestAllVideos_recovers (self : t) (nowISO : jsstring)
    (fetch : nat -> Fetched (option (list Record_))) (n status : nat)
    (statusText : jsstring) (records : list Record_) :
  cache self = None ->
  (n <= retryCount)%nat ->
  (forall i, (i < n)%nat -> retried (fetch i)) ->
  fetch n = Answered status statusText (inr (Some records)) ->
  ok status = true ->
  requestAllVideos self nowISO fetch
  = (Returned (ingest nowISO records),
     {| cache := Some (ingest nowISO records) |}).
Proof.
  intros Hcache Hn Hbefore Hk Hok. unfold requestAllVideos, reply_of.
  destruct (handleRequest_succeeds_at fetch 0 n retryCount status statusText
              (Some records) Hn Hbefore Hk Hok) as [-> _].
  unfold getAllVideos. by rewrite Hcache.
Qed.

Lemma requestAllVideos_recovers_witness :
  requestAllVideos new (js "2024-01-01") Fixture.flaky
  = (Returned (ingest (js "2024-01-01") Fixture.records),
     {| cache := Some (ingest (js "2024-01-01") Fixture.records) |}).
Proof.
  apply (requestAllVideos_recovers new (js "2024-01-01") Fixture.flaky 2 200
           (js "OK") Fixture.records).
  - reflexivity.
  - unfold retryCount. lia.
  - intros i Hi. destruct i as [|[|i]]; [exact I|exact I|lia].
  - reflexivity.
  - reflexivity.
Defined.

(** X5.  A catalog that was loaded once is answered from the cache: after
    a call of [getAllVideos] that returned, every later call returns the
    same list and leaves the service as it is, whatever the server would
    answer and whatever the time, until the cache is cleared. *)
Theorem requestAllVideos_answers_from_cache (self self' : t)
    (nowISO nowISO' : jsstring)
    (fetch fetch' : nat -> Fetched (option (list Record_)))
    (videos : list Video.t) :
  requestAllVideos self nowISO fetch = (Returned videos, self') ->
  requestAllVideos self' nowISO' fetch' = (Returned videos, self').
Proof.
  unfold requestAllVideos, getAllVideos. intros H.
  destruct (cache self) as [cached|] eqn:Hcache.
  - simplify_eq. by rewrite Hcache.
  - destruct (reply_of _) as [|[records|]]; simplify_eq. done.
Qed.

Lemma requestAllVideos_answers_from_cache_witness :
  requestAllVideos
    {| cache := Some (ingest (js "2024-01-01") Fixture.records) |}
    (js "2024-06-01") Fixture.missing
  = (Returned (ingest (js "2024-01-01") Fixture.records),
     {| cache := Some (ingest (js "2024-01-01") Fixture.records) |}).
Proof.
  apply (requestAllVideos_answers_from_cache new _ (js "2024-01-01") _
           Fixture.flaky).
  vm_compute. reflexivity.
Defined.
End CatalogRequests.

(* ================================================================== *)
(** * Entries that are added, and the inactive ones *)
(* ================================================================== *)

Section Admission.
Import EnhancedVideoManager.

(** ** What the ingestion drops, in terms of the records *)

Lemma str_or_inactive (status : option jsstring) :
  AirtableService.str_or status (js "active") = js "inactive" <->
  status = Some (js "inactive").
Proof.
  destruct status as [[|c s]|]; simpl; split; intros H; try done.
  - by f_equal.
  - by simplify_eq.
Qed.

Lemma List_filter_fmap {A B} (f : A -> B) (p : B -> bool) (l : list A) :
  List.filter p (f <$> l) = f <$> List.filter (fun x => p (f x)) l.
Proof.
  induction l as [|x l IH]; [done|].
  rewrite fmap_cons. cbn [List.filter].
  destruct (p (f x)); [rewrite fmap_cons|]; by rewrite IH.
Qed.

(** The list that [getAllVideos] builds holds one entry for each record
    whose [status] field is not ['inactive'], in the order of the
    records, and none for the others. *)
Lemma ingest_drops_inactive_records (nowISO : jsstring)
    (records : list AirtableService.Record_) :
  AirtableService.ingest nowISO records
  = AirtableService.video_of_record nowISO
    <$> List.filter
          (fun record =>
             negb (bool_decide
                     (AirtableService.f_status (AirtableService.r_fields record)
                      = Some (js "inactive"))))
          records.
Proof.
  unfold AirtableService.ingest. rewrite List_filter_fmap. f_equal.
  apply filter_ext. intros record.
  unfold AirtableService.not_inactive. f_equal.
  apply bool_decide_ext. cbn [AirtableService.video_of_record Video.status].
  split.
  - intros [= H]. by apply str_or_inactive.
  - intros H. f_equal. by apply str_or_inactive.
Qed.

(** ** The record that a creation returns *)

Lemma handleRequest_answered {A} (fetch : nat -> AirtableService.Fetched A)
    (k retries : nat) (data : A) :
  AirtableService.h_result (AirtableService.handleRequest fetch k retries)
  = inr data ->
  exists i status statusText,
    fetch i = AirtableService.Answered status statusText (inr data).
Proof.
  revert k. induction retries as [|retries IH]; intros k.
  - cbn [AirtableService.handleRequest].
    destruct (fetch k) as [status statusText json|error] eqn:Hk; [|done].
    destruct (AirtableService.ok status); [|done].
    destruct json as [error|data']; [done|].
    intros [= ->]. eauto.
  - cbn [AirtableService.handleRequest].
    destruct (fetch k) as [status statusText json|error] eqn:Hk.
    + destruct (AirtableService.ok status).
      * destruct json as [error|data']; [|intros [= ->]; eauto].
        destruct (bool_decide _); [done|]. apply IH.
      * destruct (status =? 429)%nat; [apply IH|].
        destruct (500 <=? status)%nat; [apply IH|].
        destruct (bool_decide _); [done|]. apply IH.
    + destruct (bool_decide _); [done|]. apply IH.
Qed.

(** The entry that [addVideo] returns is the first record of an answer
    of the store, with the [status] of that record; the cache is emptied
    or left as it is. *)
Lemma addVideo_returns_created (service service' : AirtableService.t)
    (nowISO : jsstring) (video : AirtableService.NewVideo)
    (store : AirtableService.Posted -> nat ->
             AirtableService.Fetched (option (list AirtableService.Created)))
    (outcome : Outcome Video.t) :
  AirtableService.addVideo service nowISO video store = (outcome, service') ->
  (service' = service \/ service' = AirtableService.clearCache service) /\
  forall createdVideo, outcome = Returned createdVideo ->
    exists record k status statusText createdRecord rest,
      store record k
      = AirtableService.Answered status statusText
          (inr (Some (createdRecord :: rest))) /\
      createdVideo = AirtableService.video_of_created createdRecord.
Proof.
  unfold AirtableService.addVideo.
  destruct (AirtableService.h_result _) as [error|[[|createdRecord rest]|]]
    eqn:Hresult; intros [= <- <-]; (split; [auto|]); try done.
  intros createdVideo [= <-].
  apply handleRequest_answered in Hresult as (k & status & statusText & Hk).
  eauto 10.
Qed.

(** ** The views after an addition *)

Lemma catalog_ok_frame (self self' : t) :
  allVideos self' = allVideos self ->
  filteredVideos self' = filteredVideos self ->
  airtable self' = airtable self ->
  catalog_ok self -> catalog_ok self'.
Proof. unfold catalog_ok. by intros -> -> ->. Qed.

Lemma showNotification_ok (message kind : jsstring) (self : t) :
  catalog_ok self -> catalog_ok (showNotification message kind self).
Proof. by apply catalog_ok_frame. Qed.

Lemma addCustomVideo_ok (host : Host) (window : Window) (net : Network)
    (endpoints : VideoMetadataService.Endpoints)
    (store : AirtableService.Posted -> nat ->
             AirtableService.Fetched (option (list AirtableService.Created)))
    (now : Z) (url : jsstring) (self : t) :
  creates_active store -> catalog_ok self ->
  catalog_ok (snd (addCustomVideo host window net endpoints store now url
                                  self)).
Proof.
  intros Hstore Hok. unfold addCustomVideo.
  destruct (negb (truthy url)); [by apply showNotification_ok|].
  destruct (UniversalVideoParser.parseURL window url) as [[parsed|]|message];
    [|by apply showNotification_ok..].
  destruct (DuplicatePreventionService.isDuplicate _ _ _)
    as [duplicate checker].
  set (self1 := set_duplicateChecker checker self).
  assert (catalog_ok self1) as Hok1 by (by apply (catalog_ok_frame self)).
  clearbody self1.
  destruct duplicate; [by apply showNotification_ok|].
  destruct (VideoAvailabilityChecker.checkVideoAvailability _ _ _)
    as [isAvailable checker'].
  set (self2 := set_availabilityChecker checker' self1).
  assert (catalog_ok self2) as Hok2 by (by apply (catalog_ok_frame self1)).
  clearbody self2.
  set (self3 := if isAvailable then self2 else _).
  assert (catalog_ok self3) as Hok3.
  { subst self3. destruct isAvailable; [done|by apply showNotification_ok]. }
  clearbody self3.
  destruct (VideoMetadataService.fetchEnhancedMetadata _ _ _)
    as [enhancedMetadata service].
  set (self4 := set_metadata service self3).
  assert (catalog_ok self4) as Hok4 by (by apply (catalog_ok_frame self3)).
  clearbody self4.
  destruct (AirtableService.addVideo _ _ _ _) as [outcome service'] eqn:Hadd.
  apply addVideo_returns_created in Hadd as [Hservice Hcreated].
  set (self5 := set_airtable service' self4).
  assert (catalog_ok self5) as Hok5.
  { destruct Hok4 as (Hall & Hfil & Hcache). repeat split; try done.
    intros videos. subst self5.
    change (airtable (set_airtable service' self4)) with service'.
    destruct Hservice as [->| ->]; [apply Hcache|done]. }
  clearbody self5.
  destruct outcome as [createdVideo|message]; [|by apply showNotification_ok].
  apply showNotification_ok.
  destruct Hok5 as (Hall & Hfil & Hcache).
  apply applyFiltersAndSearch_ok; [|done].
  change (allVideos (set_allVideos (allVideos self5 ++ [createdVideo]) self5))
    with (allVideos self5 ++ [createdVideo]).
  apply Forall_app. split; [done|]. constructor; [|done].
  destruct (Hcreated createdVideo eq_refl)
    as (record & k & status & statusText & createdRecord & rest & Hk & ->).
  unfold active. cbn [AirtableService.video_of_created Video.status].
  eapply Hstore; [exact Hk|]. by left.
Qed.

Lemma act_ok (host : Host) (self : t) (action : Action) :
  well_created action -> catalog_ok self -> catalog_ok (act host self action).
Proof.
  intros Hcreated Hok. destruct action; simpl.
  - by apply loadVideos_ok.
  - by apply addCustomVideo_ok.
  - destruct Hok as (Hall & Hfil & Hcache).
    apply applyFiltersAndSearch_ok.
    + by rewrite (proj1 (addToSearchHistory_views _ _)).
    + by rewrite (proj2 (addToSearchHistory_views _ _)).
  - destruct Hok as (Hall & Hfil & Hcache). by apply applyFiltersAndSearch_ok.
  - destruct Hok as (Hall & Hfil & Hcache). by apply applyFiltersAndSearch_ok.
  - unfold loadVideoById. destruct (findIndex _ _); [|done]. simpl.
    destruct Hok as (Hall & Hfil & Hcache). unfold catalog_ok.
    destruct (addToRecentlyPlayed_views
                (set_currentVideoId (Some videoId) self) now videoId)
      as (-> & -> & ->). done.
  - destruct Hok as (Hall & Hfil & Hcache). done.
Qed.

(** Whatever the catalog goes through (loads, additions, searches,
    sorts, filters, selections, expiry of the cache), neither the full
    set nor the filtered view holds an inactive entry, as long as the
    record store answers no creation with an inactive record. *)
Lemma catalog_shows_inactive_only_if_created (host : Host) (now0 : Z)
    (actions : list Action) :
  Forall well_created actions ->
  Forall active (allVideos (foldl (act host) (new now0) actions)) /\
  Forall active (filteredVideos (foldl (act host) (new now0) actions)).
Proof.
  intros Hactions.
  assert (catalog_ok (foldl (act host) (new now0) actions)) as (? & ? & _);
    [|done].
  induction actions as [|a actions IH] using rev_ind.
  - repeat split; try constructor. done.
  - rewrite foldl_app. simpl.
    apply Forall_app in Hactions as [Hactions Ha].
    apply act_ok; [by inversion Ha|by apply IH].
Qed.

End Admission.
